(** * AkaiApcMiniMk2Controller: the LED controller and the press-behaviour
      engine of the dashboard, embedded from
      [midiakaicontroller/led_controller.py] and
      [midiakaicontroller/dashboard.py].

    Python integers are [Z]; dictionaries ([led_states], [toggle_states],
    [buttons]) are [gmap]s; an object attribute that may hold [None] is an
    [option]; a method that mutates [self] and may raise is a state
    transformer that returns the new state together with either a value or
    the exception.  A state change made before a [raise] stays, as in
    Python. *)

From Stdlib Require Import ZArith String List Bool Lia.
From stdpp Require Import base option gmap strings list.

Local Open Scope Z_scope.

(** ** Python exceptions and the state-and-exception monad *)

Inductive exn : Type :=
| ValueError (msg : string)
| KeyError (key : string)
| AttributeError (msg : string).

Inductive outcome (A : Type) : Type :=
| Return (a : A)
| Raise (e : exn).
Arguments Return {A} a.
Arguments Raise {A} e.

Definition M (S A : Type) : Type := S -> S * outcome A.

Definition ret {S A} (a : A) : M S A := fun s => (s, Return a).

Definition raise {S A} (e : exn) : M S A := fun s => (s, Raise e).

Definition bind {S A B} (m : M S A) (k : A -> M S B) : M S B :=
  fun s =>
    match m s with
    | (s', Return a) => k a s'
    | (s', Raise e) => (s', Raise e)
    end.

Definition gets {S A} (f : S -> A) : M S A := fun s => (s, Return (f s)).

Definition modify {S} (f : S -> S) : M S unit := fun s => (f s, Return tt).

Notation "'let*' x ':=' m 'in' k" := (bind m (fun x => k))
  (at level 10, x name, m at level 100, k at level 200, only parsing).
Notation "m ';;;' k" := (bind m (fun _ => k))
  (at level 100, k at level 200, right associativity, only parsing).

(** [for x in xs: body(x)]; the first exception leaves the loop. *)
Fixpoint for_each {S A} (xs : list A) (body : A -> M S unit) : M S unit :=
  match xs with
  | [] => ret tt
  | x :: xs' => body x ;;; for_each xs' body
  end.

(** [range(n)] *)
Definition range (n : nat) : list Z := map Z.of_nat (seq 0 n).

(** ** [PadColor] *)

Inductive PadColor : Type :=
| OFF | DIM | GRAY | WHITE
| LIGHT_RED | RED | DARK_RED | VERY_DARK_RED
| LIGHT_ORANGE | ORANGE | DARK_ORANGE | BROWN
| LIGHT_YELLOW | YELLOW | DARK_YELLOW | VERY_DARK_YELLOW
| LIGHT_LIME | LIME | DARK_LIME | VERY_DARK_LIME
| LIGHT_GREEN | GREEN | DARK_GREEN | VERY_DARK_GREEN
| LIGHT_BLUE | BLUE | DARK_BLUE | VERY_DARK_BLUE.

Global Instance PadColor_eq_dec : EqDecision PadColor.
Proof. solve_decision. Defined.

(** [color.value] *)
Definition PadColor_value (c : PadColor) : Z :=
  match c with
  | OFF => 0 | DIM => 1 | GRAY => 2 | WHITE => 3
  | LIGHT_RED => 4 | RED => 5 | DARK_RED => 6 | VERY_DARK_RED => 7
  | LIGHT_ORANGE => 8 | ORANGE => 9 | DARK_ORANGE => 10 | BROWN => 11
  | LIGHT_YELLOW => 12 | YELLOW => 13 | DARK_YELLOW => 14
  | VERY_DARK_YELLOW => 15
  | LIGHT_LIME => 16 | LIME => 17 | DARK_LIME => 18 | VERY_DARK_LIME => 19
  | LIGHT_GREEN => 20 | GREEN => 21 | DARK_GREEN => 22
  | VERY_DARK_GREEN => 23
  | LIGHT_BLUE => 44 | BLUE => 45 | DARK_BLUE => 46 | VERY_DARK_BLUE => 47
  end.

(** [color.name] *)
Definition PadColor_name (c : PadColor) : string :=
  match c with
  | OFF => "OFF" | DIM => "DIM" | GRAY => "GRAY" | WHITE => "WHITE"
  | LIGHT_RED => "LIGHT_RED" | RED => "RED" | DARK_RED => "DARK_RED"
  | VERY_DARK_RED => "VERY_DARK_RED"
  | LIGHT_ORANGE => "LIGHT_ORANGE" | ORANGE => "ORANGE"
  | DARK_ORANGE => "DARK_ORANGE" | BROWN => "BROWN"
  | LIGHT_YELLOW => "LIGHT_YELLOW" | YELLOW => "YELLOW"
  | DARK_YELLOW => "DARK_YELLOW" | VERY_DARK_YELLOW => "VERY_DARK_YELLOW"
  | LIGHT_LIME => "LIGHT_LIME" | LIME => "LIME" | DARK_LIME => "DARK_LIME"
  | VERY_DARK_LIME => "VERY_DARK_LIME"
  | LIGHT_GREEN => "LIGHT_GREEN" | GREEN => "GREEN"
  | DARK_GREEN => "DARK_GREEN" | VERY_DARK_GREEN => "VERY_DARK_GREEN"
  | LIGHT_BLUE => "LIGHT_BLUE" | BLUE => "BLUE" | DARK_BLUE => "DARK_BLUE"
  | VERY_DARK_BLUE => "VERY_DARK_BLUE"
  end.

(** The members in definition order, [list(PadColor)]. *)
Definition PadColor_members : list PadColor :=
  [ OFF; DIM; GRAY; WHITE;
    LIGHT_RED; RED; DARK_RED; VERY_DARK_RED;
    LIGHT_ORANGE; ORANGE; DARK_ORANGE; BROWN;
    LIGHT_YELLOW; YELLOW; DARK_YELLOW; VERY_DARK_YELLOW;
    LIGHT_LIME; LIME; DARK_LIME; VERY_DARK_LIME;
    LIGHT_GREEN; GREEN; DARK_GREEN; VERY_DARK_GREEN;
    LIGHT_BLUE; BLUE; DARK_BLUE; VERY_DARK_BLUE ].

(** The hex code each member is documented with in the enumeration. *)
Definition PadColor_hex (c : PadColor) : string :=
  match c with
  | OFF => "#000000" | DIM => "#1E1E1E" | GRAY => "#7F7F7F"
  | WHITE => "#FFFFFF"
  | LIGHT_RED => "#FF4C4C" | RED => "#FF0000" | DARK_RED => "#590000"
  | VERY_DARK_RED => "#190000"
  | LIGHT_ORANGE => "#FFBD6C" | ORANGE => "#FF5400"
  | DARK_ORANGE => "#591D00" | BROWN => "#271B00"
  | LIGHT_YELLOW => "#FFFF4C" | YELLOW => "#FFFF00"
  | DARK_YELLOW => "#595900" | VERY_DARK_YELLOW => "#191900"
  | LIGHT_LIME => "#88FF4C" | LIME => "#54FF00" | DARK_LIME => "#1D5900"
  | VERY_DARK_LIME => "#142B00"
  | LIGHT_GREEN => "#4CFF4C" | GREEN => "#00FF00" | DARK_GREEN => "#005900"
  | VERY_DARK_GREEN => "#001900"
  | LIGHT_BLUE => "#4C4CFF" | BLUE => "#0000FF" | DARK_BLUE => "#000059"
  | VERY_DARK_BLUE => "#000019"
  end.

(** [PadColor(v)]: the member with value [v], if any. *)
Definition PadColor_of_value (v : Z) : option PadColor :=
  find (fun c => Z.eqb (PadColor_value c) v) PadColor_members.

(** [PadColor[name]]: the member called [name]; Python raises [KeyError]
    when there is none. *)
Definition PadColor_getitem (name : string) : option PadColor :=
  find (fun c => String.eqb (PadColor_name c) name) PadColor_members.

(** The dictionary literal of [get_hex_color]. *)
Definition color_map : gmap Z string :=
  list_to_map
    [ (0, "#000000"); (1, "#1E1E1E"); (2, "#7F7F7F"); (3, "#FFFFFF");
      (4, "#FF4C4C"); (5, "#FF0000"); (6, "#590000"); (7, "#190000");
      (8, "#FFBD6C"); (9, "#FF5400"); (10, "#591D00"); (11, "#271B00");
      (12, "#FFFF4C"); (13, "#FFFF00"); (14, "#595900"); (15, "#191900");
      (16, "#88FF4C"); (17, "#54FF00"); (18, "#1D5900"); (19, "#142B00");
      (20, "#4CFF4C"); (21, "#00FF00"); (22, "#005900"); (23, "#001900");
      (44, "#4C4CFF"); (45, "#0000FF"); (46, "#000059"); (47, "#000019")
    ]%string.

(** [PadColor.get_hex_color]: [color_map.get(color_value, "#000000")]. *)
Definition get_hex_color (color_value : Z) : string :=
  default "#000000"%string (color_map !! color_value).

(** ** [ButtonBehavior], [ButtonType], [LedState] *)

Inductive ButtonBehavior : Type := SOLID | BLINK | PULSE.

Inductive ButtonType : Type :=
| TRACK_1 | TRACK_2 | TRACK_3 | TRACK_4
| TRACK_5 | TRACK_6 | TRACK_7 | TRACK_8
| SCENE_1 | SCENE_2 | SCENE_3 | SCENE_4
| SCENE_5 | SCENE_6 | SCENE_7 | SCENE_8.

(** [button.value]: 0x64..0x6B for the track buttons, 0x70..0x77 for the
    scene launch buttons. *)
Definition ButtonType_value (b : ButtonType) : Z :=
  match b with
  | TRACK_1 => 100 | TRACK_2 => 101 | TRACK_3 => 102 | TRACK_4 => 103
  | TRACK_5 => 104 | TRACK_6 => 105 | TRACK_7 => 106 | TRACK_8 => 107
  | SCENE_1 => 112 | SCENE_2 => 113 | SCENE_3 => 114 | SCENE_4 => 115
  | SCENE_5 => 116 | SCENE_6 => 117 | SCENE_7 => 118 | SCENE_8 => 119
  end.

(** The members in definition order, as [for button in ButtonType] visits
    them. *)
Definition ButtonType_members : list ButtonType :=
  [ TRACK_1; TRACK_2; TRACK_3; TRACK_4; TRACK_5; TRACK_6; TRACK_7; TRACK_8;
    SCENE_1; SCENE_2; SCENE_3; SCENE_4; SCENE_5; SCENE_6; SCENE_7; SCENE_8 ].

(** [ButtonType(note)]; Python raises [ValueError] when no member has that
    value. *)
Definition ButtonType_of_value (v : Z) : option ButtonType :=
  find (fun b => Z.eqb (ButtonType_value b) v) ButtonType_members.

(** The dataclass [LedState]; [behavior] and [is_on] have defaults. *)
Record LedState : Type := mkLedState {
  color : PadColor;
  behavior : ButtonBehavior;
  is_on : bool
}.

(** [LedState(color=color)] *)
Definition LedState_of (c : PadColor) : LedState :=
  {| color := c; behavior := SOLID; is_on := true |}.

(** ** MIDI messages *)

Inductive MsgType : Type := note_on | note_off | control_change.

Record Message : Type := mkMessage {
  msg_type : MsgType;
  msg_note : Z;
  msg_velocity : Z;
  msg_channel : Z
}.

Definition in_range (lo x hi : Z) : bool := (lo <=? x) && (x <=? hi).

(** [mido.Message(type, note=, velocity=, channel=)].  The mido library
    checks its arguments when a message is built: a channel outside 0..15
    or a data byte outside 0..127 is a [ValueError]. *)
Definition mido_Message (t : MsgType) (note velocity channel : Z)
  : outcome Message :=
  if negb (in_range 0 channel 15) then
    Raise (ValueError "channel must be in range 0..15")
  else if negb (in_range 0 note 127 && in_range 0 velocity 127) then
    Raise (ValueError "data byte must be in range 0..127")
  else
    Return {| msg_type := t; msg_note := note;
              msg_velocity := velocity; msg_channel := channel |}.

(** ** [LedController] *)

(** An output port that is open is the list of the messages sent through it
    so far, oldest first.  The input port is open or not; the messages it
    yields are an argument of the reader below.  [cleanup] puts [None] in
    the three attributes.  The list of callbacks is an argument of the
    reader as well, and the animation thread belongs to the [Animator]
    further down. *)
Record LedController : Type := mkLedController {
  input_port : option (list Message);
  output_port : option (list Message);
  loopback_port : option (list Message);
  led_states : gmap Z LedState;
  running : bool;
  channel : Z;
  animation_running : bool
}.

Definition set_led_states (f : gmap Z LedState -> gmap Z LedState)
  (c : LedController) : LedController :=
  {| input_port := input_port c; output_port := output_port c;
     loopback_port := loopback_port c; led_states := f (led_states c);
     running := running c; channel := channel c;
     animation_running := animation_running c |}.

Definition set_output_port (p : option (list Message))
  (c : LedController) : LedController :=
  {| input_port := input_port c; output_port := p;
     loopback_port := loopback_port c; led_states := led_states c;
     running := running c; channel := channel c;
     animation_running := animation_running c |}.

(** The state [__init__] leaves when the ports open; the loopback port is
    opened only when a name is given. *)
Definition LedController_init (loopback : bool) : LedController :=
  {| input_port := Some []; output_port := Some [];
     loopback_port := if loopback then Some [] else None;
     led_states := ∅; running := true; channel := 9;
     animation_running := false |}.

(** [self.output_port.send(mido.Message(...))]: the attribute [send] is
    looked up first (an [AttributeError] when the port is [None]), then the
    message is built, then it is sent. *)
Definition output_port_send (m : outcome Message) : M LedController unit :=
  fun c =>
    match output_port c with
    | None =>
        (c, Raise (AttributeError "'NoneType' object has no attribute 'send'"))
    | Some sent =>
        match m with
        | Raise e => (c, Raise e)
        | Return msg => (set_output_port (Some (sent ++ [msg])) c, Return tt)
        end
    end.

(** [LedController.set_pad_color].  The body has no [return], so the call
    evaluates to Python's [None]; the result type is the one of a
    state-store entry so that the two can be compared. *)
Definition set_pad_color (note : Z) (color : PadColor) (channel : Z)
  : M LedController (option LedState) :=
  if negb (in_range 0 channel 15) then
    raise (ValueError "Kanal muss zwischen 0 und 15 liegen")
  else
    modify (set_led_states (fun st => <[note := LedState_of color]> st)) ;;;
    output_port_send
      (mido_Message note_on note (PadColor_value color) channel) ;;;
    ret None.

(** The default of the [channel] parameter. *)
Definition default_channel : Z := 6.

(** [LedController.set_button_color] *)
Definition set_button_color (button : ButtonType) (velocity : Z)
  : M LedController unit :=
  output_port_send (mido_Message note_on (ButtonType_value button) velocity 0).

(** [LedController.clear_all]; [False] as a velocity is the integer 0. *)
Definition clear_all : M LedController unit :=
  for_each (range 64)
    (fun note => set_pad_color note OFF default_channel ;;; ret tt) ;;;
  for_each ButtonType_members
    (fun button => set_button_color button (Z.b2z false)).

(** [LedController.set_all_pads] *)
Definition set_all_pads (color : PadColor) : M LedController unit :=
  for_each (range 64)
    (fun note => set_pad_color note color default_channel ;;; ret tt).

(** [LedController.cleanup] *)
Definition cleanup (c : LedController) : LedController :=
  {| input_port := None; output_port := None; loopback_port := None;
     led_states := led_states c; running := false; channel := channel c;
     animation_running := animation_running c |}.

(** [LedController._get_note] *)
Definition _get_note (row col : Z) : Z := row * 8 + col.

(** [LedController._get_row_col]; Python's [//] and [%] with a positive
    divisor are floor division and its remainder, as [Z.div] and
    [Z.modulo]. *)
Definition _get_row_col (note : Z) : Z * Z :=
  let col := note mod 8 in
  let row := note / 8 in
  (row, col).

(** ** The dashboard: widgets *)

(** A [QComboBox]: its items and the index of the current one. *)
Record QComboBox : Type := mkQComboBox {
  items : list string;
  currentIndex : Z
}.

(** [combo.currentText()]; the empty string when there is no current item. *)
Definition currentText (cb : QComboBox) : string :=
  if currentIndex cb <? 0 then ""%string
  else nth (Z.to_nat (currentIndex cb)) (items cb) ""%string.

(** [sub in s] on strings *)
Definition str_in (sub s : string) : bool :=
  match String.index 0 sub s with
  | Some _ => true
  | None => false
  end.

(** [s.startswith(p)] *)
Definition startswith (s p : string) : bool := String.prefix p s.

(** [0x64 <= note <= 0x6B or 0x70 <= note <= 0x77] *)
Definition is_track_or_scene (note : Z) : bool :=
  in_range 100 note 107 || in_range 112 note 119.

(** [LedButton]: the attributes set by [__init__], the two brightness
    attributes that exist only once [on_button_click] has configured the
    button, the colours of its style sheet (background, border), and the Qt
    properties [on_button_click] stores. *)
Record LedButton : Type := mkLedButton {
  note : Z;
  is_rgb : bool;
  press_behavior_enabled : bool;
  button_mode : string;
  pressed_animation : string;
  unpressed_animation : string;
  pressed_color : string;
  unpressed_color : string;
  pressed_brightness : option Z;
  unpressed_brightness : option Z;
  style : string * string;
  current_color : option string;
  current_animation : option string;
  prop_is_on : option bool
}.

Definition set_style (st : string * string) (b : LedButton) : LedButton :=
  {| note := note b; is_rgb := is_rgb b;
     press_behavior_enabled := press_behavior_enabled b;
     button_mode := button_mode b;
     pressed_animation := pressed_animation b;
     unpressed_animation := unpressed_animation b;
     pressed_color := pressed_color b; unpressed_color := unpressed_color b;
     pressed_brightness := pressed_brightness b;
     unpressed_brightness := unpressed_brightness b;
     style := st;
     current_color := current_color b;
     current_animation := current_animation b; prop_is_on := prop_is_on b |}.

(** [LedButton.setColor]; every [PadColor] member is truthy, so
    [self.is_rgb and color] asks for an RGB pad and a colour that is not
    [None]. *)
Definition setColor (color : option PadColor) (b : LedButton) : LedButton :=
  match is_rgb b, color with
  | true, Some c =>
      set_style (get_hex_color (PadColor_value c), "#666666"%string) b
  | _, _ =>
      if in_range 100 (note b) 107 then
        set_style ("#333333"%string, "#FF0000"%string) b
      else if in_range 112 (note b) 119 then
        set_style ("#333333"%string, "#00FF00"%string) b
      else
        set_style ("#333333"%string, "#666666"%string) b
  end.

(** [LedButton.set_button_color]; a button that is neither RGB nor in one of
    the two note ranges is left as it is here (Python would find
    [hex_color] unbound; the dashboard creates no such button). *)
Definition LedButton_set_button_color (is_on : bool) (b : LedButton)
  : LedButton :=
  if negb (is_rgb b) then
    if in_range 100 (note b) 107 then
      set_style ((if is_on then "#FF0000" else "#333333")%string,
                 "#FF0000"%string) b
    else if in_range 112 (note b) 119 then
      set_style ((if is_on then "#00FF00" else "#333333")%string,
                 "#00FF00"%string) b
    else b
  else b.

(** [LedButton(note, is_rgb)] *)
Definition LedButton_init (n : Z) (rgb : bool) : LedButton :=
  setColor (if rgb then Some OFF else None)
    {| note := n; is_rgb := rgb;
       press_behavior_enabled := false;
       button_mode := "Toggle";
       pressed_animation := "Statisch";
       unpressed_animation := "Statisch";
       pressed_color := "RED"; unpressed_color := "OFF";
       pressed_brightness := None; unpressed_brightness := None;
       style := (""%string, ""%string);
       current_color := None; current_animation := None;
       prop_is_on := None |}.

(** ** The dashboard: state *)

Record Dashboard : Type := mkDashboard {
  controller : option LedController;
  buttons : gmap Z LedButton;
  toggle_states : gmap Z bool;
  enable_press_behavior : bool;
  color_combo : QComboBox;
  brightness_combo : QComboBox;
  animation_combo : QComboBox;
  button_mode_combo : QComboBox;
  unpressed_color_combo : QComboBox;
  unpressed_brightness_combo : QComboBox;
  unpressed_animation_combo : QComboBox;
  pressed_color_combo : QComboBox;
  pressed_brightness_combo : QComboBox;
  pressed_animation_combo : QComboBox
}.

Definition set_controller (c : option LedController) (d : Dashboard)
  : Dashboard :=
  {| controller := c; buttons := buttons d;
     toggle_states := toggle_states d;
     enable_press_behavior := enable_press_behavior d;
     color_combo := color_combo d; brightness_combo := brightness_combo d;
     animation_combo := animation_combo d;
     button_mode_combo := button_mode_combo d;
     unpressed_color_combo := unpressed_color_combo d;
     unpressed_brightness_combo := unpressed_brightness_combo d;
     unpressed_animation_combo := unpressed_animation_combo d;
     pressed_color_combo := pressed_color_combo d;
     pressed_brightness_combo := pressed_brightness_combo d;
     pressed_animation_combo := pressed_animation_combo d |}.

Definition set_buttons (f : gmap Z LedButton -> gmap Z LedButton)
  (d : Dashboard) : Dashboard :=
  {| controller := controller d; buttons := f (buttons d);
     toggle_states := toggle_states d;
     enable_press_behavior := enable_press_behavior d;
     color_combo := color_combo d; brightness_combo := brightness_combo d;
     animation_combo := animation_combo d;
     button_mode_combo := button_mode_combo d;
     unpressed_color_combo := unpressed_color_combo d;
     unpressed_brightness_combo := unpressed_brightness_combo d;
     unpressed_animation_combo := unpressed_animation_combo d;
     pressed_color_combo := pressed_color_combo d;
     pressed_brightness_combo := pressed_brightness_combo d;
     pressed_animation_combo := pressed_animation_combo d |}.

Definition set_toggle_states (f : gmap Z bool -> gmap Z bool)
  (d : Dashboard) : Dashboard :=
  {| controller := controller d; buttons := buttons d;
     toggle_states := f (toggle_states d);
     enable_press_behavior := enable_press_behavior d;
     color_combo := color_combo d; brightness_combo := brightness_combo d;
     animation_combo := animation_combo d;
     button_mode_combo := button_mode_combo d;
     unpressed_color_combo := unpressed_color_combo d;
     unpressed_brightness_combo := unpressed_brightness_combo d;
     unpressed_animation_combo := unpressed_animation_combo d;
     pressed_color_combo := pressed_color_combo d;
     pressed_brightness_combo := pressed_brightness_combo d;
     pressed_animation_combo := pressed_animation_combo d |}.

Definition set_enable_press_behavior (checked : bool) (d : Dashboard)
  : Dashboard :=
  {| controller := controller d; buttons := buttons d;
     toggle_states := toggle_states d;
     enable_press_behavior := checked;
     color_combo := color_combo d; brightness_combo := brightness_combo d;
     animation_combo := animation_combo d;
     button_mode_combo := button_mode_combo d;
     unpressed_color_combo := unpressed_color_combo d;
     unpressed_brightness_combo := unpressed_brightness_combo d;
     unpressed_animation_combo := unpressed_animation_combo d;
     pressed_color_combo := pressed_color_combo d;
     pressed_brightness_combo := pressed_brightness_combo d;
     pressed_animation_combo := pressed_animation_combo d |}.

(** [self.controller.method(...)]: the method runs on the controller the
    dashboard holds; there is none to run it on when the attribute is
    [None]. *)
Definition on_controller {A} (m : M LedController A) : M Dashboard A :=
  fun d =>
    match controller d with
    | None =>
        (d, Raise (AttributeError "'NoneType' object has no attribute"))
    | Some c =>
        let '(c', r) := m c in (set_controller (Some c') d, r)
    end.

(** [PadColor[name]] as a step that raises [KeyError] *)
Definition PadColor_by_name {S} (name : string) : M S PadColor :=
  match PadColor_getitem name with
  | Some c => ret c
  | None => raise (KeyError name)
  end.

(** [ButtonType(note)] as a step that raises [ValueError] *)
Definition ButtonType_by_value {S} (v : Z) : M S ButtonType :=
  match ButtonType_of_value v with
  | Some b => ret b
  | None => raise (ValueError "is not a valid ButtonType")
  end.

(** [self.buttons[note].setColor(color)] *)
Definition button_setColor (n : Z) (c : PadColor) : M Dashboard unit :=
  modify (set_buttons (fun bs => alter (setColor (Some c)) n bs)).

(** [Dashboard.get_animation_channel] *)
Definition animations : gmap string Z :=
  list_to_map
    [ ("Pulsieren 1/16"%string, 7); ("Pulsieren 1/8"%string, 8);
      ("Pulsieren 1/4"%string, 9); ("Pulsieren 1/2"%string, 10);
      ("Blinken 1/24"%string, 11); ("Blinken 1/16"%string, 12);
      ("Blinken 1/8"%string, 13); ("Blinken 1/4"%string, 14);
      ("Blinken 1/2"%string, 15) ].

Definition get_animation_channel (animation_text : string) : Z :=
  if String.eqb animation_text "Statisch" then 6
  else default 6 (animations !! animation_text).

(** [2 if "Blinken" in animation else 1] *)
Definition blink_velocity (animation : string) : Z :=
  let is_blinking := str_in "Blinken" animation in
  if is_blinking then 2 else 1.

(** [self.toggle_states[note] = not self.toggle_states.get(note, False)],
    giving back the new bit *)
Definition flip_toggle (n : Z) : M Dashboard bool :=
  fun d =>
    let bit := negb (default false (toggle_states d !! n)) in
    (set_toggle_states (fun ts => <[n := bit]> ts) d, Return bit).

(** ** The dashboard: [on_button_click], [on_clear_all],
       [handle_midi_input] *)

(** [self.controller.set_button_color(ButtonType(note), velocity)] *)
Definition controller_set_button_color (n velocity : Z) : M Dashboard unit :=
  fun d =>
    match controller d with
    | None =>
        (d, Raise (AttributeError "'NoneType' object has no attribute"))
    | Some _ =>
        (let* button := ButtonType_by_value n in
         on_controller (set_button_color button velocity)) d
    end.

(** [self.controller.set_pad_color(note, color, channel=channel)] and then
    [self.buttons[note].setColor(color)] *)
Definition paint_pad (n : Z) (c : PadColor) (channel : Z) : M Dashboard unit :=
  on_controller (set_pad_color n c channel) ;;;
  button_setColor n c.

(** [button.set_button_color(note, is_on)] on the button stored for [n] *)
Definition button_set_button_color (n : Z) (is_on : bool) : M Dashboard unit :=
  modify (set_buttons (fun bs => alter (LedButton_set_button_color is_on) n bs)).

(** Reading an attribute that exists only after it was assigned. *)
Definition attribute {S A} (name : string) (a : option A) : M S A :=
  match a with
  | Some x => ret x
  | None => raise (AttributeError name)
  end.

(** The assignments of [on_button_click] that copy the press-behaviour
    selection of the dashboard into the button. *)
Definition configure (d : Dashboard) (b : LedButton) : LedButton :=
  {| note := note b; is_rgb := is_rgb b;
     press_behavior_enabled := true;
     button_mode := currentText (button_mode_combo d);
     pressed_animation := currentText (pressed_animation_combo d);
     unpressed_animation := currentText (unpressed_animation_combo d);
     pressed_color := currentText (pressed_color_combo d);
     unpressed_color := currentText (unpressed_color_combo d);
     pressed_brightness := Some (currentIndex (pressed_brightness_combo d));
     unpressed_brightness :=
       Some (currentIndex (unpressed_brightness_combo d));
     style := style b;
     current_color := current_color b;
     current_animation := current_animation b; prop_is_on := prop_is_on b |}.

(** The three [setProperty] calls at the end of [on_button_click]. *)
Definition store_properties (c a : string) (on : bool) (b : LedButton)
  : LedButton :=
  {| note := note b; is_rgb := is_rgb b;
     press_behavior_enabled := press_behavior_enabled b;
     button_mode := button_mode b;
     pressed_animation := pressed_animation b;
     unpressed_animation := unpressed_animation b;
     pressed_color := pressed_color b; unpressed_color := unpressed_color b;
     pressed_brightness := pressed_brightness b;
     unpressed_brightness := unpressed_brightness b;
     style := style b;
     current_color := Some c; current_animation := Some a;
     prop_is_on := Some on |}.

(** The initial state a freshly configured control is put in: always the
    not-pressed one.  The same statements stand in the Toggle and in the
    Flash branch. *)
Definition show_initial (n : Z) (button : LedButton) : M Dashboard unit :=
  if negb (is_track_or_scene n) then
    let* color := PadColor_by_name (unpressed_color button) in
    let* channel :=
      if String.eqb (unpressed_animation button) "Statisch" then
        attribute "unpressed_brightness" (unpressed_brightness button)
      else ret (get_animation_channel (unpressed_animation button)) in
    paint_pad n color channel
  else
    let velocity := 0 in
    controller_set_button_color n velocity.

(** [Dashboard.on_button_click] *)
Definition on_button_click (n : Z) : M Dashboard unit :=
  fun d =>
    match controller d with
    | None => (d, Return tt)
    | Some _ =>
        match buttons d !! n with
        | None => (d, Raise (KeyError "note"))
        | Some button0 =>
            if enable_press_behavior d then
              let button := configure d button0 in
              (modify (set_buttons (fun bs => <[n := button]> bs)) ;;;
               modify (set_enable_press_behavior false) ;;;
               if String.eqb (button_mode button) "Toggle" then
                 show_initial n button ;;;
                 modify (set_toggle_states (fun ts => <[n := false]> ts))
               else
                 show_initial n button) d
            else
              let button := button0 in
              (if is_track_or_scene n then
                 if press_behavior_enabled button then
                   if String.eqb (button_mode button) "Toggle" then
                     let* bit := flip_toggle n in
                     let velocity :=
                       if bit then blink_velocity (pressed_animation button)
                       else 0 in
                     controller_set_button_color n velocity ;;;
                     button_set_button_color n (0 <? velocity)
                   else
                     let velocity :=
                       blink_velocity (pressed_animation button) in
                     controller_set_button_color n velocity ;;;
                     button_set_button_color n true
                 else
                   let velocity :=
                     if String.eqb (currentText (color_combo d)) "OFF" then 0
                     else blink_velocity (currentText (animation_combo d)) in
                   controller_set_button_color n velocity ;;;
                   button_set_button_color n (0 <? velocity)
               else
                 if press_behavior_enabled button then
                   if String.eqb (button_mode button) "Toggle" then
                     let* bit := flip_toggle n in
                     let* color :=
                       PadColor_by_name
                         (if bit then pressed_color button
                          else unpressed_color button) in
                     let channel :=
                       get_animation_channel
                         (if bit then pressed_animation button
                          else unpressed_animation button) in
                     paint_pad n color channel
                   else
                     let* color := PadColor_by_name (pressed_color button) in
                     let channel :=
                       get_animation_channel (pressed_animation button) in
                     paint_pad n color channel
                 else
                   let* color :=
                     PadColor_by_name (currentText (color_combo d)) in
                   let channel :=
                     if startswith (currentText (animation_combo d))
                          "Statisch"
                     then currentIndex (brightness_combo d)
                     else 7 + currentIndex (animation_combo d) - 1 in
                   paint_pad n color channel ;;;
                   modify (set_buttons (fun bs =>
                     alter (store_properties
                              (currentText (color_combo d))
                              (currentText (animation_combo d))
                              (negb (bool_decide (color = OFF)))) n bs))) d
        end
    end.

(** [Dashboard.on_clear_all] *)
Definition on_clear_all : M Dashboard unit :=
  fun d =>
    match controller d with
    | None => (d, Return tt)
    | Some _ =>
        (on_controller clear_all ;;;
         modify (set_buttons (fun bs => setColor (Some OFF) <$> bs))) d
    end.

(** [Dashboard.handle_midi_input] *)
Definition handle_midi_input (msg : Message) : M Dashboard unit :=
  fun d =>
    match msg_type msg with
    | control_change => (d, Return tt)
    | t =>
        let n := msg_note msg in
        match buttons d !! n with
        | None => (d, Return tt)
        | Some button =>
            (if is_track_or_scene n then
               if press_behavior_enabled button then
                 if String.eqb (button_mode button) "Toggle" then
                   match t with
                   | note_on =>
                       let* bit := flip_toggle n in
                       let velocity :=
                         if bit
                         then blink_velocity (pressed_animation button)
                         else 0 in
                       controller_set_button_color n velocity
                   | _ => ret tt
                   end
                 else
                   let velocity :=
                     match t with
                     | note_on => blink_velocity (pressed_animation button)
                     | _ => 0
                     end in
                   controller_set_button_color n velocity
               else ret tt
             else
               if press_behavior_enabled button then
                 if String.eqb (button_mode button) "Toggle" then
                   match t with
                   | note_on =>
                       let* bit := flip_toggle n in
                       let* color :=
                         PadColor_by_name
                           (if bit then pressed_color button
                            else unpressed_color button) in
                       let channel :=
                         get_animation_channel
                           (if bit then pressed_animation button
                            else unpressed_animation button) in
                       paint_pad n color channel
                   | _ => ret tt
                   end
                 else
                   let pressed :=
                     match t with note_on => true | _ => false end in
                   let* color :=
                     PadColor_by_name
                       (if pressed then pressed_color button
                        else unpressed_color button) in
                   let channel :=
                     get_animation_channel
                       (if pressed then pressed_animation button
                        else unpressed_animation button) in
                   paint_pad n color channel
               else ret tt) d
        end
    end.

(** [Dashboard.setup_ui]: the 64 pads, the 8 scene launch buttons and the 8
    track buttons, keyed by note. *)
Definition initial_buttons : gmap Z LedButton :=
  list_to_map
    (map (fun n => (n, LedButton_init n true)) (range 64)
     ++ map (fun i => (112 + i, LedButton_init (112 + i) false)) (range 8)
     ++ map (fun i => (100 + i, LedButton_init (100 + i) false)) (range 8)).

Definition brightness_options : list string :=
  [ "10% (Kanal 0)"; "25% (Kanal 1)"; "50% (Kanal 2)"; "65% (Kanal 3)";
    "75% (Kanal 4)"; "90% (Kanal 5)"; "100% (Kanal 6)" ]%string.

Definition animation_options : list string :=
  [ "Statisch";
    "Pulsieren 1/16 (Kanal 7)"; "Pulsieren 1/8 (Kanal 8)";
    "Pulsieren 1/4 (Kanal 9)"; "Pulsieren 1/2 (Kanal 10)";
    "Blinken 1/24 (Kanal 11)"; "Blinken 1/16 (Kanal 12)";
    "Blinken 1/8 (Kanal 13)"; "Blinken 1/4 (Kanal 14)";
    "Blinken 1/2 (Kanal 15)" ]%string.

Definition press_brightness_options : list string :=
  [ "10%"; "25%"; "50%"; "65%"; "75%"; "90%"; "100%" ]%string.

Definition press_animation_options : list string :=
  [ "Statisch";
    "Pulsieren 1/16"; "Pulsieren 1/8"; "Pulsieren 1/4"; "Pulsieren 1/2";
    "Blinken 1/24"; "Blinken 1/16"; "Blinken 1/8"; "Blinken 1/4";
    "Blinken 1/2" ]%string.

Definition color_names : list string := map PadColor_name PadColor_members.

(** The dashboard once [setup_ui] has run and [connect_devices] has opened a
    controller; every combo box shows its first item, but for the brightness
    boxes, which are put on 100%. *)
Definition Dashboard_init (loopback : bool) : Dashboard :=
  {| controller := Some (LedController_init loopback);
     buttons := initial_buttons;
     toggle_states := ∅;
     enable_press_behavior := false;
     color_combo := mkQComboBox color_names 0;
     brightness_combo := mkQComboBox brightness_options 6;
     animation_combo := mkQComboBox animation_options 0;
     button_mode_combo := mkQComboBox ["Flash"; "Toggle"]%string 0;
     unpressed_color_combo := mkQComboBox color_names 0;
     unpressed_brightness_combo := mkQComboBox press_brightness_options 6;
     unpressed_animation_combo := mkQComboBox press_animation_options 0;
     pressed_color_combo := mkQComboBox color_names 0;
     pressed_brightness_combo := mkQComboBox press_brightness_options 6;
     pressed_animation_combo := mkQComboBox press_animation_options 0 |}.

(** The user's selection in the press-behaviour group: mode, then colour,
    brightness and animation of the not-pressed and of the pressed state
    (indices into the combo boxes), with the "select a button" push button
    checked. *)
Definition select_press_behavior
  (mode uc ub ua pc pb pa : Z) (d : Dashboard) : Dashboard :=
  {| controller := controller d; buttons := buttons d;
     toggle_states := toggle_states d;
     enable_press_behavior := true;
     color_combo := color_combo d; brightness_combo := brightness_combo d;
     animation_combo := animation_combo d;
     button_mode_combo := mkQComboBox (items (button_mode_combo d)) mode;
     unpressed_color_combo :=
       mkQComboBox (items (unpressed_color_combo d)) uc;
     unpressed_brightness_combo :=
       mkQComboBox (items (unpressed_brightness_combo d)) ub;
     unpressed_animation_combo :=
       mkQComboBox (items (unpressed_animation_combo d)) ua;
     pressed_color_combo := mkQComboBox (items (pressed_color_combo d)) pc;
     pressed_brightness_combo :=
       mkQComboBox (items (pressed_brightness_combo d)) pb;
     pressed_animation_combo :=
       mkQComboBox (items (pressed_animation_combo d)) pa |}.

(** The messages the dashboard's controller has sent to the device so far. *)
Definition sent_messages (d : Dashboard) : list Message :=
  match controller d with
  | Some c => default [] (output_port c)
  | None => []
  end.

(** The state store of the dashboard's controller. *)
Definition store (d : Dashboard) : gmap Z LedState :=
  match controller d with
  | Some c => led_states c
  | None => ∅
  end.

(** What a control shows on the device: velocity and channel of the last
    message sent for its note. *)
Definition displayed (n : Z) (d : Dashboard) : option (Z * Z) :=
  (fun m => (msg_velocity m, msg_channel m))
    <$> last (filter (fun m => msg_note m = n) (sent_messages d)).

Definition press (n : Z) : Message :=
  {| msg_type := note_on; msg_note := n; msg_velocity := 127;
     msg_channel := 0 |}.

Definition release (n : Z) : Message :=
  {| msg_type := note_off; msg_note := n; msg_velocity := 0;
     msg_channel := 0 |}.

(** ** The background reader *)

Section Reader.
(** Whatever the registered callbacks act on; they may raise.  They do not
    reach the reader's own attributes ([running], [loopback_port]), as the
    dashboard's [handle_midi_input] does not. *)
Context {W : Type}.

Definition callback : Type := Message -> M W unit.

(** [LedController.add_button_callback] *)
Definition add_button_callback (cb : callback)
  (button_callbacks : list callback) : list callback :=
  button_callbacks ++ [cb].

(** What the reader does, in the order it does it: a message forwarded to
    the loopback port, the [i]-th registered callback called with a
    message, the [print] of the exception handler. *)
Inductive event : Type :=
| Forwarded (msg : Message)
| Invoked (i : nat) (msg : Message)
| Logged (e : exn).

Definition set_loopback_port (p : option (list Message))
  (c : LedController) : LedController :=
  {| input_port := input_port c; output_port := output_port c;
     loopback_port := p; led_states := led_states c;
     running := running c; channel := channel c;
     animation_running := animation_running c |}.

(** [if self.loopback_port: self.loopback_port.send(msg)] *)
Definition forward (msg : Message) (c : LedController)
  : LedController * list event :=
  match loopback_port c with
  | Some sent =>
      (set_loopback_port (Some (sent ++ [msg])) c, [Forwarded msg])
  | None => (c, [])
  end.

(** [for callback in self.button_callbacks: callback(msg)], from the
    [i]-th callback on; an exception ends the loop. *)
Fixpoint run_callbacks (cbs : list callback) (i : nat) (msg : Message)
  (w : W) : W * list event * option exn :=
  match cbs with
  | [] => (w, [], None)
  | cb :: rest =>
      match cb msg w with
      | (w', Return _) =>
          let '(w'', evs, r) := run_callbacks rest (S i) msg w' in
          (w'', Invoked i msg :: evs, r)
      | (w', Raise e) => (w', [Invoked i msg], Some e)
      end
  end.

(** [LedController._handle_input] on the messages the input port yields.
    [at_head] says that control is at the head of [while self.running];
    otherwise it is inside [for msg in self.input_port].  An exception
    leaves the [for], is printed, and control is back at the head of the
    [while], from where iterating the port goes on with the next
    message. *)
Fixpoint reader_loop (button_callbacks : list callback) (at_head : bool)
  (inbound : list Message) (c : LedController) (w : W)
  : LedController * W * list event :=
  if at_head && negb (running c) then (c, w, [])
  else
    match inbound with
    | [] => (c, w, [])
    | msg :: rest =>
        let '(c1, ev1) := forward msg c in
        let '(w1, ev2, r) := run_callbacks button_callbacks 0 msg w in
        match r with
        | None =>
            let '(c2, w2, evs) :=
              reader_loop button_callbacks false rest c1 w1 in
            (c2, w2, ev1 ++ ev2 ++ evs)
        | Some e =>
            let '(c2, w2, evs) :=
              reader_loop button_callbacks true rest c1 w1 in
            (c2, w2, ev1 ++ ev2 ++ Logged e :: evs)
        end
    end.

Definition _handle_input (button_callbacks : list callback)
  (inbound : list Message) (c : LedController) (w : W)
  : LedController * W * list event :=
  reader_loop button_callbacks true inbound c w.

(** The events one message gives rise to when the first [k] callbacks are
    reached: all of them, or the last one of them raised [e]. *)
Definition block (loopback : bool) (msg : Message) (k : nat)
  (r : option exn) : list event :=
  (if loopback then [Forwarded msg] else [])
  ++ map (fun i => Invoked i msg) (seq 0 k)
  ++ match r with Some e => [Logged e] | None => [] end.

(** The callback raises on no message and in no state. *)
Definition never_raises (cb : callback) : Prop :=
  forall msg w, exists w', cb msg w = (w', Return tt).

(** A send to the loopback port can fail.  Whether it does is the
    environment's, as the inbound messages are: the port yields each
    message together with the exception that forwarding it raises, if
    any.  No send is tried when no loopback port is configured. *)
Definition forward_send (failure : option exn) (msg : Message)
  (c : LedController) : LedController * list event * option exn :=
  match loopback_port c with
  | Some sent =>
      match failure with
      | None =>
          (set_loopback_port (Some (sent ++ [msg])) c, [Forwarded msg], None)
      | Some e => (c, [], Some e)
      end
  | None => (c, [], None)
  end.

(** [LedController._handle_input] with such sends: an exception of the
    send leaves the [for] as one of a callback does, before any callback
    is called for the message. *)
Fixpoint reader_loop_send (button_callbacks : list callback)
  (at_head : bool) (inbound : list (Message * option exn))
  (c : LedController) (w : W) : LedController * W * list event :=
  if at_head && negb (running c) then (c, w, [])
  else
    match inbound with
    | [] => (c, w, [])
    | (msg, failure) :: rest =>
        match forward_send failure msg c with
        | (c1, ev1, Some e) =>
            let '(c2, w2, evs) :=
              reader_loop_send button_callbacks true rest c1 w in
            (c2, w2, ev1 ++ Logged e :: evs)
        | (c1, ev1, None) =>
            let '(w1, ev2, r) := run_callbacks button_callbacks 0 msg w in
            match r with
            | None =>
                let '(c2, w2, evs) :=
                  reader_loop_send button_callbacks false rest c1 w1 in
                (c2, w2, ev1 ++ ev2 ++ evs)
            | Some e =>
                let '(c2, w2, evs) :=
                  reader_loop_send button_callbacks true rest c1 w1 in
                (c2, w2, ev1 ++ ev2 ++ Logged e :: evs)
            end
        end
    end.

Definition _handle_input_send (button_callbacks : list callback)
  (inbound : list (Message * option exn)) (c : LedController) (w : W)
  : LedController * W * list event :=
  reader_loop_send button_callbacks true inbound c w.

(** The inbound messages whose forwarding does not fail. *)
Definition forwarded (inbound : list (Message * option exn))
  : list Message :=
  flat_map (fun m => match m.2 with None => [m.1] | Some _ => [] end)
    inbound.

(** What the claim says of the callbacks, for one message: they are called
    in the order of registration, each in the state the one before it
    left, all of them unless one raises; the first exception ends the
    calls.  [dispatched cbs i msg w w' evs r]: the callbacks [cbs], which
    are the registered ones from the [i]-th on, take [w] to [w'] with the
    events [evs]; [r] is the exception that ended the calls, if any. *)
Inductive dispatched
  : list callback -> nat -> Message -> W -> W -> list event -> option exn
    -> Prop :=
| dispatched_all (i : nat) (msg : Message) (w : W) :
    dispatched [] i msg w w [] None
| dispatched_returns (cb : callback) (rest : list callback) (i : nat)
    (msg : Message) (w w1 w' : W) (evs : list event) (r : option exn) :
    cb msg w = (w1, Return tt) ->
    dispatched rest (S i) msg w1 w' evs r ->
    dispatched (cb :: rest) i msg w w' (Invoked i msg :: evs) r
| dispatched_raises (cb : callback) (rest : list callback) (i : nat)
    (msg : Message) (w w1 : W) (e : exn) :
    cb msg w = (w1, Raise e) ->
    dispatched (cb :: rest) i msg w w1 [Invoked i msg] (Some e).

(** What the claim says of the reader, for the messages the port yields:
    each message is forwarded to the loopback port, when one is configured,
    before any callback is called for it; then the callbacks are
    dispatched; an exception, of the send or of a callback, ends the
    handling of the message and is printed, and the next message is
    handled in the state the callbacks left. *)
Inductive handled (cbs : list callback) (loopback : bool)
  : list (Message * option exn) -> W -> W -> list event -> Prop :=
| handled_nothing (w : W) : handled cbs loopback [] w w []
| handled_send_raises (msg : Message) (e : exn)
    (rest : list (Message * option exn)) (w w' : W) (evs : list event) :
    loopback = true ->
    handled cbs loopback rest w w' evs ->
    handled cbs loopback ((msg, Some e) :: rest) w w' (Logged e :: evs)
| handled_dispatched (msg : Message) (failure : option exn)
    (rest : list (Message * option exn)) (w w1 w' : W)
    (evs1 : list event) (r : option exn) (evs : list event) :
    (loopback = true -> failure = None) ->
    dispatched cbs 0 msg w w1 evs1 r ->
    handled cbs loopback rest w1 w' evs ->
    handled cbs loopback ((msg, failure) :: rest) w w'
      ((if loopback then [Forwarded msg] else [])
       ++ evs1
       ++ match r with Some e => [Logged e] | None => [] end
       ++ evs).
End Reader.

(** ** Definitions the statements below use *)

(** The message a pad write puts on the wire. *)
Definition pad_message (note : Z) (color : PadColor) (channel : Z) : Message :=
  {| msg_type := note_on; msg_note := note;
     msg_velocity := PadColor_value color; msg_channel := channel |}.

(** The message a button write puts on the wire. *)
Definition button_message (button : ButtonType) (velocity : Z) : Message :=
  {| msg_type := note_on; msg_note := ButtonType_value button;
     msg_velocity := velocity; msg_channel := 0 |}.

(** A controller whose store holds a red entry for pad 0. *)
Definition red_pad_controller : LedController :=
  fst (set_pad_color 0 RED 6 (LedController_init false)).

(** A dashboard on which pad 0 was configured as a Toggle control (red when
    not pressed, blue when pressed, both static at 100%) and then pressed
    once on the device: its toggle bit is set. *)
Definition toggled_dashboard : Dashboard :=
  fst (handle_midi_input (press 0)
         (fst (on_button_click 0
                 (select_press_behavior 1 5 6 0 25 6 0
                    (Dashboard_init false))))).

(** What is claimed of the state after [clear_all]: an OFF entry in the
    state store for each of the 64 pads and of the 16 buttons, and an empty
    toggle table. *)
Definition cleared (d : Dashboard) : Prop :=
  (forall n, 0 <= n <= 63 -> store d !! n = Some (LedState_of OFF))
  /\ (forall b, store d !! ButtonType_value b = Some (LedState_of OFF))
  /\ toggle_states d = ∅.



(** The velocity a press on a Toggle button writes once the toggle bit is
    [bit]. *)
Definition toggle_velocity (button : LedButton) (bit : bool) : Z :=
  if bit then (if str_in "Blinken" (pressed_animation button) then 2 else 1)
  else 0.

(** The selection "Toggle, red at 10% when not pressed, blue at 100% when
    pressed, both static" made for pad 0, and the states after the click
    that configures the pad and after two presses on the device. *)
Definition dim_red_selection : Dashboard :=
  select_press_behavior 1 5 0 0 25 6 0 (Dashboard_init false).

Definition dim_red_configured : Dashboard :=
  fst (on_button_click 0 dim_red_selection).

Definition dim_red_pressed_twice : Dashboard :=
  fst (handle_midi_input (press 0)
         (fst (handle_midi_input (press 0) dim_red_configured))).

(** The selection "Toggle, pressed animation Blinken 1/8" made for the
    first track button, and the state after the click that configures it. *)
Definition blinking_track_configured : Dashboard :=
  fst (on_button_click 100
         (select_press_behavior 1 0 6 0 5 6 7 (Dashboard_init false))).




(** Whether a loopback port is configured. *)
Definition has_loopback (c : LedController) : bool :=
  match loopback_port c with
  | Some _ => true
  | None => false
  end.

(** A callback that fails on every message. *)
Definition failing_callback : @callback Dashboard :=
  fun _ d => (d, Raise (ValueError "callback failed")).

(** ** Further operations of the controller *)

Definition set_channel (ch : Z) (c : LedController) : LedController :=
  {| input_port := input_port c; output_port := output_port c;
     loopback_port := loopback_port c; led_states := led_states c;
     running := running c; channel := ch;
     animation_running := animation_running c |}.

(** [LedController.switch_channel]; the [print] is left out. *)
Definition switch_channel (c : LedController) : LedController :=
  set_channel (if channel c =? 0 then 6 else 0) c.

(** How a call of [set_grid_pattern] ends: normally, with an exception of
    [set_pad_color], or with the [IndexError] of [pattern[row][col]]. *)
Inductive pattern_result : Type :=
| PatternDone
| PatternRaise (e : exn)
| PatternIndexError (row col : Z).

(** [pattern[row][col]] for indices that are not negative; [None] stands
    for the [IndexError]. *)
Definition pattern_at (pattern : list (list PadColor)) (row col : Z)
  : option PadColor :=
  match pattern !! Z.to_nat row with
  | Some r => r !! Z.to_nat col
  | None => None
  end.

(** The cells the two nested [for] loops of [set_grid_pattern] visit, in
    that order. *)
Definition grid_cells : list (Z * Z) :=
  flat_map (fun row => map (fun col => (row, col)) (range 8)) (range 8).

Fixpoint set_grid_cells (cells : list (Z * Z))
  (pattern : list (list PadColor)) (c : LedController)
  : LedController * pattern_result :=
  match cells with
  | [] => (c, PatternDone)
  | (row, col) :: rest =>
      let note := row * 8 + col in
      match pattern_at pattern row col with
      | None => (c, PatternIndexError row col)
      | Some color =>
          match set_pad_color note color default_channel c with
          | (c', Return _) => set_grid_cells rest pattern c'
          | (c', Raise e) => (c', PatternRaise e)
          end
      end
  end.

(** [LedController.set_grid_pattern] *)
Definition set_grid_pattern (pattern : list (list PadColor))
  (c : LedController) : LedController * pattern_result :=
  set_grid_cells grid_cells pattern c.

(** A sequence of calls [set_pad_color(note, color, channel)], one after
    the other, as the loops of the controller make them. *)
Definition write_all (ws : list (Z * PadColor * Z)) : M LedController unit :=
  for_each ws (fun '(n, c, ch) => set_pad_color n c ch ;;; ret tt).

(** A write that passes the channel check and fits the data bytes of a
    message. *)
Definition valid_write (w : Z * PadColor * Z) : Prop :=
  0 <= w.1.1 <= 127 /\ 0 <= w.2 <= 15.

(** The last write of a sequence that is for note [n]. *)
Definition last_write (n : Z) (ws : list (Z * PadColor * Z))
  : option (Z * PadColor * Z) :=
  last (filter (fun w => w.1.1 = n) ws).

(** The state store once the writes were made. *)
Definition store_after (ws : list (Z * PadColor * Z))
  (st : gmap Z LedState) : gmap Z LedState :=
  foldl (fun m w => <[w.1.1 := LedState_of w.1.2]> m) st ws.

(** The message of a write. *)
Definition write_message (w : Z * PadColor * Z) : Message :=
  pad_message w.1.1 w.1.2 w.2.

(** The last message on the output port that is for note [n]. *)
Definition last_sent (n : Z) (c : LedController) : option Message :=
  last (filter (fun m => msg_note m = n) (default [] (output_port c))).


(** The write [set_grid_pattern] makes for a cell whose colour the pattern
    gives. *)
Definition cell_write (pattern : list (list PadColor)) (rc : Z * Z)
  : Z * PadColor * Z :=
  (rc.1 * 8 + rc.2, default OFF (pattern_at pattern rc.1 rc.2),
   default_channel).

(** ** Further operations of the dashboard *)

(** [self.buttons[note].setColor(color)] where the dashboard has not looked
    the button up before: a [KeyError] when there is none. *)
Definition buttons_setColor (n : Z) (c : PadColor) : M Dashboard unit :=
  fun d =>
    match buttons d !! n with
    | None => (d, Raise (KeyError "note"))
    | Some _ => button_setColor n c d
    end.

(** [Dashboard.set_all_leds] *)
Definition set_all_leds (on : bool) : M Dashboard unit :=
  fun d =>
    match controller d with
    | None => (d, Return tt)
    | Some _ =>
        let color := if on then WHITE else OFF in
        let channel :=
          if startswith (currentText (animation_combo d)) "Statisch"
          then currentIndex (brightness_combo d)
          else 7 + currentIndex (animation_combo d) - 1 in
        for_each (range 64)
          (fun note =>
             on_controller (set_pad_color note color channel) ;;;
             buttons_setColor note color) d
    end.

(** The channel the global selection of the dashboard stands for. *)
Definition global_channel (d : Dashboard) : Z :=
  if startswith (currentText (animation_combo d)) "Statisch"
  then currentIndex (brightness_combo d)
  else 7 + currentIndex (animation_combo d) - 1.


(** ** Animation routines

    A routine is a loop [while self.animation_running: ...] whose flag
    another thread clears.  The body is modelled as a step on the
    controller; [k] frames are the body run [k] times, for [k] reads of the
    flag that found it set.  [time.sleep] has no part in the state and is
    left out; what the routine draws from [random] is an argument. *)

(** A pad is lit in the state store: it has an entry whose colour is not
    [OFF]. *)
Definition lit (st : gmap Z LedState) (n : Z) : Prop :=
  exists s, st !! n = Some s /\ color s <> OFF.

Global Instance lit_dec (st : gmap Z LedState) (n : Z) :
  Decision (lit st n).
Proof.
  unfold lit. destruct (st !! n) as [s |].
  - destruct (decide (color s = OFF)) as [E | E].
    + right. intros (s' & [= <-] & H). contradiction.
    + left. now exists s.
  - right. intros (s' & [=] & _).
Defined.

(** The body of the loop of [_chase_animation], with the colour the routine
    drew at its start; the result is the new [head_pos]. *)
Definition chase_frame (color : PadColor) (head_pos : Z)
  : M LedController Z :=
  let tail_length := 5 in
  for_each (range 5)
    (fun i =>
       let pos := (head_pos - i) mod 64 in
       if 0 <=? pos then
         let brightness := 6 - i in
         set_pad_color pos color (Z.max 1 brightness) ;;; ret tt
       else ret tt) ;;;
  let old_pos := (head_pos - tail_length) mod 64 in
  (if 0 <=? old_pos then set_pad_color old_pos OFF default_channel ;;; ret tt
   else ret tt) ;;;
  ret ((head_pos + 1) mod 64).

Fixpoint chase_frames (color : PadColor) (k : nat) (head_pos : Z)
  : M LedController Z :=
  match k with
  | O => ret head_pos
  | S k' =>
      let* h := chase_frame color head_pos in chase_frames color k' h
  end.

(** [LedController._chase_animation] for [k] frames; [head_pos] starts
    at 0. *)
Definition _chase_animation (color : PadColor) (k : nat)
  : M LedController Z :=
  chase_frames color k 0.

(** The writes of one frame of the chase. *)
Definition chase_writes (color : PadColor) (h : Z) : list (Z * PadColor * Z) :=
  map (fun i => ((h - i) mod 64, color, Z.max 1 (6 - i))) (range 5)
  ++ [((h - 5) mod 64, OFF, default_channel)].

(** The five pads from the head [h] back, around the ring of the 64 notes. *)
Definition trail (h n : Z) : Prop :=
  exists i, 0 <= i <= 4 /\ n = (h - i) mod 64.

Global Instance trail_dec (h n : Z) : Decision (trail h n).
Proof.
  refine (cast_if (decide (n = (h - 0) mod 64 \/ n = (h - 1) mod 64
                           \/ n = (h - 2) mod 64 \/ n = (h - 3) mod 64
                           \/ n = (h - 4) mod 64))).
  - abstract (unfold trail;
              destruct o as [-> | [-> | [-> | [-> | ->]]]];
              [exists 0 | exists 1 | exists 2 | exists 3 | exists 4];
              (split; [lia | reflexivity])).
  - abstract (unfold trail; intros (i & Hi & ->); apply n0;
              assert (i = 0 \/ i = 1 \/ i = 2 \/ i = 3 \/ i = 4) as
                  [-> | [-> | [-> | [-> | ->]]]] by lia;
              tauto).
Defined.

(** One pass of the second loop of [_sparkle_animation]:
    [if note in self.led_states: self.set_pad_color(note, PadColor.OFF)]. *)
Definition sparkle_fade_step (note : Z) : M LedController unit :=
  fun c =>
    if decide (is_Some (led_states c !! note))
    then (set_pad_color note OFF default_channel ;;; ret tt) c
    else (c, Return tt).

(** The body of the loop of [_sparkle_animation]; the three sparks are the
    notes and colours the frame draws. *)
Definition sparkle_frame (s1 s2 s3 : Z * PadColor) : M LedController unit :=
  for_each [s1; s2; s3] (fun s => set_pad_color s.1 s.2 6 ;;; ret tt) ;;;
  for_each (range 64) sparkle_fade_step.

(** The notes among [notes] that have an entry in the store. *)
Definition with_entry (st : gmap Z LedState) (notes : list Z) : list Z :=
  filter (fun n => is_Some (st !! n)) notes.

(** The local variables of [_snake_animation]. *)
Record Snake : Type := mkSnake {
  snake : list (Z * Z);
  direction : Z * Z
}.

(** What a pass of the loop of [_snake_animation] leaves: its local
    variables, or the [IndexError] of [snake[-1]] on an empty list. *)
Inductive snake_result : Type :=
| SnakeNext (s : Snake)
| SnakeIndexError.

(** [0 <= new_head[0] < 8 and 0 <= new_head[1] < 8] *)
Definition in_grid (p : Z * Z) : bool :=
  (0 <=? p.1) && (p.1 <? 8) && (0 <=? p.2) && (p.2 <? 8).

(** The chain of comparisons that gives the new direction at a wall. *)
Definition turned (d : Z * Z) : Z * Z :=
  if decide (d = (0, 1)) then (1, 0)
  else if decide (d = (1, 0)) then (0, -1)
  else if decide (d = (0, -1)) then (-1, 0)
  else (0, 1).

(** [snake.append(new_head)] and [if len(snake) > 5: snake.pop(0)] *)
Definition moved (sn : list (Z * Z)) (new_head : Z * Z) : list (Z * Z) :=
  let appended := sn ++ [new_head] in
  if (5 <? length appended)%nat then tail appended else appended.

(** The calls of the loop over [enumerate(snake)]. *)
Definition snake_writes (sn : list (Z * Z)) : list (Z * PadColor * Z) :=
  imap (fun i pos =>
          (pos.1 * 8 + pos.2,
           if decide (i = (length sn - 1)%nat) then RED else DARK_RED,
           default_channel)) sn.

(** The body of the loop of [_snake_animation]; at a wall the pass ends
    with [continue], before anything is drawn. *)
Definition snake_frame (s : Snake) : M LedController snake_result :=
  match last (snake s) with
  | None => ret SnakeIndexError
  | Some head =>
      let new_head :=
        (head.1 + (direction s).1, head.2 + (direction s).2) in
      if negb (in_grid new_head) then
        ret (SnakeNext {| snake := snake s;
                          direction := turned (direction s) |})
      else
        let snake' := moved (snake s) new_head in
        clear_all ;;;
        write_all (snake_writes snake') ;;;
        ret (SnakeNext {| snake := snake'; direction := direction s |})
  end.

Fixpoint snake_frames (k : nat) (s : Snake) : M LedController snake_result :=
  match k with
  | O => ret (SnakeNext s)
  | S k' =>
      let* r := snake_frame s in
      match r with
      | SnakeNext s' => snake_frames k' s'
      | SnakeIndexError => ret SnakeIndexError
      end
  end.

(** [LedController._snake_animation] for [k] passes of its loop. *)
Definition _snake_animation (k : nat) : M LedController snake_result :=
  snake_frames k {| snake := [(0, 0)]; direction := (0, 1) |}.

(** A cell of the outer ring of the grid. *)
Definition on_border (p : Z * Z) : Prop :=
  in_grid p = true /\ (p.1 = 0 \/ p.1 = 7 \/ p.2 = 0 \/ p.2 = 7).

(** The head is on the side of the grid along which the direction runs. *)
Definition heading (d head : Z * Z) : Prop :=
  (d = (0, 1) /\ head.1 = 0) \/ (d = (1, 0) /\ head.2 = 7)
  \/ (d = (0, -1) /\ head.1 = 7) \/ (d = (-1, 0) /\ head.2 = 0).

(** The snake has one to five cells, all on the outer ring, and runs along
    the side its head is on. *)
Definition on_track (s : Snake) : Prop :=
  exists head,
    last (snake s) = Some head
    /\ (length (snake s) <= 5)%nat
    /\ Forall on_border (snake s)
    /\ heading (direction s) head.

(** The cell the next pass tries. *)
Definition next_cell (s : Snake) : option (Z * Z) :=
  head ← last (snake s);
  Some (head.1 + (direction s).1, head.2 + (direction s).2).

(** What holds between the passes of the loop once the snake was drawn. *)
Definition snake_drawn (c : LedController) (s : Snake) : Prop :=
  on_track s
  /\ is_Some (output_port c)
  /\ (forall n, 0 <= n <= 63 ->
                lit (led_states c) n
                <-> exists p, p ∈ snake s /\ n = p.1 * 8 + p.2)
  /\ exists head, last (snake s) = Some head
                  /\ led_states c !! (head.1 * 8 + head.2)
                     = Some (LedState_of RED).

(** The body of the inner loop of [_rain_animation], for the pad at
    [(row, col)]; a [LedState] object is true in a condition. *)
Definition rain_cell (row col : Z) : M LedController unit :=
  fun c =>
    let current_note := _get_note row col in
    let next_note := _get_note (row - 1) col in
    match led_states c !! current_note with
    | Some state_current =>
        if decide (color state_current <> OFF) then
          (let channel := Z.max 1 (6 - (7 - row)) in
           set_pad_color next_note LIGHT_BLUE channel ;;;
           set_pad_color current_note OFF default_channel ;;;
           ret tt) c
        else (c, Return tt)
    | None => (c, Return tt)
    end.

(** The body of the loop of [_rain_animation]; the three columns are the
    ones the frame draws for its new drops. *)
Definition rain_frame (col1 col2 col3 : Z) : M LedController unit :=
  for_each [col1; col2; col3]
    (fun col =>
       set_pad_color (_get_note 7 col) LIGHT_BLUE default_channel ;;;
       ret tt) ;;;
  for_each [7; 6; 5; 4; 3; 2; 1]
    (fun row => for_each (range 8) (fun col => rain_cell row col)).

(** A computation that returns, extends the log of the open port and
    changes the state store by [F]. *)
Definition writes (m : M LedController unit)
  (F : gmap Z LedState -> gmap Z LedState) : Prop :=
  forall (c : LedController) (sent : list Message),
    output_port c = Some sent ->
    exists new,
      m c = (set_output_port (Some (sent ++ new)) (set_led_states F c),
             Return tt).

(** What [rain_cell] does to the state store. *)
Definition rain_cell_store (row col : Z) (st : gmap Z LedState)
  : gmap Z LedState :=
  match st !! _get_note row col with
  | Some state_current =>
      if decide (color state_current <> OFF) then
        <[_get_note row col := LedState_of OFF]>
          (<[_get_note (row - 1) col := LedState_of LIGHT_BLUE]> st)
      else st
  | None => st
  end.

Definition rain_row_store (row : Z) (st : gmap Z LedState)
  : gmap Z LedState :=
  foldl (fun m col => rain_cell_store row col m) st (range 8).

(** The store after the first [m] rows of the second loop, from row 7
    down. *)
Definition rain_rows_store (m : nat) (st : gmap Z LedState)
  : gmap Z LedState :=
  foldl (fun m row => rain_row_store row m) st
    (map (fun i => 7 - i) (range m)).




(** What a pass of the loop of [_equalizer_animation] leaves: the lists
    [levels] and [target_levels], or the [IndexError] of an index past
    the end of one of them. *)
Inductive equalizer_result : Type :=
| EqualizerNext (levels target_levels : list Z)
| EqualizerIndexError.

(** The first loop of a frame: [target_levels[i] = random.randint(0, 7)]
    for the columns [i] with [random.random() < 0.3].  What the frame
    draws is the argument [draws]: [Some t] where the test succeeded and
    the new target is [t]. *)
Fixpoint draw_targets (draws : nat -> option Z) (cols : list nat)
  (target_levels : list Z) : option (list Z) :=
  match cols with
  | [] => Some target_levels
  | i :: cols' =>
      match draws i with
      | Some t =>
          if decide (i < length target_levels)%nat
          then draw_targets draws cols' (<[i := t]> target_levels)
          else None
      | None => draw_targets draws cols' target_levels
      end
  end.

(** The value of [levels[col]] after the [if]/[elif] of the second loop. *)
Definition equalizer_level (level target : Z) : Z :=
  if level <? target then Z.min (level + 1) 7
  else if level >? target then Z.max (level - 1) 0
  else level.

Definition equalizer_color (row : Z) : PadColor :=
  if row <? 3 then GREEN else if row <? 5 then YELLOW else RED.

(** The body of the loop over the rows of a column. *)
Definition equalizer_cell (col level row : Z) : M LedController unit :=
  let note := _get_note row col in
  if row <=? level then
    set_pad_color note (equalizer_color row) 6 ;;; ret tt
  else set_pad_color note OFF default_channel ;;; ret tt.

(** The second loop of a frame, over the columns [cols]; the result is the
    list [levels], or [None] for an [IndexError]. *)
Fixpoint equalizer_columns (cols : list nat) (levels target_levels : list Z)
  : M LedController (option (list Z)) :=
  match cols with
  | [] => ret (Some levels)
  | col :: cols' =>
      match levels !! col, target_levels !! col with
      | Some level, Some target =>
          let level' := equalizer_level level target in
          for_each (range 8) (equalizer_cell (Z.of_nat col) level') ;;;
          equalizer_columns cols' (<[col := level']> levels) target_levels
      | _, _ => ret None
      end
  end.

(** The body of the loop of [_equalizer_animation]. *)
Definition equalizer_frame (draws : nat -> option Z)
  (levels target_levels : list Z) : M LedController equalizer_result :=
  match draw_targets draws (seq 0 8) target_levels with
  | None => ret EqualizerIndexError
  | Some target_levels' =>
      let* r := equalizer_columns (seq 0 8) levels target_levels' in
      match r with
      | Some levels' => ret (EqualizerNext levels' target_levels')
      | None => ret EqualizerIndexError
      end
  end.

(** The writes of the loop over the rows of a column. *)
Definition equalizer_writes (col level : Z) : list (Z * PadColor * Z) :=
  map (fun row =>
         (_get_note row col,
          if row <=? level then equalizer_color row else OFF, 6))
    (range 8).

(** The target of a column after the first loop. *)
Definition drawn_target (draws : nat -> option Z) (target_levels : list Z)
  (col : nat) : option Z :=
  match draws col with
  | Some t => Some t
  | None => target_levels !! col
  end.

(** ** Starting and stopping an animation

    [start_animation] and [stop_animation] run on the caller's thread, the
    routine on a thread of its own; the two meet in the flag
    [animation_running].  A thread is modelled by where it is: at the head
    of [while self.animation_running], inside a pass of the loop, or at
    its end.  The steps of the threads are interleaved with the calls by
    whoever schedules them.  What [join(timeout=1.0)] finds is the
    environment's: the time, in milliseconds, the thread still needs to
    come back to the head of its loop. *)

Module AnimationType.
Inductive t : Type :=
| RAINBOW | WAVE | RAIN | SNAKE | RIPPLE | RANDOM | SPIRAL | FIREWORK
| PULSE | COLOR_WIPE | ENERGY_FIELD | BOUNCE | SPARKLE | DNA | CHASE
| TETRIS | LASER | GALAXY | PIANO | EQUALIZER.
End AnimationType.

Definition set_animation_running (flag : bool) (c : LedController)
  : LedController :=
  {| input_port := input_port c; output_port := output_port c;
     loopback_port := loopback_port c; led_states := led_states c;
     running := running c; channel := channel c;
     animation_running := flag |}.

(** A step on the controller that does not assign [animation_running];
    no routine does. *)
Definition keeps_flag {A} (m : M LedController A) : Prop :=
  forall c, animation_running (fst (m c)) = animation_running c.

Inductive position : Type := AtHead | InPass | Ended.

(** The [time.sleep] calls of one pass of [_firework_animation], in
    milliseconds: 0.05 s in each of the 8 rows of the ascent, 0.05 s for
    each of the 5 rings, then 0.2 s and 0.3 s around [clear_all]. *)
Definition firework_sleeps : list Z :=
  replicate 8 50 ++ replicate 5 50 ++ [200; 300].

(** [join(timeout=1.0)], in milliseconds. *)
Definition join_timeout : Z := 1000.

Section Animation.
(** The local variables of a routine, the statements before its loop, and
    the body of the loop (a pass). *)
Context {L : Type}.
Variable setup : AnimationType.t -> L.
Variable pass : AnimationType.t -> L -> M LedController L.

Record Thread : Type := mkThread {
  routine : AnimationType.t;
  locals : L;
  at_position : position
}.

(** The controller, its attribute [animation_thread] (an index into the
    threads created so far), the threads, and the passes completed so far,
    each with the thread that made it. *)
Record Animator : Type := mkAnimator {
  self : LedController;
  animation_thread : option nat;
  threads : list Thread;
  passes : list (nat * AnimationType.t)
}.

(** [thread.is_alive()] *)
Definition is_alive (t : nat) (w : Animator) : bool :=
  match threads w !! t with
  | Some th =>
      match at_position th with
      | Ended => false
      | _ => true
      end
  | None => false
  end.

(** A step of thread [t].  At the head of the loop it reads the flag and
    enters a pass or leaves the loop; inside a pass it completes the pass,
    and is back at the head, or at its end if the pass raised. *)
Definition thread_step (t : nat) (w : Animator) : Animator :=
  match threads w !! t with
  | None => w
  | Some th =>
      match at_position th with
      | AtHead =>
          let p := if animation_running (self w) then InPass else Ended in
          {| self := self w; animation_thread := animation_thread w;
             threads := <[t := mkThread (routine th) (locals th) p]>
                          (threads w);
             passes := passes w |}
      | InPass =>
          let '(c', r) := pass (routine th) (locals th) (self w) in
          let th' :=
            match r with
            | Return l' => mkThread (routine th) l' AtHead
            | Raise _ => mkThread (routine th) (locals th) Ended
            end in
          {| self := c'; animation_thread := animation_thread w;
             threads := <[t := th']> (threads w);
             passes := passes w ++ [(t, routine th)] |}
      | Ended => w
      end
  end.

(** [LedController.stop_animation].  [remaining] is the time the thread
    still needs to come back to the head of its loop.  When that is within
    the timeout, [join] returns once the thread has completed its pass,
    read the flag and left; otherwise [join] returns after the timeout,
    and its result is not looked at. *)
Definition stop_animation (remaining : Z) (w : Animator) : Animator :=
  let w1 :=
    {| self := set_animation_running false (self w);
       animation_thread := animation_thread w;
       threads := threads w; passes := passes w |} in
  match animation_thread w1 with
  | Some t =>
      if remaining <=? join_timeout
      then thread_step t (thread_step t w1)
      else w1
  | None => w1
  end.

(** [LedController.start_animation]; the new thread starts at the head of
    the loop of its routine. *)
Definition start_animation (animation_type : AnimationType.t)
  (remaining : Z) (w : Animator) : Animator :=
  let w1 :=
    match animation_thread w with
    | Some t => if is_alive t w then stop_animation remaining w else w
    | None => w
    end in
  {| self := set_animation_running true (self w1);
     animation_thread := Some (length (threads w1));
     threads :=
       threads w1 ++ [mkThread animation_type (setup animation_type) AtHead];
     passes := passes w1 |}.

(** The state [__init__] leaves. *)
Definition Animator_init (loopback : bool) : Animator :=
  {| self := LedController_init loopback; animation_thread := None;
     threads := []; passes := [] |}.
End Animation.

(** A scenario: the chase is started and enters its first pass; while the
    pass is under way another routine is started.  The routines other than
    the chase are given an empty pass. *)
Definition chase_pass (a : AnimationType.t) (head_pos : Z)
  : M LedController Z :=
  match a with
  | AnimationType.CHASE => chase_frame RED head_pos
  | _ => ret head_pos
  end.

Definition chase_in_pass : Animator :=
  thread_step chase_pass 0
    (start_animation (fun _ => 0) chase_pass AnimationType.CHASE 0
       (Animator_init false)).



(** * Properties *)

(** ** The colour table *)

Lemma PadColor_members_complete (c : PadColor) : In c PadColor_members.
Proof. destruct c; simpl; tauto. Qed.

Lemma PadColor_of_value_value (c : PadColor) :
  PadColor_of_value (PadColor_value c) = Some c.
Proof. destruct c; reflexivity. Qed.

Lemma PadColor_of_value_Some (v : Z) (c : PadColor) :
  PadColor_of_value v = Some c -> v = PadColor_value c.
Proof.
  unfold PadColor_of_value. intros H.
  apply find_some in H as [_ H]. symmetry. now apply Z.eqb_eq.
Qed.

Lemma color_map_value (c : PadColor) :
  color_map !! PadColor_value c = Some (PadColor_hex c).
Proof. destruct c; reflexivity. Qed.

Lemma color_map_keys (v : Z) (h : string) :
  color_map !! v = Some h -> exists c, v = PadColor_value c.
Proof.
  unfold color_map. intros H.
  apply elem_of_list_to_map_2 in H.
  apply list_elem_of_In in H. simpl in H.
  repeat (destruct H as [H | H];
          [ injection H as <- _;
            match goal with
            | |- exists c, ?k = _ =>
                first [ now exists OFF | now exists DIM | now exists GRAY
                      | now exists WHITE | now exists LIGHT_RED
                      | now exists RED | now exists DARK_RED
                      | now exists VERY_DARK_RED | now exists LIGHT_ORANGE
                      | now exists ORANGE | now exists DARK_ORANGE
                      | now exists BROWN | now exists LIGHT_YELLOW
                      | now exists YELLOW | now exists DARK_YELLOW
                      | now exists VERY_DARK_YELLOW | now exists LIGHT_LIME
                      | now exists LIME | now exists DARK_LIME
                      | now exists VERY_DARK_LIME | now exists LIGHT_GREEN
                      | now exists GREEN | now exists DARK_GREEN
                      | now exists VERY_DARK_GREEN | now exists LIGHT_BLUE
                      | now exists BLUE | now exists DARK_BLUE
                      | now exists VERY_DARK_BLUE ]
            end
          | ]).
  contradiction.
Qed.

(** C9.  [get_hex_color] is defined on every integer: on the value of a
    palette member it is the hex string of that member, on every other
    integer it is the black default ["#000000"]. *)
Theorem get_hex_color_total (v : Z) :
  get_hex_color v =
    match PadColor_of_value v with
    | Some c => PadColor_hex c
    | None => "#000000"%string
    end
  /\ (forall c : PadColor, get_hex_color (PadColor_value c) = PadColor_hex c)
  /\ ((exists c, v = PadColor_value c) \/ get_hex_color v = "#000000"%string).
Proof.
  assert (Hv : forall c, get_hex_color (PadColor_value c) = PadColor_hex c).
  { intros c. unfold get_hex_color. now rewrite color_map_value. }
  split; [| split; [exact Hv |]].
  - destruct (PadColor_of_value v) as [c |] eqn:E.
    + apply PadColor_of_value_Some in E. subst v. apply Hv.
    + unfold get_hex_color.
      destruct (color_map !! v) as [h |] eqn:L; [| reflexivity].
      apply color_map_keys in L as [c ->].
      rewrite PadColor_of_value_value in E. discriminate.
  - unfold get_hex_color.
    destruct (color_map !! v) as [h |] eqn:L.
    + left. eapply color_map_keys, L.
    + now right.
Qed.

(** ** Grid coordinates *)

(** C8.  For a pad index [i] in 0..63, [_get_row_col] gives the row [i / 8]
    and the column [i mod 8], both in 0..7 (row 0 is the row of the lowest
    notes), and [_get_note] of that row and column is [i] again. *)
Theorem get_note_get_row_col (i : Z) :
  0 <= i <= 63 ->
  let '(row, col) := _get_row_col i in
  _get_note row col = i
  /\ row = i / 8 /\ col = i mod 8
  /\ 0 <= row <= 7 /\ 0 <= col <= 7
  /\ (row = 0 <-> i <= 7).
Proof.
  intros Hi. unfold _get_row_col, _get_note. cbv zeta.
  pose proof (Z.div_mod i 8 ltac:(lia)) as Hdm.
  pose proof (Z.mod_pos_bound i 8 ltac:(lia)) as Hm.
  assert (0 <= i / 8 < 8) as Hr.
  { split; [apply Z.div_pos | apply Z.div_lt_upper_bound]; lia. }
  repeat split; lia.
Qed.

Lemma get_note_get_row_col_witness :
  0 <= 42 <= 63 /\
  _get_note (fst (_get_row_col 42)) (snd (_get_row_col 42)) = 42.
Proof.
  split; [lia |].
  pose proof (get_note_get_row_col 42 ltac:(lia)) as H.
  simpl in H. apply H.
Defined.

(** The way back: a row and a column in 0..7 are recovered from the note. *)
Lemma get_row_col_get_note (row col : Z) :
  0 <= col <= 7 -> _get_row_col (_get_note row col) = (row, col).
Proof.
  intros Hc. unfold _get_row_col, _get_note. f_equal.
  - rewrite Z.div_add_l by lia. rewrite Z.div_small; lia.
  - rewrite Z.add_comm, Z.mod_add by lia. apply Z.mod_small; lia.
Qed.

(** ** The LED state store and the controller *)

Lemma in_range_true (lo x hi : Z) : in_range lo x hi = true <-> lo <= x <= hi.
Proof. unfold in_range. rewrite andb_true_iff, !Z.leb_le. tauto. Qed.

Lemma in_range_false (lo x hi : Z) :
  in_range lo x hi = false <-> x < lo \/ hi < x.
Proof.
  unfold in_range. rewrite andb_false_iff, !Z.leb_gt. tauto.
Qed.

Lemma PadColor_value_byte (c : PadColor) :
  in_range 0 (PadColor_value c) 127 = true.
Proof. destruct c; reflexivity. Qed.

Lemma ButtonType_value_byte (b : ButtonType) :
  in_range 0 (ButtonType_value b) 127 = true.
Proof. destruct b; reflexivity. Qed.

(** A pad write with a valid channel and a note that fits a data byte, on an
    open output port: the entry is replaced, one message goes out, the call
    evaluates to [None]. *)
Lemma set_pad_color_ok (c : LedController) (sent : list Message)
  (note : Z) (color : PadColor) (channel : Z) :
  0 <= channel <= 15 -> 0 <= note <= 127 -> output_port c = Some sent ->
  set_pad_color note color channel c =
    (set_output_port (Some (sent ++ [pad_message note color channel]))
       (set_led_states (fun st => <[note := LedState_of color]> st) c),
     Return None).
Proof.
  intros Hch Hn Hp. unfold set_pad_color.
  apply in_range_true in Hch, Hn. rewrite Hch. simpl.
  unfold bind, modify, output_port_send, mido_Message, ret. simpl.
  rewrite Hp, Hch, Hn, PadColor_value_byte. reflexivity.
Qed.

(** Whatever happens, a pad write changes the store at most at its note. *)
Lemma set_pad_color_store (c : LedController)
  (note : Z) (color : PadColor) (channel : Z) :
  let c' := fst (set_pad_color note color channel c) in
  led_states c' = led_states c
  \/ led_states c' = <[note := LedState_of color]> (led_states c).
Proof.
  unfold set_pad_color.
  destruct (in_range 0 channel 15); simpl; [| now left].
  right. unfold bind, modify, output_port_send, ret. simpl.
  destruct (output_port c); simpl; [| reflexivity].
  destruct (mido_Message _ _ _ _); reflexivity.
Qed.

(** C3.  With a channel below 0 or above 15, [set_pad_color] raises the
    [ValueError] of its channel check and the controller is exactly what it
    was: no entry of the state store is touched, for any note, and nothing
    is sent on the output port. *)
Theorem set_pad_color_invalid_channel (c : LedController)
  (note : Z) (color : PadColor) (channel : Z) :
  channel < 0 \/ channel > 15 ->
  set_pad_color note color channel c =
    (c, Raise (ValueError "Kanal muss zwischen 0 und 15 liegen"))
  /\ (forall n, led_states (fst (set_pad_color note color channel c)) !! n
                = led_states c !! n)
  /\ output_port (fst (set_pad_color note color channel c)) = output_port c.
Proof.
  intros Hch.
  assert (E : set_pad_color note color channel c =
              (c, Raise (ValueError "Kanal muss zwischen 0 und 15 liegen"))).
  { unfold set_pad_color.
    assert (in_range 0 channel 15 = false) as ->
      by (apply in_range_false; lia).
    reflexivity. }
  rewrite E. auto.
Qed.

Lemma set_pad_color_invalid_channel_witness :
  (16 < 0 \/ 16 > 15) /\
  set_pad_color 5 RED 16 (LedController_init false) =
    (LedController_init false,
     Raise (ValueError "Kanal muss zwischen 0 und 15 liegen")).
Proof.
  split; [right; lia |].
  apply (set_pad_color_invalid_channel (LedController_init false) 5 RED 16).
  right; lia.
Defined.

(** C4, as the code has it.  A [set_pad_color] that returns normally had a
    valid channel and an open output port; it replaced the entry of its note
    by [LedState(color)], left every other entry alone, sent one [note_on]
    with the colour's value as velocity on the given channel, and evaluated
    to [None]: the previous entry is not handed back. *)
Theorem set_pad_color_success (c c' : LedController)
  (note : Z) (color : PadColor) (channel : Z) (r : option LedState) :
  set_pad_color note color channel c = (c', Return r) ->
  0 <= channel <= 15
  /\ r = None
  /\ led_states c' = <[note := LedState_of color]> (led_states c)
  /\ led_states c' !! note = Some (LedState_of color)
  /\ (forall n, n <> note -> led_states c' !! n = led_states c !! n)
  /\ exists sent,
       output_port c = Some sent
       /\ output_port c' = Some (sent ++ [pad_message note color channel]).
Proof.
  unfold set_pad_color.
  destruct (in_range 0 channel 15) eqn:Hch; simpl; [| discriminate].
  unfold bind, modify, output_port_send, mido_Message, ret. simpl.
  destruct (output_port c) as [sent |] eqn:Hp; simpl; [| discriminate].
  rewrite Hch. simpl.
  destruct (in_range 0 note 127 && in_range 0 (PadColor_value color) 127);
    simpl; [| discriminate].
  intros [= <- <-]. simpl.
  apply in_range_true in Hch.
  split; [exact Hch |]. split; [reflexivity |]. split; [reflexivity |].
  split; [apply lookup_insert_eq |].
  split; [intros n Hn; now apply lookup_insert_ne |].
  exists sent. split; reflexivity.
Qed.

Lemma set_pad_color_success_witness :
  exists c',
    set_pad_color 0 RED 6 (LedController_init false) = (c', Return None)
    /\ led_states c' !! 0 = Some (LedState_of RED)
    /\ output_port c' = Some [pad_message 0 RED 6].
Proof.
  eexists. split; [reflexivity |].
  destruct (set_pad_color_success (LedController_init false) _ 0 RED 6 None
              eq_refl) as (_ & _ & _ & Hl & _ & sent & Hs & Hs').
  split; [exact Hl |].
  injection Hs as <-. exact Hs'.
Defined.

(** C4, as the claim has it, fails: pad 0 holds [LedState(RED)], the write
    of blue succeeds, and what the call evaluates to is [None], not the
    previous entry. *)
Lemma set_pad_color_previous_counterexample :
  led_states red_pad_controller !! 0 = Some (LedState_of RED)
  /\ snd (set_pad_color 0 BLUE 6 red_pad_controller) = Return None
  /\ snd (set_pad_color 0 BLUE 6 red_pad_controller)
     <> Return (led_states red_pad_controller !! 0).
Proof.
  split; [reflexivity |]. split; [reflexivity |].
  intros H. vm_compute in H. discriminate H.
Qed.

(** [set_button_color] on an open port sends one message, on channel 0. *)
Lemma set_button_color_ok (c : LedController) (sent : list Message)
  (button : ButtonType) (velocity : Z) :
  0 <= velocity <= 127 -> output_port c = Some sent ->
  set_button_color button velocity c =
    (set_output_port (Some (sent ++ [button_message button velocity])) c,
     Return tt).
Proof.
  intros Hv Hp. apply in_range_true in Hv.
  unfold set_button_color, output_port_send, mido_Message. simpl.
  rewrite Hp, ButtonType_value_byte, Hv. reflexivity.
Qed.

(** Whatever [set_button_color] does, the controller differs from the one
    before at most in the output port, and there at most by one message on
    channel 0 for the button's note. *)
Lemma set_button_color_effect (c : LedController)
  (button : ButtonType) (velocity : Z) :
  let c' := fst (set_button_color button velocity c) in
  c' = c
  \/ exists sent,
       output_port c = Some sent
       /\ c' = set_output_port
                 (Some (sent ++ [button_message button velocity])) c.
Proof.
  unfold set_button_color, output_port_send, mido_Message. simpl.
  destruct (output_port c) as [sent |] eqn:Hp; [| now left].
  rewrite ButtonType_value_byte. simpl.
  destruct (in_range 0 velocity 127); simpl; [| now left].
  right. exists sent. split; reflexivity.
Qed.

(** C10.  [set_button_color] leaves the LED state store as it is, for every
    button and velocity and whether or not the message can be sent; called
    through the dashboard it also leaves the toggle table as it is.  The
    store changes only in [set_pad_color]: [cleanup] keeps it too. *)
Theorem set_button_color_frame (button : ButtonType) (velocity : Z) :
  (forall c : LedController,
      led_states (fst (set_button_color button velocity c)) = led_states c)
  /\ (forall (c : LedController) (n : Z),
         led_states (fst (set_button_color button velocity c)) !! n
         = led_states c !! n)
  /\ (forall d : Dashboard,
         let d' :=
           fst (controller_set_button_color (ButtonType_value button)
                  velocity d) in
         store d' = store d /\ toggle_states d' = toggle_states d)
  /\ (forall c : LedController, led_states (cleanup c) = led_states c).
Proof.
  assert (H1 : forall c : LedController,
             led_states (fst (set_button_color button velocity c))
             = led_states c).
  { intros c.
    destruct (set_button_color_effect c button velocity)
      as [-> | (sent & _ & ->)]; reflexivity. }
  split; [exact H1 |]. split; [intros c n; now rewrite H1 |].
  split; [| reflexivity].
  intros d. unfold controller_set_button_color, store.
  destruct (controller d) as [c |] eqn:Hc; simpl; [| now rewrite Hc].
  unfold bind, ButtonType_by_value.
  assert (ButtonType_of_value (ButtonType_value button) = Some button) as ->
    by (destruct button; reflexivity).
  unfold ret, on_controller. rewrite Hc.
  specialize (H1 c).
  destruct (set_button_color button velocity c) as [c' r]. simpl in *.
  auto.
Qed.

(** ** [clear_all] *)

Lemma for_each_set_pad_color (color : PadColor) (channel : Z)
  (notes : list Z) :
  0 <= channel <= 15 ->
  Forall (fun n => 0 <= n <= 127) notes ->
  forall (c : LedController) (sent : list Message),
    output_port c = Some sent ->
    for_each notes (fun note => set_pad_color note color channel ;;; ret tt) c
    = (set_output_port
         (Some (sent ++ map (fun n => pad_message n color channel) notes))
         (set_led_states
            (fun st => foldl (fun m n => <[n := LedState_of color]> m)
                         st notes) c),
       Return tt).
Proof.
  intros Hch. induction 1 as [| n notes Hn _ IH]; intros c sent Hp.
  - simpl. unfold ret. destruct c; simpl in *; subst.
    now rewrite app_nil_r.
  - simpl. unfold bind at 1. unfold bind at 1.
    rewrite (set_pad_color_ok c sent n color channel Hch Hn Hp).
    unfold ret at 1.
    erewrite IH by reflexivity.
    destruct c; simpl in *. unfold set_output_port, set_led_states; simpl.
    now rewrite <- app_assoc.
Qed.

Lemma for_each_set_button_color (velocity : Z) (bs : list ButtonType) :
  0 <= velocity <= 127 ->
  forall (c : LedController) (sent : list Message),
    output_port c = Some sent ->
    for_each bs (fun button => set_button_color button velocity) c
    = (set_output_port
         (Some (sent ++ map (fun b => button_message b velocity) bs)) c,
       Return tt).
Proof.
  intros Hv. induction bs as [| b bs IH]; intros c sent Hp.
  - simpl. unfold ret. destruct c; simpl in *; subst.
    now rewrite app_nil_r.
  - simpl. unfold bind at 1.
    rewrite (set_button_color_ok c sent b velocity Hv Hp).
    erewrite IH by reflexivity.
    destruct c; simpl in *. unfold set_output_port; simpl.
    now rewrite <- app_assoc.
Qed.

Lemma elem_of_range (n : nat) (k : Z) : k ∈ range n <-> 0 <= k < Z.of_nat n.
Proof.
  unfold range. rewrite list_elem_of_In, in_map_iff. split.
  - intros (i & <- & Hi). apply in_seq in Hi. lia.
  - intros Hk. exists (Z.to_nat k). split; [lia |]. apply in_seq. lia.
Qed.

Lemma lookup_foldl_insert {V} (v : V) (notes : list Z) (st : gmap Z V)
  (k : Z) :
  foldl (fun m n => <[n := v]> m) st notes !! k
  = if decide (k ∈ notes) then Some v else st !! k.
Proof.
  revert st. induction notes as [| n notes IH]; intros st; cbn [foldl].
  - destruct (decide (k ∈ [])) as [H |]; [| reflexivity].
    now apply elem_of_nil in H.
  - rewrite IH. destruct (decide (k = n)) as [-> | Hne].
    + rewrite lookup_insert_eq, (decide_True (P := n ∈ n :: notes))
        by set_solver.
      now destruct (decide (n ∈ notes)).
    + rewrite lookup_insert_ne; [| congruence].
      destruct (decide (k ∈ notes)) as [H | H].
      * now rewrite decide_True by set_solver.
      * rewrite decide_False; [reflexivity |].
        intros [? | ?]%elem_of_cons; [congruence | contradiction].
Qed.

(** Pad writes over [notes] followed by button writes over [bs], as in
    [clear_all]. *)
Lemma pads_then_buttons (notes : list Z) (bs : list ButtonType)
  (c : LedController) (sent : list Message) :
  Forall (fun n => 0 <= n <= 127) notes ->
  output_port c = Some sent ->
  (for_each notes
     (fun note => set_pad_color note OFF default_channel ;;; ret tt) ;;;
   for_each bs (fun button => set_button_color button (Z.b2z false))) c
  = (set_output_port
       (Some (sent
              ++ map (fun n => pad_message n OFF 6) notes
              ++ map (fun b => button_message b 0) bs))
       (set_led_states
          (fun st => foldl (fun m n => <[n := LedState_of OFF]> m) st notes)
          c),
     Return tt).
Proof.
  intros Hn Hp. unfold bind at 1.
  rewrite (for_each_set_pad_color OFF default_channel notes
             ltac:(unfold default_channel; lia) Hn c sent Hp).
  erewrite for_each_set_button_color; [| simpl; lia | reflexivity].
  destruct c. unfold set_output_port, set_led_states, default_channel.
  cbn [output_port input_port loopback_port led_states running channel
       animation_running Z.b2z].
  now rewrite <- app_assoc.
Qed.

(** [clear_all] on an open output port. *)
Lemma clear_all_ok (c : LedController) (sent : list Message) :
  output_port c = Some sent ->
  clear_all c =
    (set_output_port
       (Some (sent
              ++ map (fun n => pad_message n OFF 6) (range 64)
              ++ map (fun b => button_message b 0) ButtonType_members))
       (set_led_states
          (fun st => foldl (fun m n => <[n := LedState_of OFF]> m)
                       st (range 64)) c),
     Return tt).
Proof.
  intros Hp. unfold clear_all. apply pads_then_buttons; [| exact Hp].
  apply Forall_forall. intros n Hn. apply elem_of_range in Hn. lia.
Qed.

Lemma on_clear_all_ok (d : Dashboard) (c : LedController)
  (sent : list Message) :
  controller d = Some c -> output_port c = Some sent ->
  on_clear_all d =
    (set_buttons (fun bs => setColor (Some OFF) <$> bs)
       (set_controller (Some (fst (clear_all c))) d),
     Return tt).
Proof.
  intros Hc Hp. unfold on_clear_all. rewrite Hc.
  unfold bind, on_controller. rewrite Hc.
  rewrite (clear_all_ok c sent Hp). reflexivity.
Qed.

(** C2, as the code has it.  On a dashboard whose controller has an open
    output port, [on_clear_all] (which calls [clear_all]) returns normally;
    afterwards the state store holds [LedState(OFF)] for every pad note
    0..63 and, for every other note, the button notes among them, what it
    held before; the toggle table is what it was before; and the messages
    sent are velocity 0 on the default channel 6 for the pads 0..63 in index
    order, then velocity 0 on channel 0 for the sixteen buttons in the order
    of the enumeration. *)
Theorem on_clear_all_effect (d : Dashboard) (c : LedController)
  (sent : list Message) :
  controller d = Some c -> output_port c = Some sent ->
  let '(d', r) := on_clear_all d in
  r = Return tt
  /\ (forall n, 0 <= n <= 63 -> store d' !! n = Some (LedState_of OFF))
  /\ (forall n, ~ 0 <= n <= 63 -> store d' !! n = store d !! n)
  /\ toggle_states d' = toggle_states d
  /\ sent_messages d' =
       sent
       ++ map (fun n => pad_message n OFF 6) (range 64)
       ++ map (fun b => button_message b 0) ButtonType_members.
Proof.
  intros Hc Hp. rewrite (on_clear_all_ok d c sent Hc Hp).
  rewrite (clear_all_ok c sent Hp).
  unfold store, sent_messages. rewrite Hc.
  cbn [fst controller set_buttons set_controller toggle_states
       led_states output_port set_output_port set_led_states default].
  split; [reflexivity |].
  split; [| split; [| split; reflexivity]].
  - intros n Hn. rewrite lookup_foldl_insert.
    rewrite decide_True; [reflexivity |]. apply elem_of_range. lia.
  - intros n Hn. rewrite lookup_foldl_insert.
    rewrite decide_False; [reflexivity |]. rewrite elem_of_range. lia.
Qed.

Lemma on_clear_all_effect_witness :
  controller (Dashboard_init false) = Some (LedController_init false)
  /\ output_port (LedController_init false) = Some []
  /\ store (fst (on_clear_all (Dashboard_init false))) !! 63
     = Some (LedState_of OFF)
  /\ toggle_states (fst (on_clear_all (Dashboard_init false))) = ∅.
Proof.
  split; [reflexivity |]. split; [reflexivity |].
  pose proof (on_clear_all_effect (Dashboard_init false)
                (LedController_init false) [] eq_refl eq_refl) as H.
  destruct (on_clear_all (Dashboard_init false)) as [d' r].
  destruct H as (_ & Hpads & _ & Htoggle & _).
  split; [apply Hpads; lia | exact Htoggle].
Defined.

(** C2, as the claim has it, fails.  On the dashboard on which pad 0 was
    toggled on, after [on_clear_all] the store has no entry for the track
    button 0x64, the toggle table still holds the bit of pad 0, and the pad
    messages went out on channel 6. *)
Lemma on_clear_all_counterexample :
  let d' := fst (on_clear_all toggled_dashboard) in
  snd (on_clear_all toggled_dashboard) = Return tt
  /\ store d' !! ButtonType_value TRACK_1 = None
  /\ toggle_states d' !! 0 = Some true
  /\ displayed 0 d' = Some (0, 6)
  /\ ~ cleared d'.
Proof.
  cbn zeta.
  assert (H1 : store (fst (on_clear_all toggled_dashboard))
               !! ButtonType_value TRACK_1 = None) by (vm_compute; reflexivity).
  split; [vm_compute; reflexivity |].
  split; [exact H1 |].
  split; [vm_compute; reflexivity |].
  split; [vm_compute; reflexivity |].
  intros (_ & Hb & _). specialize (Hb TRACK_1).
  rewrite H1 in Hb. discriminate Hb.
Qed.

(** ** What the dashboard sends *)

Section SendsOnly.
Variable P : Message -> Prop.







End SendsOnly.

Lemma ButtonType_of_value_range (n : Z) :
  is_track_or_scene n = true ->
  exists b, ButtonType_of_value n = Some b /\ ButtonType_value b = n.
Proof.
  unfold is_track_or_scene. rewrite orb_true_iff, !in_range_true.
  intros H.
  assert (n = 100 \/ n = 101 \/ n = 102 \/ n = 103 \/ n = 104 \/ n = 105
          \/ n = 106 \/ n = 107 \/ n = 112 \/ n = 113 \/ n = 114 \/ n = 115
          \/ n = 116 \/ n = 117 \/ n = 118 \/ n = 119) as Hn by lia.
  clear H.
  repeat (destruct Hn as [-> | Hn]; [eexists; split; reflexivity |]).
  subst n. eexists; split; reflexivity.
Qed.

Lemma ButtonType_value_range (b : ButtonType) :
  is_track_or_scene (ButtonType_value b) = true.
Proof. destruct b; reflexivity. Qed.












(** ** The press-behaviour engine on an open controller *)


Lemma paint_pad_ok (d : Dashboard) (c : LedController)
  (sent : list Message) (n : Z) (color : PadColor) (channel : Z) :
  controller d = Some c -> output_port c = Some sent ->
  0 <= n <= 127 -> 0 <= channel <= 15 ->
  paint_pad n color channel d =
    (set_buttons (fun bs => alter (setColor (Some color)) n bs)
       (set_controller
          (Some (set_output_port
                   (Some (sent ++ [pad_message n color channel]))
                   (set_led_states
                      (fun st => <[n := LedState_of color]> st) c))) d),
     Return tt).
Proof.
  intros Hc Hp Hn Hch. unfold paint_pad, bind, on_controller. rewrite Hc.
  now rewrite (set_pad_color_ok c sent n color channel Hch Hn Hp).
Qed.

Lemma get_animation_channel_range (animation_text : string) :
  6 <= get_animation_channel animation_text <= 15.
Proof.
  unfold get_animation_channel.
  destruct (String.eqb animation_text "Statisch"); [lia |].
  destruct (animations !! animation_text) as [v |] eqn:E; simpl; [| lia].
  unfold animations in E. apply elem_of_list_to_map_2 in E.
  apply list_elem_of_In in E. simpl in E.
  repeat (destruct E as [E | E]; [injection E as _ <-; lia |]).
  contradiction.
Qed.


Lemma toggle_velocity_blink (button : LedButton) (bit : bool) :
  (if bit then blink_velocity (pressed_animation button) else 0)
  = toggle_velocity button bit.
Proof. reflexivity. Qed.


(** A press on a pad in Toggle mode: the toggle bit of the note is flipped,
    the pad is written with the pressed colour when the bit is now true and
    with the not-pressed colour otherwise, on the channel
    [get_animation_channel] gives for the animation of that state. *)
Lemma toggle_press_pad (d : Dashboard) (c : LedController)
  (sent : list Message) (msg : Message) (button : LedButton)
  (color : PadColor) :
  msg_type msg = note_on ->
  controller d = Some c -> output_port c = Some sent ->
  buttons d !! msg_note msg = Some button ->
  is_track_or_scene (msg_note msg) = false ->
  0 <= msg_note msg <= 127 ->
  press_behavior_enabled button = true ->
  button_mode button = "Toggle"%string ->
  let bit := negb (default false (toggle_states d !! msg_note msg)) in
  PadColor_getitem
    (if bit then pressed_color button else unpressed_color button)
  = Some color ->
  let channel :=
    get_animation_channel
      (if bit then pressed_animation button
       else unpressed_animation button) in
  handle_midi_input msg d =
    (set_buttons (fun bs => alter (setColor (Some color)) (msg_note msg) bs)
       (set_controller
          (Some (set_output_port
                   (Some (sent ++ [pad_message (msg_note msg) color channel]))
                   (set_led_states
                      (fun st => <[msg_note msg := LedState_of color]> st)
                      c)))
          (set_toggle_states (fun ts => <[msg_note msg := bit]> ts) d)),
     Return tt).
Proof.
  intros Ht Hc Hp Hb Hn Hbyte He Hm bit Hcol channel.
  unfold handle_midi_input. rewrite Ht, Hb, Hn, He, Hm, String.eqb_refl.
  cbv iota. unfold bind at 1. unfold flip_toggle. cbv beta iota zeta.
  fold bit. unfold bind at 1. unfold PadColor_by_name. rewrite Hcol.
  unfold ret. cbv beta iota zeta. fold channel.
  pose proof (get_animation_channel_range
                (if bit then pressed_animation button
                 else unpressed_animation button)) as Hch.
  fold channel in Hch.
  erewrite paint_pad_ok;
    [reflexivity | exact Hc | exact Hp | exact Hbyte | lia].
Qed.

(** In Toggle mode a release writes nothing and changes nothing. *)
Lemma toggle_release (d : Dashboard) (msg : Message) (button : LedButton) :
  msg_type msg = note_off ->
  buttons d !! msg_note msg = Some button ->
  press_behavior_enabled button = true ->
  button_mode button = "Toggle"%string ->
  handle_midi_input msg d = (d, Return tt).
Proof.
  intros Ht Hb He Hm. unfold handle_midi_input.
  rewrite Ht, Hb, He, Hm, String.eqb_refl.
  destruct (is_track_or_scene (msg_note msg));
    reflexivity.
Qed.

(** A message for a control whose press behaviour is not enabled writes
    nothing and changes nothing. *)
Lemma disabled_input (d : Dashboard) (msg : Message) (button : LedButton) :
  buttons d !! msg_note msg = Some button ->
  press_behavior_enabled button = false ->
  handle_midi_input msg d = (d, Return tt).
Proof.
  intros Hb He. unfold handle_midi_input. rewrite Hb, He.
  destruct (msg_type msg), (is_track_or_scene (msg_note msg)); reflexivity.
Qed.










(** ** Toggle mode on a pad *)

Lemma displayed_snoc (n : Z) (d : Dashboard) (l : list Message)
  (m : Message) :
  sent_messages d = l ++ [m] -> msg_note m = n ->
  displayed n d = Some (msg_velocity m, msg_channel m).
Proof.
  intros E Hn. unfold displayed.
  rewrite E, filter_app, (filter_cons_True _ m []) by exact Hn.
  rewrite filter_nil, last_snoc. reflexivity.
Qed.

(** [setColor] touches the style sheet only. *)
Lemma setColor_config (color : option PadColor) (b : LedButton) :
  let b' := setColor color b in
  press_behavior_enabled b' = press_behavior_enabled b
  /\ button_mode b' = button_mode b
  /\ pressed_color b' = pressed_color b
  /\ unpressed_color b' = unpressed_color b
  /\ pressed_animation b' = pressed_animation b
  /\ unpressed_animation b' = unpressed_animation b.
Proof.
  unfold setColor.
  destruct (is_rgb b), color, (in_range 100 (note b) 107),
    (in_range 112 (note b) 119); simpl; auto 10.
Qed.

(** What does hold of two consecutive presses on a pad in Toggle mode: the
    toggle bit is back where it was, and the pad shows the colour of the
    state that bit stands for on the channel [get_animation_channel] gives
    for the animation of that state.  The pad shows what it showed before
    the two presses exactly when that was this colour on this channel. *)
Lemma toggle_two_presses_pad (d : Dashboard) (c : LedController)
  (sent : list Message) (n : Z) (button : LedButton) (pc uc : PadColor) :
  controller d = Some c -> output_port c = Some sent ->
  buttons d !! n = Some button ->
  is_track_or_scene n = false -> 0 <= n <= 127 ->
  press_behavior_enabled button = true ->
  button_mode button = "Toggle"%string ->
  PadColor_getitem (pressed_color button) = Some pc ->
  PadColor_getitem (unpressed_color button) = Some uc ->
  let bit := default false (toggle_states d !! n) in
  let d2 :=
    fst (handle_midi_input (press n) (fst (handle_midi_input (press n) d))) in
  default false (toggle_states d2 !! n) = bit
  /\ displayed n d2 =
       Some (PadColor_value (if bit then pc else uc),
             get_animation_channel
               (if bit then pressed_animation button
                else unpressed_animation button)).
Proof.
  intros Hc Hp Hb Hn Hbyte He Hm Hpc Huc bit d2. subst d2.
  pose proof (toggle_press_pad d c sent (press n) button
                (if negb bit then pc else uc) eq_refl Hc Hp Hb Hn Hbyte He
                Hm) as E1.
  cbv zeta in E1. simpl msg_note in E1. fold bit in E1.
  specialize (E1 ltac:(destruct bit; assumption)).
  rewrite E1. cbn [fst].
  match goal with
  | |- context [handle_midi_input _ ?x] => set (d1 := x)
  end.
  destruct (setColor_config (Some (if negb bit then pc else uc)) button)
    as (He' & Hm' & Hpc' & Huc' & Hpa' & Hua').
  assert (Hbit1 : default false (toggle_states d1 !! n) = negb bit).
  { subst d1. simpl. now rewrite lookup_insert_eq. }
  pose proof (toggle_press_pad d1 _ _ (press n)
                (setColor (Some (if negb bit then pc else uc)) button)
                (if bit then pc else uc) eq_refl eq_refl eq_refl
                ltac:(subst d1; simpl;
                      rewrite lookup_alter_eq, Hb; reflexivity)
                Hn Hbyte
                ltac:(rewrite He'; exact He) ltac:(rewrite Hm'; exact Hm))
    as E2.
  cbv zeta in E2. simpl msg_note in E2.
  rewrite Hbit1, negb_involutive, Hpc', Huc', Hpa', Hua' in E2.
  specialize (E2 ltac:(destruct bit; assumption)).
  rewrite E2. cbn [fst].
  split.
  - simpl. now rewrite lookup_insert_eq.
  - eapply (displayed_snoc _ _ _
              (pad_message n (if bit then pc else uc)
                 (get_animation_channel
                    (if bit then pressed_animation button
                     else unpressed_animation button))));
      [unfold sent_messages; simpl; reflexivity | reflexivity].
Qed.

(** C5 on the code.  Pad 0 is configured as a Toggle control, red at 10%
    when not pressed: the click that configures it shows the pad red on
    channel 0 and clears its toggle bit.  After two presses on the device
    the toggle bit is clear again, and the pad is red on channel 6: the
    colour is back, the channel is not. *)
Theorem toggle_two_presses_lose_brightness :
  (press_behavior_enabled <$> buttons dim_red_configured !! 0) = Some true
  /\ (button_mode <$> buttons dim_red_configured !! 0)
     = Some "Toggle"%string
  /\ (unpressed_color <$> buttons dim_red_configured !! 0)
     = Some "RED"%string
  /\ (unpressed_animation <$> buttons dim_red_configured !! 0)
     = Some "Statisch"%string
  /\ (unpressed_brightness <$> buttons dim_red_configured !! 0)
     = Some (Some 0)
  /\ toggle_states dim_red_configured !! 0 = Some false
  /\ displayed 0 dim_red_configured = Some (PadColor_value RED, 0)
  /\ toggle_states dim_red_pressed_twice !! 0 = Some false
  /\ displayed 0 dim_red_pressed_twice = Some (PadColor_value RED, 6)
  /\ displayed 0 dim_red_pressed_twice <> displayed 0 dim_red_configured.
Proof.
  repeat (split; [vm_compute; reflexivity |]).
  intros H. vm_compute in H. discriminate H.
Qed.

(** ** The background reader *)

Section ReaderProperties.
Context {W : Type}.
Implicit Types (cbs : list (@callback W)) (w : W) (c : LedController).

Lemma forward_effect (msg : Message) c :
  let '(c1, ev1) := forward msg c in
  running c1 = running c
  /\ has_loopback c1 = has_loopback c
  /\ ev1 = (if has_loopback c then [Forwarded msg] else [])
  /\ loopback_port c1 = (fun sent => sent ++ [msg]) <$> loopback_port c
  /\ led_states c1 = led_states c /\ output_port c1 = output_port c.
Proof.
  unfold forward, has_loopback.
  destruct (loopback_port c) eqn:E; simpl; rewrite ?E; auto 10.
Qed.

(** The callbacks are called in the order of the list, from the first
    one on, up to the first one that raises. *)
Lemma run_callbacks_events cbs (i : nat) (msg : Message) w :
  let '(_, evs, r) := run_callbacks cbs i msg w in
  exists k : nat,
    evs = map (fun j => Invoked j msg) (seq i k)
    /\ (k <= length cbs)%nat
    /\ (r = None -> k = length cbs).
Proof.
  revert i w. induction cbs as [| cb cbs IH]; intros i w; simpl.
  - exists 0%nat. auto.
  - destruct (cb msg w) as [w' [[] | e]].
    + specialize (IH (S i) w').
      destruct (run_callbacks cbs (S i) msg w') as [[w'' evs] r].
      destruct IH as (k & -> & Hk & Hr).
      exists (S k). simpl. split; [reflexivity |].
      split; [lia |]. intros Hnone. now rewrite Hr.
    + exists 1%nat. simpl. split; [reflexivity |].
      split; [lia | discriminate].
Qed.

Lemma run_callbacks_never_raise cbs (i : nat) (msg : Message) w :
  Forall never_raises cbs ->
  snd (run_callbacks cbs i msg w) = None.
Proof.
  intros Hcbs. revert i w.
  induction Hcbs as [| cb cbs Hcb _ IH]; intros i w; simpl.
  - reflexivity.
  - destruct (Hcb msg w) as [w' ->].
    specialize (IH (S i) w').
    now destruct (run_callbacks cbs (S i) msg w') as [[w'' evs] r].
Qed.

Lemma reader_loop_events cbs (inbound : list Message) :
  forall (at_head : bool) c w,
    running c = true ->
    let '(c', _, evs) := reader_loop cbs at_head inbound c w in
    (exists ks : list (nat * option exn),
        length ks = length inbound
        /\ evs = concat (zip_with
                           (fun msg kr =>
                              block (has_loopback c) msg kr.1 kr.2)
                           inbound ks)
        /\ Forall (fun kr => (kr.1 <= length cbs)%nat
                             /\ (kr.2 = None -> kr.1 = length cbs)) ks)
    /\ loopback_port c' = (fun sent => sent ++ inbound) <$> loopback_port c
    /\ led_states c' = led_states c /\ output_port c' = output_port c.
Proof.
  induction inbound as [| msg rest IH]; intros at_head c w Hrun.
  - simpl. rewrite Hrun, andb_false_r.
    split; [exists []; auto |].
    split; [| auto]. destruct (loopback_port c); simpl; [| reflexivity].
    now rewrite app_nil_r.
  - simpl. rewrite Hrun, andb_false_r.
    pose proof (forward_effect msg c) as Hf.
    destruct (forward msg c) as [c1 ev1].
    destruct Hf as (Hrun1 & Hlb1 & -> & Hport1 & Hst1 & Hout1).
    pose proof (run_callbacks_events cbs 0 msg w) as Hr.
    destruct (run_callbacks cbs 0 msg w) as [[w1 ev2] r].
    destruct Hr as (k & -> & Hk & Hnone).
    rewrite Hrun in Hrun1.
    assert (Hrest : forall h,
               let '(c', _, evs) := reader_loop cbs h rest c1 w1 in
               (exists ks : list (nat * option exn),
                   length ks = length rest
                   /\ evs = concat (zip_with
                                      (fun msg kr =>
                                         block (has_loopback c) msg
                                           kr.1 kr.2) rest ks)
                   /\ Forall (fun kr =>
                                (kr.1 <= length cbs)%nat
                                /\ (kr.2 = None -> kr.1 = length cbs)) ks)
               /\ loopback_port c'
                  = (fun sent => sent ++ msg :: rest) <$> loopback_port c
               /\ led_states c' = led_states c
               /\ output_port c' = output_port c).
    { intros h. specialize (IH h c1 w1 Hrun1).
      destruct (reader_loop cbs h rest c1 w1) as [[c' w'] evs].
      rewrite Hlb1, Hport1, Hst1, Hout1 in IH.
      destruct IH as (Hks & -> & Hst & Hout).
      split; [exact Hks |]. split; [| auto].
      destruct (loopback_port c); simpl; [| reflexivity].
      now rewrite <- app_assoc. }
    destruct r as [e |].
    + specialize (Hrest true).
      destruct (reader_loop cbs true rest c1 w1) as [[c' w'] evs].
      destruct Hrest as ((ks & Hlen & -> & Hall) & Hport).
      split; [| exact Hport].
      exists ((k, Some e) :: ks). simpl.
      split; [now rewrite Hlen |].
      split; [unfold block; simpl; now rewrite <- !app_assoc |].
      constructor; [simpl; split; [exact Hk | discriminate] | exact Hall].
    + specialize (Hrest false).
      destruct (reader_loop cbs false rest c1 w1) as [[c' w'] evs].
      destruct Hrest as ((ks & Hlen & -> & Hall) & Hport).
      split; [| exact Hport].
      exists ((k, None) :: ks). simpl.
      split; [now rewrite Hlen |].
      split; [unfold block; simpl; now rewrite app_nil_r, <- !app_assoc |].
      constructor; [simpl; split; [exact Hk | exact Hnone] | exact Hall].
Qed.

Lemma reader_loop_never_raise cbs (inbound : list Message) :
  Forall never_raises cbs ->
  forall (at_head : bool) c w,
    running c = true ->
    snd (reader_loop cbs at_head inbound c w)
    = flat_map (fun msg => block (has_loopback c) msg (length cbs) None)
        inbound.
Proof.
  intros Hcbs.
  induction inbound as [| msg rest IH]; intros at_head c w Hrun.
  - simpl. now rewrite Hrun, andb_false_r.
  - simpl. rewrite Hrun, andb_false_r.
    pose proof (forward_effect msg c) as Hf.
    destruct (forward msg c) as [c1 ev1].
    destruct Hf as (Hrun1 & Hlb1 & -> & _).
    pose proof (run_callbacks_events cbs 0 msg w) as Hr.
    pose proof (run_callbacks_never_raise cbs 0 msg w Hcbs) as Hnone.
    destruct (run_callbacks cbs 0 msg w) as [[w1 ev2] r].
    simpl in Hnone. subst r.
    destruct Hr as (k & -> & _ & Hk). rewrite (Hk eq_refl).
    rewrite Hrun in Hrun1. specialize (IH false c1 w1 Hrun1).
    destruct (reader_loop cbs false rest c1 w1) as [[c' w'] evs].
    simpl in *. subst evs. rewrite Hlb1.
    unfold block. now rewrite app_nil_r, <- !app_assoc.
Qed.

(** A callback is called after the ones registered before it. *)
Lemma add_button_callback_last cbs (cb : callback) :
  add_button_callback cb cbs !! length cbs = Some cb
  /\ forall i, (i < length cbs)%nat ->
               add_button_callback cb cbs !! i = cbs !! i.
Proof.
  unfold add_button_callback. split.
  - rewrite lookup_app_r by lia. now rewrite Nat.sub_diag.
  - intros i Hi. now apply lookup_app_l.
Qed.

Lemma forward_send_effect (failure : option exn) (msg : Message) c :
  let '(c1, ev1, r) := forward_send failure msg c in
  running c1 = running c
  /\ has_loopback c1 = has_loopback c
  /\ ((has_loopback c = true /\ failure = r /\ is_Some r
       /\ ev1 = [] /\ loopback_port c1 = loopback_port c)
      \/ ((has_loopback c = true -> failure = None) /\ r = None
          /\ ev1 = (if has_loopback c then [Forwarded msg] else [])
          /\ loopback_port c1
             = (fun sent => sent ++ [msg]) <$> loopback_port c)).
Proof.
  unfold forward_send, has_loopback.
  destruct (loopback_port c) as [sent |] eqn:E; [destruct failure as [e |] |];
    cbn [running loopback_port set_loopback_port]; rewrite ?E.
  - split; [reflexivity |]. split; [reflexivity |]. left.
    repeat split; eauto.
  - split; [reflexivity |]. split; [reflexivity |]. right.
    repeat split; reflexivity.
  - split; [reflexivity |]. split; [reflexivity |]. right.
    repeat split; try reflexivity. discriminate.
Qed.

(** The loop over the callbacks does what the claim says of them, and
    nothing else does. *)
Lemma run_callbacks_dispatched cbs (i : nat) (msg : Message) w :
  let '(w', evs, r) := run_callbacks cbs i msg w in
  dispatched cbs i msg w w' evs r.
Proof.
  revert i w. induction cbs as [| cb cbs IH]; intros i w; cbn [run_callbacks].
  - constructor.
  - destruct (cb msg w) as [w1 [[] | e]] eqn:E.
    + specialize (IH (S i) w1).
      destruct (run_callbacks cbs (S i) msg w1) as [[w' evs] r].
      now apply dispatched_returns with w1.
    + now apply dispatched_raises.
Qed.

Lemma dispatched_run cbs (i : nat) (msg : Message) w w' evs r :
  dispatched cbs i msg w w' evs r ->
  run_callbacks cbs i msg w = (w', evs, r).
Proof.
  induction 1 as [i msg w | cb rest i msg w w1 w' evs r E _ IH
                 | cb rest i msg w w1 e E]; cbn [run_callbacks].
  - reflexivity.
  - now rewrite E, IH.
  - now rewrite E.
Qed.

Lemma reader_loop_send_handled cbs (inbound : list (Message * option exn)) :
  forall (at_head : bool) c w,
    running c = true ->
    let '(c', w', evs) := reader_loop_send cbs at_head inbound c w in
    handled cbs (has_loopback c) inbound w w' evs
    /\ loopback_port c'
       = (fun sent => sent ++ forwarded inbound) <$> loopback_port c.
Proof.
  induction inbound as [| [msg failure] rest IH]; intros at_head c w Hrun;
    cbn [reader_loop_send]; rewrite Hrun, andb_false_r.
  - split; [constructor |].
    destruct (loopback_port c); simpl; [| reflexivity].
    now rewrite app_nil_r.
  - pose proof (forward_send_effect failure msg c) as Hf.
    destruct (forward_send failure msg c) as [[c1 ev1] r0].
    destruct Hf as (Hrun1 & Hlb1 & Hf). rewrite Hrun in Hrun1.
    assert (Hrest : forall h w1,
               let '(c', w', evs) := reader_loop_send cbs h rest c1 w1 in
               handled cbs (has_loopback c) rest w1 w' evs
               /\ loopback_port c'
                  = (fun sent => sent ++ forwarded rest)
                      <$> loopback_port c1).
    { intros h w1. specialize (IH h c1 w1 Hrun1).
      destruct (reader_loop_send cbs h rest c1 w1) as [[c' w'] evs].
      now rewrite Hlb1 in IH. }
    destruct Hf as [(Hlb & -> & [e ->] & -> & Hport)
                   | (Hfail & -> & -> & Hport)].
    + specialize (Hrest true w).
      destruct (reader_loop_send cbs true rest c1 w) as [[c' w'] evs].
      destruct Hrest as [Hh Hp]. cbn [app]. split.
      * now apply handled_send_raises.
      * rewrite Hp, Hport. unfold forwarded. cbn [flat_map snd app].
        reflexivity.
    + pose proof (run_callbacks_dispatched cbs 0 msg w) as Hd.
      destruct (run_callbacks cbs 0 msg w) as [[w1 ev2] r].
      assert (Hport' : forall c',
                 loopback_port c'
                 = (fun sent => sent ++ forwarded rest) <$> loopback_port c1 ->
                 loopback_port c'
                 = (fun sent => sent ++ forwarded ((msg, failure) :: rest))
                     <$> loopback_port c).
      { intros c' ->. rewrite Hport. unfold has_loopback in Hfail.
        destruct (loopback_port c) as [sent |]; [| reflexivity].
        rewrite (Hfail eq_refl). unfold forwarded.
        cbn [fmap option_fmap option_map flat_map snd fst].
        now rewrite <- app_assoc. }
      destruct r as [e |].
      * specialize (Hrest true w1).
        destruct (reader_loop_send cbs true rest c1 w1) as [[c' w'] evs].
        destruct Hrest as [Hh Hp]. split; [| now apply Hport'].
        exact (handled_dispatched cbs (has_loopback c) msg failure rest
                 w w1 w' ev2 (Some e) evs Hfail Hd Hh).
      * specialize (Hrest false w1).
        destruct (reader_loop_send cbs false rest c1 w1) as [[c' w'] evs].
        destruct Hrest as [Hh Hp]. split; [| now apply Hport'].
        exact (handled_dispatched cbs (has_loopback c) msg failure rest
                 w w1 w' ev2 None evs Hfail Hd Hh).
Qed.

Lemma handled_run cbs (loopback : bool)
  (inbound : list (Message * option exn)) w w' evs :
  handled cbs loopback inbound w w' evs ->
  forall (at_head : bool) c,
    running c = true -> has_loopback c = loopback ->
    exists c', reader_loop_send cbs at_head inbound c w = (c', w', evs).
Proof.
  induction 1 as [w | msg e rest w w' evs Hlb _ IH
                 | msg failure rest w w1 w' evs1 r evs Hfail Hd _ IH];
    intros at_head c Hrun Hc; cbn [reader_loop_send];
    rewrite Hrun, andb_false_r.
  - now exists c.
  - pose proof (forward_send_effect (Some e) msg c) as Hf.
    destruct (forward_send (Some e) msg c) as [[c1 ev1] r0].
    destruct Hf as (Hrun1 & Hlb1 & Hf). rewrite Hrun in Hrun1.
    rewrite Hc in Hlb1, Hf.
    destruct Hf as [(_ & <- & _ & -> & _) | (Hnone & _)];
      [| discriminate (Hnone Hlb)].
    destruct (IH true c1 Hrun1 Hlb1) as [c' ->]. now exists c'.
  - pose proof (forward_send_effect failure msg c) as Hf.
    destruct (forward_send failure msg c) as [[c1 ev1] r0].
    destruct Hf as (Hrun1 & Hlb1 & Hf). rewrite Hrun in Hrun1.
    rewrite Hc in Hlb1, Hf.
    destruct Hf as [(Hlb & <- & [e He] & _) | (_ & -> & -> & _)].
    { rewrite (Hfail Hlb) in He. discriminate He. }
    rewrite (dispatched_run cbs 0 msg w w1 evs1 r Hd).
    destruct r as [e |].
    + destruct (IH true c1 Hrun1 Hlb1) as [c' ->]. now exists c'.
    + destruct (IH false c1 Hrun1 Hlb1) as [c' ->]. exists c'.
      reflexivity.
Qed.

(** With no failing send the loop is the one above. *)
Lemma reader_loop_send_no_failure cbs
  (inbound : list (Message * option exn)) :
  Forall (fun m => m.2 = None) inbound ->
  forall (at_head : bool) c w,
    reader_loop_send cbs at_head inbound c w
    = reader_loop cbs at_head (map fst inbound) c w.
Proof.
  induction 1 as [| [msg failure] rest Hm _ IH]; intros at_head c w;
    cbn [reader_loop_send reader_loop map fst]; [reflexivity |].
  cbn [snd] in Hm. subst failure.
  destruct (at_head && negb (running c)); [reflexivity |].
  unfold forward_send, forward.
  destruct (loopback_port c) as [sent |];
    destruct (run_callbacks cbs 0 msg w) as [[w1 ev2] [e |]];
    now rewrite IH.
Qed.

(** C7, as the code has it.  While the controller is running, what the
    reader does for the messages the input port yields is what [handled]
    says, and nothing else: every message gives rise to one block of
    events, in the order of arrival; the message itself is forwarded to
    the loopback port when one is configured, before any callback; then
    the callbacks are called in the order of registration, each in the
    state the one before it left, all of them unless one raises.  An
    exception is printed only where the send or a callback has raised it;
    it ends the block: after a failing send no callback is called for the
    message, and the callbacks after a raising one are not called for it.
    The reader then goes on with the next message.  The loopback port has
    received exactly the inbound messages whose send did not fail,
    unchanged and in order.  When no send fails and no callback ever
    raises, every message is forwarded and then handed to every callback. *)
Theorem reader_forwards_then_dispatches cbs
  (inbound : list (Message * option exn)) c w :
  running c = true ->
  let '(c', w', evs) := _handle_input_send cbs inbound c w in
  handled cbs (has_loopback c) inbound w w' evs
  /\ (forall w'' evs',
        handled cbs (has_loopback c) inbound w w'' evs' ->
        w'' = w' /\ evs' = evs)
  /\ loopback_port c'
     = (fun sent => sent ++ forwarded inbound) <$> loopback_port c
  /\ (Forall (fun m => m.2 = None) inbound ->
      _handle_input cbs (map fst inbound) c w = (c', w', evs)
      /\ (Forall never_raises cbs ->
          evs = flat_map
                  (fun msg => block (has_loopback c) msg (length cbs) None)
                  (map fst inbound))).
Proof.
  intros Hrun. unfold _handle_input_send, _handle_input.
  pose proof (reader_loop_send_handled cbs inbound true c w Hrun) as H.
  pose proof (fun Hin => reader_loop_send_no_failure cbs inbound Hin
                           true c w) as Hsame.
  pose proof (fun Hcbs =>
                reader_loop_never_raise cbs (map fst inbound) Hcbs true c w
                  Hrun) as Hn.
  pose proof (fun w'' evs' Hh =>
                handled_run cbs (has_loopback c) inbound w w'' evs' Hh
                  true c Hrun eq_refl) as Hu.
  destruct (reader_loop_send cbs true inbound c w) as [[c' w'] evs].
  destruct H as [Hh Hport].
  split; [exact Hh |]. split; [| split; [exact Hport |]].
  - intros w'' evs' Hh'. destruct (Hu w'' evs' Hh') as [c'' E].
    now injection E as _ <- <-.
  - intros Hin. rewrite <- (Hsame Hin). split; [reflexivity |].
    intros Hcbs. rewrite <- (Hn Hcbs), <- (Hsame Hin). reflexivity.
Qed.
End ReaderProperties.

Lemma reader_forwards_then_dispatches_witness :
  running (LedController_init true) = true
  /\ snd (_handle_input_send [failing_callback; handle_midi_input]
            [(press 100, None); (release 100, Some (ValueError "send"))]
            (LedController_init true) blinking_track_configured)
     = [ Forwarded (press 100); Invoked 0 (press 100);
         Logged (ValueError "callback failed");
         Logged (ValueError "send") ]
  /\ loopback_port
       (fst (fst (_handle_input_send [failing_callback; handle_midi_input]
                    [(press 100, None);
                     (release 100, Some (ValueError "send"))]
                    (LedController_init true)
                    blinking_track_configured)))
     = Some [press 100].
Proof.
  split; [reflexivity |]. split; [vm_compute; reflexivity |].
  pose proof (reader_forwards_then_dispatches
                [failing_callback; handle_midi_input]
                [(press 100, None); (release 100, Some (ValueError "send"))]
                (LedController_init true)
                blinking_track_configured eq_refl) as H.
  destruct (_handle_input_send _ _ _ _) as [[c' w'] evs].
  destruct H as (_ & _ & Hport & _). exact Hport.
Defined.

(** C7, as the claim has it, fails.  Two callbacks are registered, a failing
    one and then the dashboard's handler.  For the press that arrives the
    message is forwarded, the first callback is called and its exception is
    printed; the second callback is not called, and the dashboard has sent
    nothing for the press. *)
Lemma reader_skips_callbacks_counterexample :
  let cbs :=
    add_button_callback handle_midi_input
      (add_button_callback failing_callback []) in
  let r :=
    _handle_input_send cbs [(press 100, None)] (LedController_init true)
      blinking_track_configured in
  length cbs = 2%nat
  /\ snd r = [ Forwarded (press 100); Invoked 0 (press 100);
               Logged (ValueError "callback failed") ]
  /\ ~ In (Invoked 1 (press 100)) (snd r)
  /\ sent_messages (snd (fst r)) = sent_messages blinking_track_configured.
Proof.
  cbv zeta. split; [reflexivity |].
  assert (E : snd (_handle_input_send
                     (add_button_callback handle_midi_input
                        (add_button_callback failing_callback []))
                     [(press 100, None)] (LedController_init true)
                     blinking_track_configured)
              = [ Forwarded (press 100); Invoked 0 (press 100);
                  Logged (ValueError "callback failed") ])
    by (vm_compute; reflexivity).
  split; [exact E |]. split; [| vm_compute; reflexivity].
  rewrite E. intros [H | [H | [H | []]]]; discriminate H.
Qed.

(** * Further properties *)

(** ** Enumerations *)

(** X1.  [ButtonType(b.value)] is [b] again; the range test of the dashboard
    ([0x64 <= note <= 0x6B or 0x70 <= note <= 0x77]) holds exactly of the
    values of the enumeration, so [ButtonType(note)] never raises behind
    it; and no button note is a pad note 0..63. *)
Theorem ButtonType_notes (n : Z) :
  (forall b : ButtonType, ButtonType_of_value (ButtonType_value b) = Some b)
  /\ (is_track_or_scene n = true <-> exists b, ButtonType_value b = n)
  /\ (is_track_or_scene n = true <-> is_Some (ButtonType_of_value n))
  /\ (is_track_or_scene n = true -> ~ 0 <= n <= 63).
Proof.
  assert (Hrt : forall b : ButtonType,
             ButtonType_of_value (ButtonType_value b) = Some b)
    by (intros b; destruct b; reflexivity).
  split; [exact Hrt |].
  assert (H1 : is_track_or_scene n = true <-> exists b, ButtonType_value b = n).
  { split.
    - intros H. destruct (ButtonType_of_value_range n H) as (b & _ & Hb).
      now exists b.
    - intros [b <-]. apply ButtonType_value_range. }
  split; [exact H1 |]. split.
  - rewrite H1. split.
    + intros [b <-]. rewrite Hrt. now eexists.
    + intros [b Hb]. exists b. unfold ButtonType_of_value in Hb.
      apply find_some in Hb as [_ Hb]. now apply Z.eqb_eq.
  - unfold is_track_or_scene. rewrite orb_true_iff, !in_range_true. lia.
Qed.

Lemma ButtonType_notes_witness :
  is_track_or_scene 100 = true /\ ~ 0 <= 100 <= 63.
Proof.
  split; [reflexivity |].
  apply (proj2 (proj2 (proj2 (ButtonType_notes 100)))). reflexivity.
Defined.

(** X2.  [PadColor[c.name]] and [PadColor(c.value)] are [c] again, so neither
    two names nor two values of the palette coincide, and every entry of
    the colour combo boxes names a colour: [PadColor[text]] does not raise
    for it. *)
Theorem PadColor_round_trips :
  (forall c : PadColor, PadColor_getitem (PadColor_name c) = Some c)
  /\ (forall c : PadColor, PadColor_of_value (PadColor_value c) = Some c)
  /\ (forall c1 c2 : PadColor, PadColor_name c1 = PadColor_name c2 -> c1 = c2)
  /\ (forall c1 c2 : PadColor,
         PadColor_value c1 = PadColor_value c2 -> c1 = c2)
  /\ (forall text : string,
         In text color_names -> is_Some (PadColor_getitem text))
  /\ (forall (name : string) (c : PadColor),
         PadColor_getitem name = Some c -> PadColor_name c = name).
Proof.
  assert (Hn : forall c, PadColor_getitem (PadColor_name c) = Some c)
    by (intros c; destruct c; reflexivity).
  assert (Hv : forall c, PadColor_of_value (PadColor_value c) = Some c)
    by (intros c; destruct c; reflexivity).
  split; [exact Hn |]. split; [exact Hv |].
  split; [| split; [| split]].
  - intros c1 c2 E. pose proof (Hn c1) as H1. rewrite E, Hn in H1.
    now injection H1.
  - intros c1 c2 E. pose proof (Hv c1) as H1. rewrite E, Hv in H1.
    now injection H1.
  - intros text Ht. unfold color_names in Ht.
    apply in_map_iff in Ht as (c & <- & _). rewrite Hn. now eexists.
  - intros name c H. unfold PadColor_getitem in H.
    apply find_some in H as [_ H]. now apply String.eqb_eq.
Qed.

Lemma PadColor_round_trips_witness :
  In (PadColor_name RED) color_names
  /\ is_Some (PadColor_getitem (PadColor_name RED)).
Proof.
  assert (H : In (PadColor_name RED) color_names).
  { unfold color_names. apply in_map. simpl. tauto. }
  split; [exact H |].
  exact (proj1 (proj2 (proj2 (proj2 (proj2 PadColor_round_trips)))) _ H).
Defined.

(** ** Sequences of pad writes *)

Lemma write_all_ok (ws : list (Z * PadColor * Z)) :
  Forall valid_write ws ->
  forall (c : LedController) (sent : list Message),
    output_port c = Some sent ->
    write_all ws c =
      (set_output_port (Some (sent ++ map write_message ws))
         (set_led_states (store_after ws) c),
       Return tt).
Proof.
  unfold write_all.
  induction 1 as [| [[n col] ch] ws [Hn Hch] _ IH]; intros c sent Hp.
  - simpl. unfold ret. destruct c; simpl in *; subst.
    now rewrite app_nil_r.
  - simpl in Hn, Hch. cbn [for_each]. unfold bind at 1. unfold bind at 1.
    rewrite (set_pad_color_ok c sent n col ch Hch Hn Hp).
    unfold ret at 1. erewrite IH by reflexivity.
    destruct c; simpl in *.
    unfold set_output_port, set_led_states, write_message; simpl.
    now rewrite <- app_assoc.
Qed.

Lemma last_write_snoc (n : Z) (ws : list (Z * PadColor * Z))
  (w : Z * PadColor * Z) :
  last_write n (ws ++ [w])
  = if decide (w.1.1 = n) then Some w else last_write n ws.
Proof.
  unfold last_write. rewrite filter_app.
  destruct (decide (w.1.1 = n)) as [E | E].
  - rewrite (filter_cons_True _ w []) by exact E.
    now rewrite filter_nil, last_snoc.
  - rewrite (filter_cons_False _ w []) by exact E.
    now rewrite filter_nil, app_nil_r.
Qed.

Lemma store_after_lookup (ws : list (Z * PadColor * Z))
  (st : gmap Z LedState) (n : Z) :
  store_after ws st !! n
  = match last_write n ws with
    | Some w => Some (LedState_of w.1.2)
    | None => st !! n
    end.
Proof.
  induction ws as [| w ws IH] using rev_ind; [reflexivity |].
  unfold store_after in *. rewrite foldl_app. cbn [foldl].
  rewrite last_write_snoc.
  destruct (decide (w.1.1 = n)) as [<- | E].
  - apply lookup_insert_eq.
  - rewrite lookup_insert_ne by exact E. exact IH.
Qed.

Lemma last_filter_app {A} (P : A -> Prop) `{!forall x, Decision (P x)}
  (l1 l2 : list A) :
  last (filter P (l1 ++ l2))
  = match last (filter P l2) with
    | Some x => Some x
    | None => last (filter P l1)
    end.
Proof.
  rewrite filter_app.
  destruct (filter P l2) as [| x l] using rev_ind.
  - now rewrite app_nil_r.
  - now rewrite app_assoc, !last_snoc.
Qed.

Lemma last_sent_writes (n : Z) (ws : list (Z * PadColor * Z)) :
  last (filter (fun m => msg_note m = n) (map write_message ws))
  = write_message <$> last_write n ws.
Proof.
  induction ws as [| w ws IH] using rev_ind; [reflexivity |].
  rewrite map_app, last_filter_app, last_write_snoc. cbn [map].
  destruct (decide (w.1.1 = n)) as [E | E].
  - now rewrite (filter_cons_True _ (write_message w) []) by exact E.
  - rewrite (filter_cons_False _ (write_message w) []) by exact E.
    cbn [last filter]. exact IH.
Qed.

Lemma for_each_app {S A} (body : A -> M S unit) (xs ys : list A) (s : S) :
  for_each (xs ++ ys) body s = (for_each xs body ;;; for_each ys body) s.
Proof.
  revert s. induction xs as [| x xs IH]; intros s; [reflexivity |].
  cbn [app for_each]. unfold bind in *.
  destruct (body x s) as [s1 [[] | e]]; [apply IH | reflexivity].
Qed.

(** A pad write whose note does not fit a data byte: the colour is stored,
    building the message fails, nothing is sent. *)
Lemma set_pad_color_bad_note (c : LedController) (sent : list Message)
  (note : Z) (color : PadColor) (channel : Z) :
  0 <= channel <= 15 -> ~ 0 <= note <= 127 -> output_port c = Some sent ->
  set_pad_color note color channel c =
    (set_led_states (fun st => <[note := LedState_of color]> st) c,
     Raise (ValueError "data byte must be in range 0..127")).
Proof.
  intros Hch Hn Hp. unfold set_pad_color.
  assert (E1 : in_range 0 channel 15 = true) by now apply in_range_true.
  assert (E2 : in_range 0 note 127 = false) by (apply in_range_false; lia).
  rewrite E1. cbn [negb].
  unfold bind, modify, output_port_send, mido_Message.
  cbn [output_port set_led_states].
  rewrite Hp, E1, E2. reflexivity.
Qed.

(** X3.  Pad writes compose by "the last write wins", and the state store
    follows the wire.  Take a sequence of writes that pass the channel
    check, on an open output port.  When every note fits a data byte
    (0..127), all the writes are made: the store holds for every note the
    colour of the last write to it, the last message sent for that note is
    the one of that write, and a note no write was for keeps its entry and
    its last message.  Otherwise the sequence ends at the first write whose
    note does not fit: the writes before it were made and sent, this one
    has put its colour into the store and sent nothing, and the
    [ValueError] of the message goes to the caller. *)
Theorem pad_writes_last_wins (ws : list (Z * PadColor * Z))
  (c : LedController) (sent : list Message) :
  Forall (fun w => 0 <= w.2 <= 15) ws -> output_port c = Some sent ->
  let '(c', r) := write_all ws c in
  (Forall (fun w => 0 <= w.1.1 <= 127) ws ->
   r = Return tt
   /\ forall n : Z,
        match last_write n ws with
        | Some w =>
            led_states c' !! n = Some (LedState_of w.1.2)
            /\ last_sent n c' = Some (write_message w)
        | None =>
            led_states c' !! n = led_states c !! n
            /\ last_sent n c' = last_sent n c
        end)
  /\ (forall (done : list (Z * PadColor * Z)) (w : Z * PadColor * Z)
             (rest : list (Z * PadColor * Z)),
        ws = done ++ w :: rest ->
        Forall (fun w => 0 <= w.1.1 <= 127) done ->
        ~ 0 <= w.1.1 <= 127 ->
        r = Raise (ValueError "data byte must be in range 0..127")
        /\ led_states c'
           = <[w.1.1 := LedState_of w.1.2]>
               (store_after done (led_states c))
        /\ output_port c' = Some (sent ++ map write_message done)).
Proof.
  intros Hch Hp.
  assert (Hvalid : forall l : list (Z * PadColor * Z),
             Forall (fun w => 0 <= w.2 <= 15) l ->
             Forall (fun w => 0 <= w.1.1 <= 127) l ->
             Forall valid_write l).
  { intros l H1 H2. rewrite Forall_forall in *. intros w Hw.
    split; [exact (H2 w Hw) | exact (H1 w Hw)]. }
  destruct (write_all ws c) as [c' r] eqn:E. split.
  - intros Hn. rewrite (write_all_ok ws (Hvalid ws Hch Hn) c sent Hp) in E.
    injection E as <- <-. split; [reflexivity |]. intros n.
    unfold last_sent.
    cbn [led_states output_port set_output_port set_led_states].
    rewrite store_after_lookup, Hp. simpl default.
    rewrite last_filter_app, last_sent_writes.
    destruct (last_write n ws) as [w |]; simpl; auto.
  - intros done [[n col] ch] rest -> Hdone Hbad. cbn [fst snd] in *.
    apply Forall_app in Hch as [Hch1 Hch2].
    apply Forall_cons in Hch2 as [Hw _]. cbn [snd] in Hw.
    unfold write_all in E. rewrite for_each_app in E.
    unfold bind at 1 in E. fold (write_all done) in E.
    rewrite (write_all_ok done (Hvalid done Hch1 Hdone) c sent Hp) in E.
    cbn [for_each] in E. unfold bind at 1 2 in E.
    rewrite (set_pad_color_bad_note
               (set_output_port (Some (sent ++ map write_message done))
                  (set_led_states (store_after done) c))
               (sent ++ map write_message done)
               n col ch Hw Hbad eq_refl) in E.
    injection E as <- <-.
    cbn [led_states output_port set_output_port set_led_states].
    auto.
Qed.

Lemma pad_writes_last_wins_witness :
  Forall (fun w : Z * PadColor * Z => 0 <= w.2 <= 15)
    [(3, RED, 6); (4, BLUE, 2); (3, GREEN, 11)]
  /\ Forall (fun w : Z * PadColor * Z => 0 <= w.1.1 <= 127)
       [(3, RED, 6); (4, BLUE, 2); (3, GREEN, 11)]
  /\ led_states
       (fst (write_all [(3, RED, 6); (4, BLUE, 2); (3, GREEN, 11)]
               (LedController_init false))) !! 3
     = Some (LedState_of GREEN)
  /\ last_sent 3
       (fst (write_all [(3, RED, 6); (4, BLUE, 2); (3, GREEN, 11)]
               (LedController_init false)))
     = Some (pad_message 3 GREEN 11)
  /\ snd (write_all [(3, RED, 6); (128, BLUE, 2); (3, GREEN, 11)]
            (LedController_init false))
     = Raise (ValueError "data byte must be in range 0..127")
  /\ output_port
       (fst (write_all [(3, RED, 6); (128, BLUE, 2); (3, GREEN, 11)]
               (LedController_init false)))
     = Some [pad_message 3 RED 6].
Proof.
  assert (Hc : Forall (fun w : Z * PadColor * Z => 0 <= w.2 <= 15)
                 [(3, RED, 6); (4, BLUE, 2); (3, GREEN, 11)])
    by (repeat constructor; simpl; lia).
  assert (Hn : Forall (fun w : Z * PadColor * Z => 0 <= w.1.1 <= 127)
                 [(3, RED, 6); (4, BLUE, 2); (3, GREEN, 11)])
    by (repeat constructor; simpl; lia).
  split; [exact Hc |]. split; [exact Hn |].
  pose proof (pad_writes_last_wins _ (LedController_init false) [] Hc
                eq_refl) as H.
  pose proof (pad_writes_last_wins
                [(3, RED, 6); (128, BLUE, 2); (3, GREEN, 11)]
                (LedController_init false) []
                ltac:(repeat constructor; simpl; lia) eq_refl) as H'.
  destruct (write_all [(3, RED, 6); (4, BLUE, 2); (3, GREEN, 11)] _)
    as [c' r].
  destruct (write_all [(3, RED, 6); (128, BLUE, 2); (3, GREEN, 11)] _)
    as [c'' r'].
  destruct H as [H _]. destruct (H Hn) as [_ H3]. specialize (H3 3).
  destruct H' as [_ H'].
  destruct (H' [(3, RED, 6)] (128, BLUE, 2) [(3, GREEN, 11)] eq_refl
              ltac:(repeat constructor; simpl; lia) ltac:(simpl; lia))
    as (Hr & _ & Hout).
  cbn [fst snd]. destruct H3 as [H3 H4].
  split; [exact H3 |]. split; [exact H4 |]. split; [exact Hr | exact Hout].
Defined.

(** X4.  A pad write on a controller whose output port is closed (as after
    [cleanup]) raises for the missing port and sends nothing, but it has
    already put the colour into the state store: the store then says what
    the device does not show.  A button write in the same situation leaves
    everything as it is. *)
Theorem writes_on_closed_port (c : LedController) (note : Z)
  (color : PadColor) (channel : Z) (button : ButtonType) (velocity : Z) :
  0 <= channel <= 15 -> output_port c = None ->
  set_pad_color note color channel c =
    (set_led_states (fun st => <[note := LedState_of color]> st) c,
     Raise (AttributeError "'NoneType' object has no attribute 'send'"))
  /\ output_port (fst (set_pad_color note color channel c)) = None
  /\ led_states (fst (set_pad_color note color channel c)) !! note
     = Some (LedState_of color)
  /\ set_button_color button velocity c =
       (c, Raise (AttributeError "'NoneType' object has no attribute 'send'"))
  /\ output_port (cleanup c) = None.
Proof.
  intros Hch Hp. apply in_range_true in Hch.
  assert (E : set_pad_color note color channel c =
              (set_led_states (fun st => <[note := LedState_of color]> st) c,
               Raise (AttributeError
                        "'NoneType' object has no attribute 'send'"))).
  { unfold set_pad_color. rewrite Hch. simpl.
    unfold bind, modify, output_port_send. simpl. now rewrite Hp. }
  rewrite E. simpl. split; [reflexivity |]. split; [exact Hp |].
  split; [apply lookup_insert_eq |]. split; [| reflexivity].
  unfold set_button_color, output_port_send. now rewrite Hp.
Qed.

Lemma writes_on_closed_port_witness :
  output_port (cleanup (LedController_init false)) = None
  /\ led_states
       (fst (set_pad_color 7 RED 6 (cleanup (LedController_init false)))) !! 7
     = Some (LedState_of RED).
Proof.
  split; [reflexivity |].
  apply (writes_on_closed_port (cleanup (LedController_init false)) 7 RED 6
           TRACK_1 1 ltac:(lia) eq_refl).
Defined.

(** X5.  [set_all_pads] on an open output port returns normally; the store
    then holds the colour for every pad note 0..63 and what it held for
    every other note, and 64 messages went out, for the notes 0..63 in
    this order, on the default channel 6. *)
Theorem set_all_pads_effect (color : PadColor) (c : LedController)
  (sent : list Message) :
  output_port c = Some sent ->
  let '(c', r) := set_all_pads color c in
  r = Return tt
  /\ (forall n, 0 <= n <= 63 -> led_states c' !! n = Some (LedState_of color))
  /\ (forall n, ~ 0 <= n <= 63 -> led_states c' !! n = led_states c !! n)
  /\ output_port c' =
       Some (sent ++ map (fun n => pad_message n color 6) (range 64)).
Proof.
  intros Hp. unfold set_all_pads.
  rewrite (for_each_set_pad_color color default_channel (range 64)
             ltac:(unfold default_channel; lia)) with (sent := sent);
    [| | exact Hp].
  - cbn [led_states output_port set_output_port set_led_states].
    split; [reflexivity |].
    split; [| split; [| reflexivity]]; intros n Hn;
      rewrite lookup_foldl_insert.
    + rewrite decide_True; [reflexivity |]. apply elem_of_range. lia.
    + rewrite decide_False; [reflexivity |]. rewrite elem_of_range. lia.
  - apply Forall_forall. intros n Hn. apply elem_of_range in Hn. lia.
Qed.

Lemma set_all_pads_effect_witness :
  output_port (LedController_init false) = Some []
  /\ led_states (fst (set_all_pads WHITE (LedController_init false))) !! 63
     = Some (LedState_of WHITE).
Proof.
  split; [reflexivity |].
  pose proof (set_all_pads_effect WHITE (LedController_init false) []
                eq_refl) as H.
  destruct (set_all_pads WHITE (LedController_init false)) as [c' r].
  destruct H as (_ & H & _). apply H. lia.
Defined.

(** X6.  [switch_channel] puts the [channel] attribute on 0 or 6, never
    back on the 9 of [__init__] (from 9 it goes to 0, then to 6); from 0 or
    6 two calls give the controller back; and the attribute has no part in
    a write: [set_pad_color] sends and stores the same with and without the
    switch. *)
Theorem switch_channel_effect (c : LedController) :
  (channel (switch_channel c) = 0 \/ channel (switch_channel c) = 6)
  /\ (channel c = 0 \/ channel c = 6 ->
      switch_channel (switch_channel c) = c)
  /\ (channel c <> 0 ->
      channel (switch_channel c) = 0
      /\ channel (switch_channel (switch_channel c)) = 6)
  /\ (forall (note : Z) (color : PadColor) (ch : Z),
         set_pad_color note color ch (switch_channel c)
         = (switch_channel (fst (set_pad_color note color ch c)),
            snd (set_pad_color note color ch c))).
Proof.
  unfold switch_channel. split; [| split; [| split]].
  - destruct (channel c =? 0); simpl; auto.
  - intros [E | E]; destruct c; simpl in *; subst; reflexivity.
  - intros Hne. apply Z.eqb_neq in Hne. simpl. now rewrite Hne.
  - intros note color ch. unfold set_pad_color.
    destruct (in_range 0 ch 15); simpl; [| reflexivity].
    unfold bind, modify, output_port_send, ret. simpl.
    destruct (output_port c); simpl; [| reflexivity].
    destruct (mido_Message _ _ _ _); reflexivity.
Qed.

Lemma switch_channel_effect_witness :
  channel (LedController_init false) <> 0
  /\ channel (switch_channel (switch_channel (LedController_init false))) = 6.
Proof.
  assert (H : channel (LedController_init false) <> 0) by discriminate.
  split; [exact H |].
  exact (proj2 (proj1 (proj2 (proj2 (switch_channel_effect
                                       (LedController_init false)))) H)).
Defined.

(** ** [set_grid_pattern] *)

Lemma last_write_NoDup (ws : list (Z * PadColor * Z)) (w : Z * PadColor * Z) :
  NoDup (map (fun w => w.1.1) ws) -> In w ws -> last_write w.1.1 ws = Some w.
Proof.
  induction ws as [| w' ws IH] using rev_ind; [intros _ [] |].
  rewrite map_app. cbn [map]. intros Hnd Hin.
  apply NoDup_app in Hnd as (Hnd & Hdisj & _).
  rewrite last_write_snoc.
  apply in_app_or in Hin as [Hin | [-> | []]].
  - rewrite decide_False; [now apply IH |].
    intros E. apply (Hdisj w.1.1).
    + apply list_elem_of_In, in_map_iff. now exists w.
    + rewrite E. apply list_elem_of_In. now left.
  - now rewrite decide_True.
Qed.

Lemma last_write_None (ws : list (Z * PadColor * Z)) (n : Z) :
  ~ In n (map (fun w => w.1.1) ws) -> last_write n ws = None.
Proof.
  induction ws as [| w ws IH] using rev_ind; [reflexivity |].
  rewrite map_app, in_app_iff. cbn [map In]. intros Hn.
  rewrite last_write_snoc, decide_False by tauto. apply IH. tauto.
Qed.

Lemma grid_cells_notes :
  map (fun rc : Z * Z => rc.1 * 8 + rc.2) grid_cells = range 64.
Proof. reflexivity. Qed.

Lemma NoDup_range (n : nat) : NoDup (range n).
Proof.
  unfold range. apply NoDup_fmap_2; [intros x y; lia | apply NoDup_seq].
Qed.

Lemma In_grid_cells (row col : Z) :
  In (row, col) grid_cells <-> 0 <= row <= 7 /\ 0 <= col <= 7.
Proof.
  unfold grid_cells. rewrite in_flat_map. split.
  - intros (r & Hr & Hin). apply in_map_iff in Hin as (c' & [= <- <-] & Hc).
    apply list_elem_of_In, elem_of_range in Hr, Hc. lia.
  - intros [Hr Hc]. exists row. split.
    + apply list_elem_of_In, elem_of_range. lia.
    + apply in_map_iff. exists col. split; [reflexivity |].
      apply list_elem_of_In, elem_of_range. lia.
Qed.

(** The cells done before any lookup in the pattern fails. *)
Lemma set_grid_cells_ok (pattern : list (list PadColor))
  (cells : list (Z * Z)) :
  Forall (fun rc => is_Some (pattern_at pattern rc.1 rc.2)
                    /\ 0 <= rc.1 * 8 + rc.2 <= 127) cells ->
  forall (rest : list (Z * Z)) (c : LedController) (sent : list Message),
    output_port c = Some sent ->
    set_grid_cells (cells ++ rest) pattern c =
      set_grid_cells rest pattern
        (set_output_port
           (Some (sent ++ map write_message (map (cell_write pattern) cells)))
           (set_led_states (store_after (map (cell_write pattern) cells)) c)).
Proof.
  induction 1 as [| [row col] cells [[color Hcol] Hn] _ IH];
    intros rest c sent Hp.
  - simpl. f_equal. destruct c; simpl in *; subst. now rewrite app_nil_r.
  - simpl in Hcol, Hn.
    change (((row, col) :: cells) ++ rest)
      with ((row, col) :: (cells ++ rest)).
    cbn [set_grid_cells]. rewrite Hcol.
    rewrite (set_pad_color_ok c sent (row * 8 + col) color default_channel
               ltac:(unfold default_channel; lia) Hn Hp).
    erewrite IH by reflexivity. f_equal.
    destruct c; simpl in *.
    unfold set_output_port, set_led_states, write_message, cell_write,
      store_after; simpl.
    rewrite Hcol. simpl. now rewrite <- app_assoc.
Qed.

(** X7.  [set_grid_pattern] with a pattern that has a colour for each of the
    8 x 8 cells, on an open output port, returns normally; the pad of note
    [n] in 0..63 then holds the colour the pattern has at the row and
    column [_get_row_col] gives for [n], the other entries of the store are
    what they were, and 64 messages went out on the default channel. *)
Theorem set_grid_pattern_effect (pattern : list (list PadColor))
  (c : LedController) (sent : list Message) :
  (forall row col, 0 <= row <= 7 -> 0 <= col <= 7 ->
                   is_Some (pattern_at pattern row col)) ->
  output_port c = Some sent ->
  let '(c', r) := set_grid_pattern pattern c in
  r = PatternDone
  /\ (forall n, 0 <= n <= 63 ->
                color <$> led_states c' !! n
                = pattern_at pattern (_get_row_col n).1 (_get_row_col n).2)
  /\ (forall n, ~ 0 <= n <= 63 -> led_states c' !! n = led_states c !! n)
  /\ exists new,
       output_port c' = Some (sent ++ new) /\ length new = 64%nat
       /\ Forall (fun m => msg_channel m = 6) new.
Proof.
  intros Hfull Hp. unfold set_grid_pattern.
  pose proof (set_grid_cells_ok pattern grid_cells) as H.
  replace (set_grid_cells grid_cells pattern c)
    with (set_grid_cells (grid_cells ++ []) pattern c)
    by now rewrite app_nil_r.
  rewrite (H ltac:(apply Forall_forall; intros [row col] Hin;
                   apply list_elem_of_In, In_grid_cells in Hin; simpl;
                   split; [apply Hfull; lia | lia]) [] c sent Hp).
  cbn [set_grid_cells led_states output_port set_output_port set_led_states].
  split; [reflexivity |].
  assert (Hnotes : map (fun w : Z * PadColor * Z => w.1.1)
                     (map (cell_write pattern) grid_cells) = range 64).
  { rewrite map_map. exact grid_cells_notes. }
  split; [| split].
  - intros n Hn. rewrite store_after_lookup.
    assert (Hin : In (cell_write pattern (n / 8, n mod 8))
                    (map (cell_write pattern) grid_cells)).
    { apply in_map, In_grid_cells.
      pose proof (Z.mod_pos_bound n 8 ltac:(lia)).
      assert (0 <= n / 8 < 8)
        by (split; [apply Z.div_pos | apply Z.div_lt_upper_bound]; lia).
      lia. }
    pose proof (last_write_NoDup _ _
                  ltac:(rewrite Hnotes; apply NoDup_range)
                  Hin) as Hl.
    assert (Hnote : (cell_write pattern (n / 8, n mod 8)).1.1 = n).
    { simpl. pose proof (Z.div_mod n 8 ltac:(lia)). lia. }
    rewrite Hnote in Hl. rewrite Hl. simpl.
    unfold _get_row_col. simpl.
    destruct (Hfull (n / 8) (n mod 8)) as [col ->].
    + split; [apply Z.div_pos | ]; try lia.
      assert (n / 8 < 8) by (apply Z.div_lt_upper_bound; lia). lia.
    + pose proof (Z.mod_pos_bound n 8 ltac:(lia)). lia.
    + reflexivity.
  - intros n Hn. rewrite store_after_lookup, last_write_None; [reflexivity |].
    rewrite Hnotes. intros Hin. apply list_elem_of_In, elem_of_range in Hin.
    lia.
  - eexists. split; [reflexivity |]. split.
    + now rewrite !length_map.
    + apply Forall_forall. intros m Hm.
      apply list_elem_of_In, in_map_iff in Hm as (w & <- & Hw).
      apply in_map_iff in Hw as (rc & <- & _). reflexivity.
Qed.

Lemma set_grid_pattern_effect_witness :
  let pattern := repeat (repeat GREEN 7 ++ [RED]) 8 in
  output_port (LedController_init false) = Some []
  /\ color <$> led_states
                 (fst (set_grid_pattern pattern
                         (LedController_init false))) !! 15
     = Some RED.
Proof.
  cbv zeta. split; [reflexivity |].
  pose proof (set_grid_pattern_effect (repeat (repeat GREEN 7 ++ [RED]) 8)
                (LedController_init false) []) as H.
  assert (Hfull : forall row col, 0 <= row <= 7 -> 0 <= col <= 7 ->
            is_Some (pattern_at (repeat (repeat GREEN 7 ++ [RED]) 8)
                       row col)).
  { intros row col Hr Hc.
    assert (Hrow : row = 0 \/ row = 1 \/ row = 2 \/ row = 3 \/ row = 4
                   \/ row = 5 \/ row = 6 \/ row = 7) by lia.
    assert (Hcol : col = 0 \/ col = 1 \/ col = 2 \/ col = 3 \/ col = 4
                   \/ col = 5 \/ col = 6 \/ col = 7) by lia.
    destruct Hrow as [-> | [-> | [-> | [-> | [-> | [-> | [-> | ->]]]]]]];
      destruct Hcol as [-> | [-> | [-> | [-> | [-> | [-> | [-> | ->]]]]]]];
      now eexists. }
  specialize (H Hfull eq_refl).
  destruct (set_grid_pattern _ _) as [c' r].
  destruct H as (_ & H & _). cbn [fst]. rewrite (H 15 ltac:(lia)).
  reflexivity.
Defined.

(** X8.  When the pattern has no colour for a cell, [set_grid_pattern] stops
    there with the [IndexError]: the pads of the cells the loops visited
    before it, row by row, have been written and sent, nothing after them.
    A pattern that is too short leaves the grid partly repainted. *)
Theorem set_grid_pattern_index_error (pattern : list (list PadColor))
  (c : LedController) (sent : list Message)
  (before after : list (Z * Z)) (row col : Z) :
  grid_cells = before ++ (row, col) :: after ->
  (forall rc, In rc before -> is_Some (pattern_at pattern rc.1 rc.2)) ->
  pattern_at pattern row col = None ->
  output_port c = Some sent ->
  let '(c', r) := set_grid_pattern pattern c in
  r = PatternIndexError row col
  /\ led_states c' = store_after (map (cell_write pattern) before)
                       (led_states c)
  /\ output_port c' =
       Some (sent ++ map write_message (map (cell_write pattern) before))
  /\ (forall n, ~ In n (map (fun rc : Z * Z => rc.1 * 8 + rc.2) before) ->
                led_states c' !! n = led_states c !! n).
Proof.
  intros Hsplit Hbefore Hnone Hp. unfold set_grid_pattern. rewrite Hsplit.
  rewrite (set_grid_cells_ok pattern before) with (sent := sent);
    [| | exact Hp].
  - cbn [set_grid_cells]. rewrite Hnone.
    cbn [led_states output_port set_output_port set_led_states].
    split; [reflexivity |]. split; [reflexivity |].
    split; [reflexivity |].
    intros n Hn. rewrite store_after_lookup, last_write_None; [reflexivity |].
    now rewrite map_map.
  - apply Forall_forall. intros rc Hrc. apply list_elem_of_In in Hrc.
    split; [now apply Hbefore |].
    assert (Hin : In rc grid_cells)
      by (rewrite Hsplit; apply in_or_app; now left).
    destruct rc as [r c0]. apply In_grid_cells in Hin. simpl. lia.
Qed.

Lemma set_grid_pattern_index_error_witness :
  let pattern := [repeat BLUE 8] in
  let r := set_grid_pattern pattern (LedController_init false) in
  snd r = PatternIndexError 1 0
  /\ led_states (fst r) !! 7 = Some (LedState_of BLUE)
  /\ led_states (fst r) !! 8 = None.
Proof.
  cbv zeta.
  pose proof (set_grid_pattern_index_error [repeat BLUE 8]
                (LedController_init false) []
                (map (fun col => (0, col)) (range 8))
                (map (fun col => (1, col)) (range 7 ≫= fun c => [c + 1])
                 ++ flat_map (fun row => map (fun col => (row, col))
                                           (range 8))
                      (range 6 ≫= fun r => [r + 2]))
                1 0 eq_refl) as H.
  assert (Hb : forall rc : Z * Z,
             In rc (map (fun col => (0, col)) (range 8)) ->
             is_Some (pattern_at [repeat BLUE 8] rc.1 rc.2)).
  { intros rc Hin. simpl in Hin.
    repeat (destruct Hin as [<- | Hin]; [now eexists |]). contradiction. }
  specialize (H Hb eq_refl eq_refl).
  destruct (set_grid_pattern _ _) as [c' r]. destruct H as (Hr & Hst & _).
  cbn [fst snd]. split; [exact Hr |]. rewrite Hst.
  split; reflexivity.
Defined.

(** ** The dashboard: channels *)

(** X9.  [get_animation_channel] gives a channel in 6..15 for every text, so
    a pad write of the press-behaviour engine never fails the channel
    check.  For the entries of the press-behaviour animation boxes it gives
    6 for the first ("Statisch") and [7 + i - 1] for entry [i], the channel
    the global selection computes from the index; and an entry has the
    blink marker "Blinken", which makes a button blink, exactly when its
    channel is one of the blink channels 11..15. *)
Theorem get_animation_channel_options :
  (forall text : string, 6 <= get_animation_channel text <= 15)
  /\ (forall i : nat,
         (i < length press_animation_options)%nat ->
         get_animation_channel (nth i press_animation_options ""%string)
         = if decide (i = 0%nat) then 6 else 7 + Z.of_nat i - 1)
  /\ (forall text : string,
         In text press_animation_options ->
         (str_in "Blinken" text = true
          <-> 11 <= get_animation_channel text <= 15)
         /\ (str_in "Pulsieren" text = true
             <-> 7 <= get_animation_channel text <= 10)).
Proof.
  split; [exact get_animation_channel_range |].
  split.
  - intros i Hi. simpl in Hi.
    do 10 (destruct i as [| i]; [reflexivity |]). lia.
  - intros text Ht.
    assert (Hb : str_in "Blinken" text
                 = in_range 11 (get_animation_channel text) 15
                 /\ str_in "Pulsieren" text
                    = in_range 7 (get_animation_channel text) 10).
    { simpl in Ht.
      repeat (destruct Ht as [<- | Ht]; [split; reflexivity |]).
      contradiction. }
    destruct Hb as [-> ->]. split; apply in_range_true.
Qed.

Lemma get_animation_channel_options_witness :
  (1 < length press_animation_options)%nat
  /\ get_animation_channel (nth 1 press_animation_options ""%string) = 7.
Proof.
  assert (H : (1 < length press_animation_options)%nat) by (simpl; lia).
  split; [exact H |].
  exact (proj1 (proj2 get_animation_channel_options) 1%nat H).
Defined.

(** ** The dashboard: messages that change nothing *)

Lemma LedButton_init_fields (n : Z) (rgb : bool) :
  press_behavior_enabled (LedButton_init n rgb) = false
  /\ note (LedButton_init n rgb) = n
  /\ is_rgb (LedButton_init n rgb) = rgb.
Proof.
  unfold LedButton_init, setColor.
  destruct rgb; simpl; [auto |].
  destruct (in_range 100 n 107), (in_range 112 n 119); simpl; auto.
Qed.

Lemma initial_buttons_lookup (n : Z) (b : LedButton) :
  initial_buttons !! n = Some b ->
  press_behavior_enabled b = false /\ note b = n
  /\ is_rgb b = negb (is_track_or_scene n).
Proof.
  unfold initial_buttons. intros H.
  apply elem_of_list_to_map_2, list_elem_of_In in H.
  rewrite !in_app_iff, !in_map_iff in H.
  assert (Hcase : exists rgb, b = LedButton_init n rgb
                              /\ rgb = negb (is_track_or_scene n)).
  { unfold is_track_or_scene, in_range.
    destruct H as [(k & [= <- <-] & Hk) | [(k & [= <- <-] & Hk)
                                          | (k & [= <- <-] & Hk)]];
      apply list_elem_of_In, elem_of_range in Hk;
      eexists; (split; [reflexivity |]); symmetry.
    - apply negb_true_iff, orb_false_iff.
      rewrite !andb_false_iff, !Z.leb_gt. lia.
    - apply negb_false_iff, orb_true_iff. right.
      rewrite andb_true_iff, !Z.leb_le. lia.
    - apply negb_false_iff, orb_true_iff. left.
      rewrite andb_true_iff, !Z.leb_le. lia. }
  destruct Hcase as (rgb & -> & ->).
  apply LedButton_init_fields.
Qed.

(** X10.  [handle_midi_input] returns normally and leaves the whole
    dashboard, controller included, as it is for a message that is neither
    [note_on] nor [note_off], for a note the dashboard has no button for,
    and for a control whose press behaviour is not enabled.  On a dashboard
    on which no control was configured yet, every message is of that
    kind. *)
Theorem handle_midi_input_ignores (msg : Message) (d : Dashboard) :
  (msg_type msg = control_change ->
   handle_midi_input msg d = (d, Return tt))
  /\ (buttons d !! msg_note msg = None ->
      handle_midi_input msg d = (d, Return tt))
  /\ (forall button,
         buttons d !! msg_note msg = Some button ->
         press_behavior_enabled button = false ->
         handle_midi_input msg d = (d, Return tt))
  /\ (buttons d = initial_buttons ->
      handle_midi_input msg d = (d, Return tt)).
Proof.
  assert (H3 : forall button,
             buttons d !! msg_note msg = Some button ->
             press_behavior_enabled button = false ->
             handle_midi_input msg d = (d, Return tt)).
  { intros button Hb He. unfold handle_midi_input. rewrite Hb, He.
    destruct (msg_type msg), (is_track_or_scene (msg_note msg));
      reflexivity. }
  assert (H2 : buttons d !! msg_note msg = None ->
               handle_midi_input msg d = (d, Return tt)).
  { intros Hb. unfold handle_midi_input. rewrite Hb.
    now destruct (msg_type msg). }
  split; [| split; [exact H2 | split; [exact H3 |]]].
  - intros Ht. unfold handle_midi_input. now rewrite Ht.
  - intros Hinit.
    destruct (buttons d !! msg_note msg) as [button |] eqn:Hb;
      [| now apply H2].
    apply (H3 button eq_refl). rewrite Hinit in Hb.
    now apply initial_buttons_lookup in Hb.
Qed.

Lemma handle_midi_input_ignores_witness :
  buttons (Dashboard_init false) = initial_buttons
  /\ handle_midi_input (press 0) (Dashboard_init false)
     = (Dashboard_init false, Return tt).
Proof.
  split; [reflexivity |].
  apply (handle_midi_input_ignores (press 0) (Dashboard_init false)).
  reflexivity.
Defined.

(** ** The dashboard: a click and a press *)

(** X11.  On a control in Toggle mode a click in the dashboard does what a
    press on the device does: for a pad the two calls give the same
    dashboard and the same result, exception included; for a Track/Scene
    button they give the same controller, the same messages, the same
    toggle table and the same result.  Without a controller they differ:
    the click returns at once, the press flips the toggle bit and raises. *)
Theorem toggle_click_is_press (d : Dashboard) (c : LedController)
  (msg : Message) (button : LedButton) :
  msg_type msg = note_on ->
  controller d = Some c ->
  enable_press_behavior d = false ->
  buttons d !! msg_note msg = Some button ->
  press_behavior_enabled button = true ->
  button_mode button = "Toggle"%string ->
  (is_track_or_scene (msg_note msg) = false ->
   on_button_click (msg_note msg) d = handle_midi_input msg d)
  /\ controller (fst (on_button_click (msg_note msg) d))
     = controller (fst (handle_midi_input msg d))
  /\ toggle_states (fst (on_button_click (msg_note msg) d))
     = toggle_states (fst (handle_midi_input msg d))
  /\ snd (on_button_click (msg_note msg) d)
     = snd (handle_midi_input msg d)
  /\ on_button_click (msg_note msg) (set_controller None d)
     = (set_controller None d, Return tt)
  /\ (exists e,
         snd (handle_midi_input msg (set_controller None d)) = Raise e)
  /\ toggle_states (fst (handle_midi_input msg (set_controller None d)))
     !! msg_note msg
     = Some (negb (default false (toggle_states d !! msg_note msg))).
Proof.
  intros Ht Hc Hoff Hb He Hm.
  assert (Hpad : is_track_or_scene (msg_note msg) = false ->
                 on_button_click (msg_note msg) d = handle_midi_input msg d).
  { intros Hn. unfold on_button_click, handle_midi_input.
    now rewrite Hc, Hb, Hoff, Ht, Hn, He, Hm, String.eqb_refl. }
  split; [exact Hpad |].
  destruct (is_track_or_scene (msg_note msg)) eqn:Hn.
  - assert (E : on_button_click (msg_note msg) d
                = bind (handle_midi_input msg)
                    (fun _ =>
                       button_set_button_color (msg_note msg)
                         (0 <? toggle_velocity button
                                 (negb (default false
                                          (toggle_states d
                                             !! msg_note msg))))) d).
    { unfold on_button_click, handle_midi_input, bind, flip_toggle.
      rewrite Hc, Hb, Hoff, Ht, Hn, He, Hm, String.eqb_refl.
      cbv beta iota zeta. rewrite toggle_velocity_blink. reflexivity. }
    rewrite E. unfold bind.
    destruct (handle_midi_input msg d) as [d1 [[] | e]] eqn:E1; simpl.
    + repeat split; try reflexivity.
      all: unfold on_button_click, handle_midi_input;
        simpl; rewrite ?Hb, ?Ht, ?Hn, ?He, ?Hm, ?String.eqb_refl;
        unfold bind, flip_toggle, controller_set_button_color; simpl;
        try (eexists; reflexivity); try apply lookup_insert_eq.
    + repeat split; try reflexivity.
      all: unfold on_button_click, handle_midi_input;
        simpl; rewrite ?Hb, ?Ht, ?Hn, ?He, ?Hm, ?String.eqb_refl;
        unfold bind, flip_toggle, controller_set_button_color; simpl;
        try (eexists; reflexivity); try apply lookup_insert_eq.
  - rewrite (Hpad eq_refl). repeat split; try reflexivity.
    all: unfold on_button_click, handle_midi_input;
      simpl; rewrite ?Hb, ?Ht, ?Hn, ?He, ?Hm, ?String.eqb_refl;
      unfold bind, flip_toggle; simpl.
    + destruct (PadColor_by_name _ _) as [d1 [col | e]] eqn:Ec.
      * unfold PadColor_by_name in Ec.
        destruct (PadColor_getitem _); [| discriminate Ec].
        injection Ec as <- <-. unfold paint_pad, bind, on_controller.
        simpl. now eexists.
      * now eexists.
    + destruct (PadColor_by_name _ _) as [d1 [col | e]] eqn:Ec.
      * unfold PadColor_by_name in Ec.
        destruct (PadColor_getitem _); [| discriminate Ec].
        injection Ec as <- <-. unfold paint_pad, bind, on_controller.
        simpl. apply lookup_insert_eq.
      * unfold PadColor_by_name in Ec.
        destruct (PadColor_getitem _); [discriminate Ec |].
        injection Ec as <- _. simpl. apply lookup_insert_eq.
Qed.

Lemma toggle_click_is_press_witness :
  controller dim_red_configured <> None
  /\ on_button_click 0 dim_red_configured
     = handle_midi_input (press 0) dim_red_configured.
Proof.
  split; [vm_compute; discriminate |].
  destruct (controller dim_red_configured) as [c |] eqn:Hc;
    [| vm_compute in Hc; discriminate Hc].
  destruct (buttons dim_red_configured !! 0) as [button |] eqn:Hb;
    [| vm_compute in Hb; discriminate Hb].
  assert (He : press_behavior_enabled button = true
               /\ button_mode button = "Toggle"%string).
  { vm_compute in Hb. injection Hb as <-. split; reflexivity. }
  destruct He as [He Hm].
  apply (toggle_click_is_press dim_red_configured c (press 0) button
           eq_refl Hc eq_refl Hb He Hm).
  reflexivity.
Defined.

(** ** The dashboard: Flash mode, the global selection, configuring *)

Lemma flash_input_pad (d : Dashboard) (c : LedController)
  (sent : list Message) (msg : Message) (button : LedButton)
  (color : PadColor) :
  msg_type msg <> control_change ->
  controller d = Some c -> output_port c = Some sent ->
  buttons d !! msg_note msg = Some button ->
  is_track_or_scene (msg_note msg) = false ->
  0 <= msg_note msg <= 127 ->
  press_behavior_enabled button = true ->
  button_mode button <> "Toggle"%string ->
  let pressed := match msg_type msg with note_on => true | _ => false end in
  PadColor_getitem
    (if pressed then pressed_color button else unpressed_color button)
  = Some color ->
  let channel :=
    get_animation_channel
      (if pressed then pressed_animation button
       else unpressed_animation button) in
  handle_midi_input msg d =
    (set_buttons (fun bs => alter (setColor (Some color)) (msg_note msg) bs)
       (set_controller
          (Some (set_output_port
                   (Some (sent ++ [pad_message (msg_note msg) color channel]))
                   (set_led_states
                      (fun st => <[msg_note msg := LedState_of color]> st)
                      c))) d),
     Return tt).
Proof.
  intros Ht Hc Hp Hb Hn Hbyte He Hm pressed Hcol channel.
  apply String.eqb_neq in Hm.
  pose proof (get_animation_channel_range
                (if pressed then pressed_animation button
                 else unpressed_animation button)) as Hch.
  fold channel in Hch.
  unfold handle_midi_input.
  destruct (msg_type msg) eqn:E; [| | congruence];
    rewrite Hb, Hn, He, Hm; subst pressed channel;
    cbv beta iota zeta in *;
    unfold bind at 1; unfold PadColor_by_name; rewrite Hcol;
    unfold ret; cbv beta iota zeta;
    (erewrite paint_pad_ok;
     [reflexivity | exact Hc | exact Hp | exact Hbyte | lia]).
Qed.

(** X12.  A pad in Flash mode shows the pressed colour while it is held and
    the not-pressed colour again when it is released, each on the channel
    of its animation; the toggle table is not touched.  A click in the
    dashboard is the press alone: no release follows, so the pad keeps the
    pressed colour. *)
Theorem flash_press_release_pad (d : Dashboard) (c : LedController)
  (sent : list Message) (n : Z) (button : LedButton) (pc uc : PadColor) :
  controller d = Some c -> output_port c = Some sent ->
  buttons d !! n = Some button ->
  is_track_or_scene n = false -> 0 <= n <= 127 ->
  press_behavior_enabled button = true ->
  button_mode button <> "Toggle"%string ->
  PadColor_getitem (pressed_color button) = Some pc ->
  PadColor_getitem (unpressed_color button) = Some uc ->
  let d1 := fst (handle_midi_input (press n) d) in
  let d2 := fst (handle_midi_input (release n) d1) in
  sent_messages d1 =
    sent ++ [pad_message n pc
               (get_animation_channel (pressed_animation button))]
  /\ store d1 !! n = Some (LedState_of pc)
  /\ sent_messages d2 =
       sent ++ [pad_message n pc
                  (get_animation_channel (pressed_animation button));
                pad_message n uc
                  (get_animation_channel (unpressed_animation button))]
  /\ store d2 !! n = Some (LedState_of uc)
  /\ toggle_states d2 = toggle_states d
  /\ (enable_press_behavior d = false ->
      on_button_click n d = handle_midi_input (press n) d).
Proof.
  intros Hc Hp Hb Hn Hbyte He Hm Hpc Huc d1 d2. subst d2 d1.
  assert (Hclick : enable_press_behavior d = false ->
                   on_button_click n d = handle_midi_input (press n) d).
  { intros Hoff. apply String.eqb_neq in Hm.
    unfold on_button_click, handle_midi_input, press.
    cbn [msg_type msg_note]. cbv zeta.
    rewrite Hc, Hb, Hoff, Hn, He, Hm. reflexivity. }
  revert Hclick.
  pose proof (flash_input_pad d c sent (press n) button pc
                ltac:(discriminate) Hc Hp Hb Hn Hbyte He Hm Hpc) as E1.
  cbv zeta in E1. simpl msg_note in E1. simpl msg_type in E1.
  cbv iota in E1.
  rewrite E1. cbn [fst].
  match goal with
  | |- context [handle_midi_input (release n) ?x] => set (d1 := x)
  end.
  destruct (setColor_config (Some pc) button)
    as (He' & Hm' & Hpc' & Huc' & Hpa' & Hua').
  pose proof (flash_input_pad d1 _ _ (release n) (setColor (Some pc) button)
                uc ltac:(discriminate) eq_refl eq_refl
                ltac:(subst d1; simpl; rewrite lookup_alter_eq, Hb;
                      reflexivity)
                Hn Hbyte ltac:(rewrite He'; exact He)
                ltac:(rewrite Hm'; exact Hm)
                ltac:(simpl; rewrite Huc'; exact Huc)) as E2.
  cbv zeta in E2. simpl msg_note in E2. simpl msg_type in E2.
  cbv iota in E2. rewrite Hua' in E2. rewrite E2. cbn [fst].
  intros Hclick.
  split; [reflexivity |].
  split; [unfold store; simpl; apply lookup_insert_eq |].
  split; [unfold sent_messages; simpl; now rewrite <- app_assoc |].
  split; [unfold store; simpl; apply lookup_insert_eq |].
  split; [reflexivity |]. exact Hclick.
Qed.

Lemma flash_press_release_pad_witness :
  let d :=
    fst (on_button_click 9
           (select_press_behavior 0 0 6 0 21 6 2 (Dashboard_init false))) in
  (button_mode <$> buttons d !! 9) = Some "Flash"%string
  /\ sent_messages
       (fst (handle_midi_input (release 9)
               (fst (handle_midi_input (press 9) d))))
     = [ pad_message 9 OFF 6; pad_message 9 GREEN 8; pad_message 9 OFF 6 ].
Proof.
  cbv zeta. split; [vm_compute; reflexivity |].
  set (d := fst (on_button_click 9
                   (select_press_behavior 0 0 6 0 21 6 2
                      (Dashboard_init false)))).
  destruct (controller d) as [c |] eqn:Hc;
    [| vm_compute in Hc; discriminate Hc].
  destruct (output_port c) as [sent |] eqn:Hp;
    [| vm_compute in Hc; injection Hc as <-; vm_compute in Hp;
       discriminate Hp].
  destruct (buttons d !! 9) as [button |] eqn:Hb;
    [| vm_compute in Hb; discriminate Hb].
  assert (Hsent : sent = [pad_message 9 OFF 6]).
  { vm_compute in Hc. injection Hc as <-. vm_compute in Hp.
    now injection Hp as <-. }
  assert (He : press_behavior_enabled button = true
               /\ button_mode button <> "Toggle"%string
               /\ PadColor_getitem (pressed_color button) = Some GREEN
               /\ PadColor_getitem (unpressed_color button) = Some OFF
               /\ get_animation_channel (pressed_animation button) = 8
               /\ get_animation_channel (unpressed_animation button) = 6).
  { vm_compute in Hb. injection Hb as <-.
    repeat split; try reflexivity. discriminate. }
  destruct He as (He & Hm & Hpc & Huc & Hpa & Hua).
  destruct (flash_press_release_pad d c sent 9 button GREEN OFF Hc Hp Hb
              eq_refl ltac:(lia) He Hm Hpc Huc) as (_ & _ & H & _).
  rewrite H, Hsent, Hpa, Hua. reflexivity.
Defined.

Lemma global_channel_setup_ui (d : Dashboard) :
  items (animation_combo d) = animation_options ->
  0 <= currentIndex (animation_combo d) <= 9 ->
  0 <= currentIndex (brightness_combo d) <= 6 ->
  0 <= global_channel d <= 15
  /\ (1 <= currentIndex (animation_combo d) ->
      global_channel d = 6 + currentIndex (animation_combo d))
  /\ (currentIndex (animation_combo d) = 0 ->
      global_channel d = currentIndex (brightness_combo d)).
Proof.
  intros Hitems Ha Hbr. unfold global_channel, currentText.
  rewrite Hitems.
  assert (Hi : currentIndex (animation_combo d) = 0
               \/ currentIndex (animation_combo d) = 1
               \/ currentIndex (animation_combo d) = 2
               \/ currentIndex (animation_combo d) = 3
               \/ currentIndex (animation_combo d) = 4
               \/ currentIndex (animation_combo d) = 5
               \/ currentIndex (animation_combo d) = 6
               \/ currentIndex (animation_combo d) = 7
               \/ currentIndex (animation_combo d) = 8
               \/ currentIndex (animation_combo d) = 9) by lia.
  destruct Hi
    as [-> | [-> | [-> | [-> | [-> | [-> | [-> | [-> | [-> | ->]]]]]]]]];
    simpl; repeat split; intros; lia.
Qed.

(** X13.  A click on a pad that has no press behaviour, with nothing to
    configure selected, writes the global selection: the colour of the
    colour box on the channel of the selection, which is the index of the
    brightness box when the animation box shows "Statisch" and [7 + index -
    1] of the animation box otherwise.  The store, the widget and the Qt
    properties of the pad follow; the toggle table does not change.  With
    the boxes [setup_ui] builds the channel is always one of 0..15; were it
    not, the click would raise the channel error and change nothing. *)
Theorem global_click_pad (d : Dashboard) (c : LedController)
  (sent : list Message) (n : Z) (button : LedButton) (color : PadColor) :
  controller d = Some c -> output_port c = Some sent ->
  enable_press_behavior d = false ->
  buttons d !! n = Some button ->
  press_behavior_enabled button = false ->
  is_track_or_scene n = false -> 0 <= n <= 127 ->
  PadColor_getitem (currentText (color_combo d)) = Some color ->
  (0 <= global_channel d <= 15 ->
   let d' := fst (on_button_click n d) in
   snd (on_button_click n d) = Return tt
   /\ sent_messages d' = sent ++ [pad_message n color (global_channel d)]
   /\ store d' !! n = Some (LedState_of color)
   /\ toggle_states d' = toggle_states d
   /\ buttons d' !! n =
        Some (store_properties (currentText (color_combo d))
                (currentText (animation_combo d))
                (negb (bool_decide (color = OFF)))
                (setColor (Some color) button)))
  /\ (global_channel d < 0 \/ global_channel d > 15 ->
      on_button_click n d =
        (d, Raise (ValueError "Kanal muss zwischen 0 und 15 liegen")))
  /\ (items (animation_combo d) = animation_options ->
      0 <= currentIndex (animation_combo d) <= 9 ->
      0 <= currentIndex (brightness_combo d) <= 6 ->
      0 <= global_channel d <= 15).
Proof.
  intros Hc Hp Hoff Hb He Hn Hbyte Hcol.
  assert (E : on_button_click n d =
              (let* _ := paint_pad n color (global_channel d) in
               modify (set_buttons (fun bs =>
                 alter (store_properties
                          (currentText (color_combo d))
                          (currentText (animation_combo d))
                          (negb (bool_decide (color = OFF)))) n bs))) d).
  { unfold on_button_click. rewrite Hc, Hb, Hoff, Hn, He.
    unfold bind at 1. unfold PadColor_by_name. rewrite Hcol.
    unfold ret. reflexivity. }
  split; [| split].
  - intros Hch. rewrite E. unfold bind.
    rewrite (paint_pad_ok d c sent n color (global_channel d) Hc Hp Hbyte
               Hch).
    unfold modify. cbn [fst snd].
    split; [reflexivity |].
    split; [reflexivity |].
    split; [unfold store; simpl; apply lookup_insert_eq |].
    split; [reflexivity |].
    simpl. now rewrite !lookup_alter_eq, Hb.
  - intros Hch. rewrite E. unfold bind, paint_pad, bind, on_controller.
    rewrite Hc. unfold set_pad_color.
    assert (in_range 0 (global_channel d) 15 = false) as ->
      by (apply in_range_false; lia).
    simpl. destruct d; simpl in *; subst. reflexivity.
  - intros Hi Ha Hbr. now apply global_channel_setup_ui.
Qed.

Lemma global_click_pad_witness :
  let d := Dashboard_init false in
  0 <= global_channel d <= 15
  /\ sent_messages (fst (on_button_click 12 d)) = [pad_message 12 OFF 6].
Proof.
  cbv zeta.
  assert (Hch : 0 <= global_channel (Dashboard_init false) <= 15)
    by (vm_compute; split; discriminate).
  split; [exact Hch |].
  destruct (initial_buttons !! 12) as [button |] eqn:Hb;
    [| vm_compute in Hb; discriminate Hb].
  destruct (initial_buttons_lookup 12 button Hb) as (He & _ & _).
  destruct (global_click_pad (Dashboard_init false)
              (LedController_init false) [] 12 button OFF eq_refl eq_refl
              eq_refl Hb He eq_refl ltac:(lia) eq_refl) as [H _].
  apply (H Hch).
Defined.

(** X14.  The click that configures a pad (the "select a button" push
    button is checked) copies the press-behaviour selection into the pad,
    enables its press behaviour and unchecks the push button; it shows the
    not-pressed colour, on the channel of the not-pressed brightness box
    when the not-pressed animation is "Statisch" and on the channel of that
    animation otherwise; in Toggle mode it clears the toggle bit of the
    pad, in Flash mode it leaves the toggle table alone. *)
Theorem configure_click_pad (d : Dashboard) (c : LedController)
  (sent : list Message) (n : Z) (button : LedButton) (color : PadColor) :
  controller d = Some c -> output_port c = Some sent ->
  enable_press_behavior d = true ->
  buttons d !! n = Some button ->
  is_track_or_scene n = false -> 0 <= n <= 127 ->
  PadColor_getitem (currentText (unpressed_color_combo d)) = Some color ->
  let channel :=
    if String.eqb (currentText (unpressed_animation_combo d)) "Statisch"
    then currentIndex (unpressed_brightness_combo d)
    else get_animation_channel (currentText (unpressed_animation_combo d)) in
  0 <= channel <= 15 ->
  let d' := fst (on_button_click n d) in
  snd (on_button_click n d) = Return tt
  /\ enable_press_behavior d' = false
  /\ buttons d' !! n = Some (setColor (Some color) (configure d button))
  /\ press_behavior_enabled (configure d button) = true
  /\ sent_messages d' = sent ++ [pad_message n color channel]
  /\ store d' !! n = Some (LedState_of color)
  /\ toggle_states d' =
       if String.eqb (currentText (button_mode_combo d)) "Toggle"
       then <[n := false]> (toggle_states d)
       else toggle_states d.
Proof.
  intros Hc Hp Hon Hb Hn Hbyte Hcol channel Hch d'. subst d'.
  set (d1 := set_enable_press_behavior false
               (set_buttons (fun bs => <[n := configure d button]> bs) d)).
  assert (Hshow : show_initial n (configure d button) d1 =
                  (set_buttons
                     (fun bs => alter (setColor (Some color)) n bs)
                     (set_controller
                        (Some (set_output_port
                                 (Some (sent ++ [pad_message n color channel]))
                                 (set_led_states
                                    (fun st => <[n := LedState_of color]> st)
                                    c))) d1),
                   Return tt)).
  { unfold show_initial. rewrite Hn. cbn [negb].
    unfold bind at 1. unfold PadColor_by_name. cbn [unpressed_color configure].
    rewrite Hcol. unfold ret at 1. cbv beta iota.
    unfold bind at 1. cbn [unpressed_animation unpressed_brightness configure].
    fold channel.
    assert ((if String.eqb (currentText (unpressed_animation_combo d))
                  "Statisch"
             then attribute "unpressed_brightness"
                    (Some (currentIndex (unpressed_brightness_combo d)))
             else ret (get_animation_channel
                         (currentText (unpressed_animation_combo d)))) d1
            = (d1, Return channel)) as ->.
    { subst channel. now destruct (String.eqb _ _). }
    cbv beta iota.
    erewrite paint_pad_ok;
      [reflexivity | exact Hc | exact Hp | exact Hbyte | exact Hch]. }
  assert (E : on_button_click n d =
              (if String.eqb (currentText (button_mode_combo d)) "Toggle"
               then show_initial n (configure d button) ;;;
                    modify (set_toggle_states
                              (fun ts => <[n := false]> ts))
               else show_initial n (configure d button)) d1).
  { unfold on_button_click. rewrite Hc, Hb, Hon. reflexivity. }
  rewrite E.
  destruct (String.eqb (currentText (button_mode_combo d)) "Toggle").
  - unfold bind. rewrite Hshow. unfold modify. cbn [fst snd].
    split; [reflexivity |]. split; [reflexivity |].
    split; [simpl; now rewrite lookup_alter_eq, lookup_insert_eq |].
    split; [reflexivity |]. split; [reflexivity |].
    split; [unfold store; simpl; apply lookup_insert_eq | reflexivity].
  - rewrite Hshow. cbn [fst snd].
    split; [reflexivity |]. split; [reflexivity |].
    split; [simpl; now rewrite lookup_alter_eq, lookup_insert_eq |].
    split; [reflexivity |]. split; [reflexivity |].
    split; [unfold store; simpl; apply lookup_insert_eq | reflexivity].
Qed.

Lemma configure_click_pad_witness :
  sent_messages dim_red_configured = [pad_message 0 RED 0]
  /\ toggle_states dim_red_configured = {[ 0 := false ]}.
Proof.
  destruct (initial_buttons !! 0) as [button |] eqn:Hb;
    [| vm_compute in Hb; discriminate Hb].
  destruct (configure_click_pad dim_red_selection (LedController_init false)
              [] 0 button RED eq_refl eq_refl eq_refl Hb eq_refl
              ltac:(lia) eq_refl ltac:(vm_compute; split; discriminate))
    as (_ & _ & _ & _ & Hs & _ & Ht).
  split; [exact Hs | exact Ht].
Defined.

(** ** The dashboard: clearing and lighting everything *)



Lemma lookup_foldl_alter {V} (f : V -> V) (notes : list Z) (m : gmap Z V)
  (k : Z) :
  NoDup notes ->
  foldl (fun m n => alter f n m) m notes !! k
  = if decide (k ∈ notes) then f <$> m !! k else m !! k.
Proof.
  intros Hnd. revert m.
  induction Hnd as [| n notes Hn _ IH]; intros m; cbn [foldl].
  - destruct (decide (k ∈ [])) as [H |]; [| reflexivity].
    now apply elem_of_nil in H.
  - rewrite IH. destruct (decide (k = n)) as [-> | Hne].
    + rewrite (decide_False (P := n ∈ notes)) by exact Hn.
      rewrite decide_True; [apply lookup_alter_eq | now left].
    + rewrite lookup_alter_ne; [| congruence].
      destruct (decide (k ∈ notes)) as [H | H].
      * rewrite decide_True; [reflexivity | now right].
      * rewrite decide_False; [reflexivity |].
        intros [? | ?]%elem_of_cons; [congruence | contradiction].
Qed.

Lemma set_all_leds_loop (color : PadColor) (ch : Z) (notes : list Z) :
  0 <= ch <= 15 ->
  Forall (fun n => 0 <= n <= 127) notes ->
  forall (d : Dashboard) (c : LedController) (sent : list Message),
    controller d = Some c -> output_port c = Some sent ->
    (forall n, n ∈ notes -> is_Some (buttons d !! n)) ->
    for_each notes
      (fun note => on_controller (set_pad_color note color ch) ;;;
                   buttons_setColor note color) d
    = (set_buttons
         (fun bs => foldl (fun m n => alter (setColor (Some color)) n m)
                      bs notes)
         (set_controller
            (Some (set_output_port
                     (Some (sent ++ map (fun n => pad_message n color ch)
                                      notes))
                     (set_led_states
                        (fun st => foldl
                                     (fun m n => <[n := LedState_of color]> m)
                                     st notes) c))) d),
       Return tt).
Proof.
  intros Hch. induction 1 as [| n notes Hn _ IH]; intros d c sent Hc Hp Hbs.
  - simpl. unfold ret. destruct d, c; simpl in *. subst.
    unfold set_buttons, set_controller, set_output_port, set_led_states;
      simpl. now rewrite app_nil_r.
  - cbn [for_each]. unfold bind at 1. unfold bind at 1.
    unfold on_controller at 1. rewrite Hc.
    rewrite (set_pad_color_ok c sent n color ch Hch Hn Hp).
    unfold buttons_setColor at 1.
    cbn [buttons set_controller].
    destruct (Hbs n ltac:(now left)) as [b Hb]. rewrite Hb.
    unfold button_setColor, modify.
    erewrite IH; [| reflexivity | reflexivity |].
    + destruct d, c; simpl in *.
      unfold set_buttons, set_controller, set_output_port, set_led_states;
        simpl. now rewrite <- app_assoc.
    + intros k Hk. simpl. rewrite lookup_alter.
      destruct (decide (n = k)) as [<- | _].
      * rewrite Hb. now eexists.
      * apply Hbs. now right.
Qed.

(** X16.  [set_all_leds] on an open controller, when the dashboard has a
    button for each of the 64 pads and the global selection stands for a
    channel in 0..15: every pad is written white (on) or off, on that
    channel, in index order; the store and the pad widgets follow; the
    Track/Scene buttons, every other store entry and the toggle table stay
    as they are. *)
Theorem set_all_leds_effect (on : bool) (d : Dashboard) (c : LedController)
  (sent : list Message) :
  controller d = Some c -> output_port c = Some sent ->
  0 <= global_channel d <= 15 ->
  (forall n, 0 <= n <= 63 -> is_Some (buttons d !! n)) ->
  let color := if on then WHITE else OFF in
  let '(d', r) := set_all_leds on d in
  r = Return tt
  /\ (forall n, 0 <= n <= 63 ->
                store d' !! n = Some (LedState_of color)
                /\ buttons d' !! n = setColor (Some color) <$> buttons d !! n)
  /\ (forall n, ~ 0 <= n <= 63 ->
                store d' !! n = store d !! n
                /\ buttons d' !! n = buttons d !! n)
  /\ toggle_states d' = toggle_states d
  /\ sent_messages d' =
       sent ++ map (fun n => pad_message n color (global_channel d))
                 (range 64).
Proof.
  intros Hc Hp Hch Hbs color. unfold set_all_leds. rewrite Hc.
  fold color. fold (global_channel d).
  rewrite (set_all_leds_loop color (global_channel d) (range 64) Hch
             ltac:(apply Forall_forall; intros n Hn;
                   apply elem_of_range in Hn; lia)
             d c sent Hc Hp
             ltac:(intros n Hn; apply elem_of_range in Hn; apply Hbs; lia)).
  unfold store, sent_messages. rewrite Hc.
  cbn [controller buttons toggle_states set_buttons set_controller
       led_states output_port set_output_port set_led_states].
  split; [reflexivity |].
  split; [| split; [| split; reflexivity]]; intros n Hn;
    rewrite lookup_foldl_insert, (lookup_foldl_alter _ _ _ _ (NoDup_range 64)).
  - rewrite !decide_True by (apply elem_of_range; lia). auto.
  - rewrite !decide_False by (rewrite elem_of_range; lia). auto.
Qed.

Lemma set_all_leds_effect_witness :
  let d' := fst (set_all_leds true (Dashboard_init false)) in
  store d' !! 40 = Some (LedState_of WHITE)
  /\ (style <$> buttons d' !! 40) = Some ("#FFFFFF", "#666666")%string
  /\ store d' !! 100 = None.
Proof.
  cbv zeta.
  pose proof (set_all_leds_effect true (Dashboard_init false)
                (LedController_init false) [] eq_refl eq_refl
                ltac:(vm_compute; split; discriminate)) as H.
  assert (Hbs : forall n, 0 <= n <= 63 ->
                          is_Some (buttons (Dashboard_init false) !! n)).
  { intros n Hn. simpl. unfold initial_buttons.
    destruct (list_to_map _ !! n) eqn:E; [now eexists |].
    apply not_elem_of_list_to_map in E. exfalso. apply E.
    rewrite !fmap_app. apply elem_of_app. left.
    rewrite <- list_fmap_compose. apply list_elem_of_fmap.
    exists n. split; [reflexivity | apply elem_of_range; lia]. }
  specialize (H Hbs). cbv zeta in H.
  destruct (set_all_leds true (Dashboard_init false)) as [d' r].
  destruct H as (_ & Hin & Hout & _). cbn [fst].
  destruct (Hin 40 ltac:(lia)) as [H1 H2].
  destruct (Hout 100 ltac:(lia)) as [H3 _].
  split; [exact H1 |].
  split; [rewrite H2; reflexivity | rewrite H3; reflexivity].
Defined.

(** ** The reader and the state the callbacks act on *)

Section ReaderState.
Context {W : Type}.


End ReaderState.


(** ** Animation routines: the chase *)

Lemma mod_64_cases (x : Z) :
  -64 <= x < 64 -> x mod 64 = if x <? 0 then x + 64 else x.
Proof.
  intros Hx. destruct (Z.ltb_spec x 0).
  - symmetry. apply (Z.mod_unique x 64 (-1)); lia.
  - apply Z.mod_small. lia.
Qed.

Ltac step_writes :=
  repeat match goal with
    | |- context [set_pad_color ?a ?b ?d ?s] =>
        is_var s;
        destruct (set_pad_color a b d s) as [? [? | ?]];
        cbv beta iota; try reflexivity
    end.

(** A frame of the chase is its six writes, one after the other. *)
Lemma chase_frame_writes (color : PadColor) (h : Z) (c : LedController) :
  chase_frame color h c =
    (fst (write_all (chase_writes color h) c),
     match snd (write_all (chase_writes color h) c) with
     | Return _ => Return ((h + 1) mod 64)
     | Raise e => Raise e
     end).
Proof.
  assert (Hpos : forall x, (0 <=? x mod 64) = true).
  { intros x. apply Z.leb_le. apply Z.mod_pos_bound. lia. }
  unfold chase_frame, write_all, chase_writes.
  change (range 5) with [0; 1; 2; 3; 4].
  cbn [for_each map app]. cbv zeta. rewrite !Hpos. clear Hpos.
  unfold bind, ret. cbv beta iota.
  step_writes.
Qed.

Lemma chase_writes_valid (color : PadColor) (h : Z) :
  Forall valid_write (chase_writes color h).
Proof.
  assert (Hbyte : forall x, 0 <= x mod 64 <= 127).
  { intros x. pose proof (Z.mod_pos_bound x 64 ltac:(lia)). lia. }
  unfold chase_writes. change (range 5) with [0; 1; 2; 3; 4].
  cbn [map app].
  repeat (constructor;
          [split; [apply Hbyte
                  | cbn [snd]; unfold default_channel; lia] |]).
  constructor.
Qed.

Lemma chase_frame_ok (color : PadColor) (h : Z) (c : LedController)
  (sent : list Message) :
  output_port c = Some sent ->
  chase_frame color h c =
    (set_output_port
       (Some (sent ++ map write_message (chase_writes color h)))
       (set_led_states (store_after (chase_writes color h)) c),
     Return ((h + 1) mod 64)).
Proof.
  intros Hp. rewrite chase_frame_writes.
  now rewrite (write_all_ok _ (chase_writes_valid color h) c sent Hp).
Qed.

Lemma chase_writes_notes (color : PadColor) (h : Z) :
  map (fun w : Z * PadColor * Z => w.1.1) (chase_writes color h)
  = [(h - 0) mod 64; (h - 1) mod 64; (h - 2) mod 64; (h - 3) mod 64;
     (h - 4) mod 64; (h - 5) mod 64].
Proof. reflexivity. Qed.

Lemma chase_NoDup (color : PadColor) (h : Z) :
  0 <= h < 64 ->
  NoDup (map (fun w : Z * PadColor * Z => w.1.1) (chase_writes color h)).
Proof.
  intros Hh. rewrite chase_writes_notes.
  rewrite !mod_64_cases by lia.
  destruct (Z.ltb_spec (h - 0) 0), (Z.ltb_spec (h - 1) 0),
    (Z.ltb_spec (h - 2) 0), (Z.ltb_spec (h - 3) 0),
    (Z.ltb_spec (h - 4) 0), (Z.ltb_spec (h - 5) 0); try lia;
    repeat (apply NoDup_cons; split;
            [rewrite ?elem_of_cons, ?elem_of_nil; lia |]);
    apply NoDup_nil_2.
Qed.

(** After one frame with the head at [h]: the trail is lit with the colour,
    the pad behind it is off, the rest is as before. *)
Lemma chase_frame_store (color : PadColor) (h : Z) (st : gmap Z LedState)
  (n : Z) :
  0 <= h < 64 ->
  store_after (chase_writes color h) st !! n
  = if decide (trail h n) then Some (LedState_of color)
    else if decide (n = (h - 5) mod 64) then Some (LedState_of OFF)
         else st !! n.
Proof.
  intros Hh. rewrite store_after_lookup.
  destruct (decide (trail h n)) as [(i & Hi & ->) | Hnt].
  - assert (Hin : In ((h - i) mod 64, color, Z.max 1 (6 - i))
                    (chase_writes color h)).
    { unfold chase_writes. apply in_or_app. left.
      apply in_map_iff. exists i. split; [reflexivity |].
      apply list_elem_of_In, elem_of_range. lia. }
    pose proof (last_write_NoDup _ _ (chase_NoDup color h Hh) Hin) as Hl.
    cbn [fst] in Hl. now rewrite Hl.
  - destruct (decide (n = (h - 5) mod 64)) as [-> | Hno].
    + assert (Hin : In ((h - 5) mod 64, OFF, default_channel)
                      (chase_writes color h)).
      { unfold chase_writes. apply in_or_app. right. now left. }
      pose proof (last_write_NoDup _ _ (chase_NoDup color h Hh) Hin)
        as Hl.
      cbn [fst] in Hl. now rewrite Hl.
    + rewrite last_write_None; [reflexivity |].
      rewrite chase_writes_notes.
      intros Hin. apply Hnt.
      destruct Hin as [<- | [<- | [<- | [<- | [<- | [<- | []]]]]]].
      * exists 0. split; [lia | reflexivity].
      * exists 1. split; [lia | reflexivity].
      * exists 2. split; [lia | reflexivity].
      * exists 3. split; [lia | reflexivity].
      * exists 4. split; [lia | reflexivity].
      * now elim Hno.
Qed.

Lemma chase_messages (color : PadColor) (h : Z) :
  length (map write_message (chase_writes color h)) = 6%nat
  /\ Forall (fun m => 0 <= msg_note m <= 63 /\ 2 <= msg_channel m <= 6)
       (map write_message (chase_writes color h)).
Proof.
  split; [reflexivity |].
  assert (Hbyte : forall x, 0 <= x mod 64 <= 63).
  { intros x. pose proof (Z.mod_pos_bound x 64 ltac:(lia)). lia. }
  unfold chase_writes. change (range 5) with [0; 1; 2; 3; 4].
  cbn [map app].
  repeat (constructor;
          [split; [apply Hbyte
                  | cbn [write_message pad_message msg_channel snd];
                    unfold default_channel; lia] |]).
  constructor.
Qed.

(** One frame with the head at [h], when nothing is lit outside the trail
    of the frame before: exactly the trail of [h] is lit. *)
Lemma chase_frame_lit (color : PadColor) (h : Z) (st : gmap Z LedState) :
  color <> OFF -> 0 <= h < 64 ->
  (forall n, lit st n -> trail ((h - 1) mod 64) n) ->
  forall n, lit (store_after (chase_writes color h) st) n <-> trail h n.
Proof.
  intros Hcol Hh Hprev n. unfold lit.
  rewrite chase_frame_store by exact Hh.
  destruct (decide (trail h n)) as [Ht | Hnt].
  - split; [intros _; exact Ht |].
    intros _. exists (LedState_of color). split; [reflexivity | exact Hcol].
  - split; [| intros Ht; contradiction].
    destruct (decide (n = (h - 5) mod 64)) as [-> | Hno].
    + intros (s & [= <-] & Hs). now elim Hs.
    + intros Hl. exfalso.
      destruct (Hprev n Hl) as (i & Hi & ->).
      rewrite Zminus_mod_idemp_l in Hnt, Hno.
      assert (Hcase : i = 0 \/ i = 1 \/ i = 2 \/ i = 3 \/ i = 4) by lia.
      destruct Hcase as [-> | [-> | [-> | [-> | ->]]]].
      * apply Hnt. exists 1. split; [lia | f_equal; lia].
      * apply Hnt. exists 2. split; [lia | f_equal; lia].
      * apply Hnt. exists 3. split; [lia | f_equal; lia].
      * apply Hnt. exists 4. split; [lia | f_equal; lia].
      * apply Hno. f_equal. lia.
Qed.

Lemma chase_frames_inv (color : PadColor) :
  color <> OFF ->
  forall (k : nat) (h : Z) (c : LedController) (sent : list Message),
    0 <= h < 64 -> output_port c = Some sent ->
    (forall n, lit (led_states c) n -> trail ((h - 1) mod 64) n) ->
    let '(c', r) := chase_frames color (S k) h c in
    r = Return ((h + Z.of_nat (S k)) mod 64)
    /\ (forall n, lit (led_states c') n
                  <-> trail ((h + Z.of_nat k) mod 64) n)
    /\ exists new,
         output_port c' = Some (sent ++ new)
         /\ length new = (6 * S k)%nat
         /\ Forall (fun m => 0 <= msg_note m <= 63
                             /\ 2 <= msg_channel m <= 6) new.
Proof.
  intros Hcol. induction k as [| k IH]; intros h c sent Hh Hp Hprev.
  - cbn [chase_frames]. unfold bind.
    rewrite (chase_frame_ok color h c sent Hp). unfold ret.
    cbn [led_states output_port set_output_port set_led_states].
    split; [f_equal; f_equal; lia |].
    split.
    + intros n. rewrite Z.add_0_r, Z.mod_small by lia.
      now apply chase_frame_lit.
    + eexists. split; [reflexivity |]. apply chase_messages.
  - change (chase_frames color (S (S k)) h c)
      with (bind (chase_frame color h) (chase_frames color (S k)) c).
    unfold bind. rewrite (chase_frame_ok color h c sent Hp).
    pose proof (Z.mod_pos_bound (h + 1) 64 ltac:(lia)) as Hh1.
    specialize (IH ((h + 1) mod 64)
                  (set_output_port
                     (Some (sent ++ map write_message (chase_writes color h)))
                     (set_led_states (store_after (chase_writes color h)) c))
                  (sent ++ map write_message (chase_writes color h))
                  Hh1 eq_refl).
    cbn [led_states output_port set_output_port set_led_states] in IH.
    assert (Hback : ((h + 1) mod 64 - 1) mod 64 = h).
    { rewrite Zminus_mod_idemp_l. replace (h + 1 - 1) with h by lia.
      apply Z.mod_small. lia. }
    rewrite Hback in IH.
    specialize (IH ltac:(intros n Hn;
                         now apply (chase_frame_lit color h _ Hcol Hh Hprev))).
    destruct (chase_frames color (S k) ((h + 1) mod 64) _) as [c' r].
    destruct IH as (Hr & Hlit & new & Hout & Hlen & Hall).
    split; [rewrite Hr; f_equal; rewrite Zplus_mod_idemp_l; f_equal; lia |].
    split.
    + intros n. rewrite Hlit, Zplus_mod_idemp_l.
      replace (h + 1 + Z.of_nat k) with (h + Z.of_nat (S k)) by lia.
      reflexivity.
    + exists (map write_message (chase_writes color h) ++ new).
      split; [rewrite Hout; now rewrite app_assoc |].
      destruct (chase_messages color h) as [Hl6 Hall6].
      split; [rewrite length_app, Hl6, Hlen; lia |].
      apply Forall_app. split; assumption.
Qed.

(** X18.  The chase keeps a trail of five pads.  Started on an open port
    with no pad lit and a colour that is not [OFF], after every frame the
    lit pads are exactly the head of that frame and the four pads behind it
    on the ring 0..63 (the first frames light 60..63 behind the head 0);
    the head advances by one per frame, modulo 64.  Each frame sends six
    messages, all for pad notes, on the channels 6, 5, 4, 3, 2 and 6, so the
    routine never fails the channel check. *)
Theorem chase_keeps_trail (color : PadColor) (k : nat) (c : LedController)
  (sent : list Message) :
  color <> OFF -> output_port c = Some sent ->
  (forall n, ~ lit (led_states c) n) ->
  let '(c', r) := _chase_animation color (S k) c in
  r = Return (Z.of_nat (S k) mod 64)
  /\ (forall n, lit (led_states c') n <-> trail (Z.of_nat k mod 64) n)
  /\ exists new,
       output_port c' = Some (sent ++ new)
       /\ length new = (6 * S k)%nat
       /\ Forall (fun m => 0 <= msg_note m <= 63
                           /\ 2 <= msg_channel m <= 6) new.
Proof.
  intros Hcol Hp Hdark. unfold _chase_animation.
  pose proof (chase_frames_inv color Hcol k 0 c sent ltac:(lia) Hp
                ltac:(intros n Hn; now elim (Hdark n))) as H.
  destruct (chase_frames color (S k) 0 c) as [c' r].
  exact H.
Qed.

Lemma chase_keeps_trail_witness :
  RED <> OFF
  /\ snd (_chase_animation RED 70 (LedController_init false)) = Return 6
  /\ lit (led_states (fst (_chase_animation RED 70
                             (LedController_init false)))) 1
  /\ ~ lit (led_states (fst (_chase_animation RED 70
                               (LedController_init false)))) 0.
Proof.
  split; [discriminate |].
  pose proof (chase_keeps_trail RED 69 (LedController_init false) []
                ltac:(discriminate) eq_refl) as H.
  assert (Hdark : forall n, ~ lit (led_states (LedController_init false)) n).
  { intros n (s & Hs & _). simpl in Hs. now rewrite lookup_empty in Hs. }
  specialize (H Hdark).
  destruct (_chase_animation RED 70 (LedController_init false)) as [c' r].
  destruct H as (Hr & Hlit & _). cbn [fst snd].
  split; [rewrite Hr; reflexivity |].
  split.
  - apply Hlit. exists 4. split; [lia | reflexivity].
  - intros H0. apply Hlit in H0 as (i & Hi & Hn).
    assert (Hcase : i = 0 \/ i = 1 \/ i = 2 \/ i = 3 \/ i = 4) by lia.
    destruct Hcase as [-> | [-> | [-> | [-> | ->]]]]; discriminate Hn.
Defined.

(** ** Animation routines: the sparkle *)

Lemma sparkle_fade_loop (notes : list Z) :
  Forall (fun n => 0 <= n <= 127) notes -> NoDup notes ->
  forall (c : LedController) (sent : list Message),
    output_port c = Some sent ->
    exists st',
      for_each notes sparkle_fade_step c =
        (set_output_port
           (Some (sent ++ map (fun n => pad_message n OFF 6)
                            (with_entry (led_states c) notes)))
           (set_led_states (fun _ => st') c),
         Return tt)
      /\ forall k, st' !! k =
                   if decide (k ∈ notes /\ is_Some (led_states c !! k))
                   then Some (LedState_of OFF)
                   else led_states c !! k.
Proof.
  intros Hb Hnd. revert Hb.
  induction Hnd as [| n notes Hn Hnd IH]; intros Hb c sent Hp.
  - exists (led_states c). split.
    + simpl. unfold ret, with_entry. simpl.
      destruct c; simpl in *; subst. now rewrite app_nil_r.
    + intros k. rewrite decide_False; [reflexivity |].
      intros [H _]. now apply elem_of_nil in H.
  - apply Forall_cons in Hb as [Hbn Hb].
    cbn [for_each]. unfold bind at 1. unfold sparkle_fade_step at 1.
    unfold with_entry.
    destruct (decide (is_Some (led_states c !! n))) as [Hsome | Hnone].
    + rewrite filter_cons_True by exact Hsome.
      unfold bind at 1.
      rewrite (set_pad_color_ok c sent n OFF default_channel
                 ltac:(unfold default_channel; lia) Hbn Hp).
      unfold ret at 1.
      destruct (IH Hb
                  (set_output_port
                     (Some (sent ++ [pad_message n OFF default_channel]))
                     (set_led_states
                        (fun st => <[n := LedState_of OFF]> st) c))
                  (sent ++ [pad_message n OFF default_channel]) eq_refl)
        as (st' & E & Hst).
      exists st'. split.
      * rewrite E. f_equal.
        cbn [led_states set_output_port set_led_states].
        assert (Hsame : with_entry (<[n := LedState_of OFF]> (led_states c))
                          notes
                        = with_entry (led_states c) notes).
        { unfold with_entry. apply list_filter_iff. intros k.
          destruct (decide (k = n)) as [-> | Hne].
          - rewrite lookup_insert_eq. split; [intros _; exact Hsome |].
            intros _. now eexists.
          - now rewrite lookup_insert_ne by congruence. }
        rewrite Hsame. unfold with_entry.
        destruct c; unfold set_output_port, set_led_states, default_channel;
          cbn [input_port output_port loopback_port led_states running
               channel animation_running map].
        now rewrite <- app_assoc.
      * intros k. rewrite Hst.
        cbn [led_states set_output_port set_led_states].
        destruct (decide (k = n)) as [-> | Hne].
        -- rewrite decide_False by (intros [H _]; contradiction).
           rewrite lookup_insert_eq.
           rewrite decide_True; [reflexivity |].
           split; [now left | exact Hsome].
        -- rewrite lookup_insert_ne by congruence.
           destruct (decide (k ∈ notes /\ is_Some (led_states c !! k)))
             as [[H1 H2] | H].
           ++ rewrite decide_True; [reflexivity |].
              split; [now right | exact H2].
           ++ rewrite decide_False; [reflexivity |].
              intros [[? | ?]%elem_of_cons H2]; [congruence | tauto].
    + rewrite filter_cons_False by exact Hnone.
      destruct (IH Hb c sent Hp) as (st' & E & Hst).
      exists st'. split; [exact E |].
      intros k. rewrite Hst.
      destruct (decide (k ∈ notes /\ is_Some (led_states c !! k)))
        as [[H1 H2] | H].
      * rewrite decide_True; [reflexivity |]. split; [now right | exact H2].
      * rewrite decide_False; [reflexivity |].
        intros [[-> | ?]%elem_of_cons H2]; [contradiction | tauto].
Qed.

(** X19.  A frame of the sparkle, on an open port and with sparks on pad
    notes: afterwards no pad 0..63 is lit.  Every pad that has an entry in
    the store, the three new sparks included, is written [OFF] again, so
    that what the frame sends is exactly its three sparks, in the order
    they were drawn, and then one [OFF] message on channel 6 for each note
    of 0..63 that was sparked or had an entry before, in index order; a pad
    with no entry still has none, and entries of other notes are not
    touched. *)
Theorem sparkle_leaves_no_trail (s1 s2 s3 : Z * PadColor)
  (c : LedController) (sent : list Message) :
  output_port c = Some sent ->
  0 <= s1.1 <= 63 -> 0 <= s2.1 <= 63 -> 0 <= s3.1 <= 63 ->
  let sparked n := n = s1.1 \/ n = s2.1 \/ n = s3.1 in
  let '(c', r) := sparkle_frame s1 s2 s3 c in
  r = Return tt
  /\ (forall n, 0 <= n <= 63 -> ~ lit (led_states c') n)
  /\ (forall n, 0 <= n <= 63 ->
                sparked n \/ is_Some (led_states c !! n) ->
                led_states c' !! n = Some (LedState_of OFF))
  /\ (forall n, ~ (0 <= n <= 63
                   /\ (sparked n \/ is_Some (led_states c !! n))) ->
                led_states c' !! n = led_states c !! n)
  /\ output_port c' =
       Some (sent ++ [pad_message s1.1 s1.2 6; pad_message s2.1 s2.2 6;
                      pad_message s3.1 s3.2 6]
                  ++ map (fun n => pad_message n OFF 6)
                       (filter (fun n => (n = s1.1 \/ n = s2.1 \/ n = s3.1)
                                         \/ is_Some (led_states c !! n))
                          (range 64))).
Proof.
  intros Hp H1 H2 H3 sparked. unfold sparkle_frame.
  unfold bind at 1.
  pose proof (write_all_ok [(s1.1, s1.2, 6); (s2.1, s2.2, 6); (s3.1, s3.2, 6)]
                ltac:(repeat constructor; simpl; lia) c sent Hp) as Hw.
  unfold write_all in Hw. cbn [for_each] in Hw. cbn [for_each].
  rewrite Hw. clear Hw.
  set (ws := [(s1.1, s1.2, 6); (s2.1, s2.2, 6); (s3.1, s3.2, 6)]).
  set (c1 := set_output_port (Some (sent ++ map write_message ws))
               (set_led_states (store_after ws) c)).
  destruct (sparkle_fade_loop (range 64)
              ltac:(apply Forall_forall; intros n Hn;
                    apply elem_of_range in Hn; lia)
              (NoDup_range 64) c1 (sent ++ map write_message ws) eq_refl)
    as (st' & E & Hst).
  rewrite E. cbn [led_states set_output_port set_led_states output_port].
  assert (Hc1 : forall n, is_Some (led_states c1 !! n)
                          <-> sparked n \/ is_Some (led_states c !! n)).
  { intros n. subst c1. cbn [led_states set_output_port set_led_states].
    rewrite store_after_lookup. subst ws sparked. unfold last_write.
    cbv beta.
    rewrite !filter_cons, filter_nil. cbn [fst snd].
    destruct (decide (s1.1 = n)), (decide (s2.1 = n)), (decide (s3.1 = n));
      cbn [last]; split; intros H;
      try (now eexists); try (left; lia); try tauto;
      try (right; exact H);
      try (destruct H as [[? | [? | ?]] | H]; [congruence .. | exact H]);
      congruence. }
  split; [reflexivity |].
  assert (Hoff : forall n, 0 <= n <= 63 ->
                   sparked n \/ is_Some (led_states c !! n) ->
                   st' !! n = Some (LedState_of OFF)).
  { intros n Hn Hs. rewrite Hst, decide_True; [reflexivity |].
    split; [apply elem_of_range; lia | now apply Hc1]. }
  assert (Hkeep : forall n,
             ~ (0 <= n <= 63
                /\ (sparked n \/ is_Some (led_states c !! n))) ->
             st' !! n = led_states c !! n).
  { intros n Hs. rewrite Hst, decide_False.
    - subst c1. cbn [led_states set_output_port set_led_states].
      rewrite store_after_lookup, last_write_None; [reflexivity |].
      subst ws sparked. simpl. intros [<- | [<- | [<- | []]]]; apply Hs;
        (split; [lia | left; tauto]).
    - intros [Hin Hsome]. apply Hs. apply elem_of_range in Hin.
      split; [lia | now apply Hc1]. }
  split; [| split; [exact Hoff | split; [exact Hkeep |]]].
  - intros n Hn (s & Hs & Hcol).
    destruct (decide (sparked n \/ is_Some (led_states c !! n))) as [H | H].
    + rewrite (Hoff n Hn H) in Hs. injection Hs as <-. now elim Hcol.
    + rewrite Hkeep in Hs by (intros [_ Hx]; exact (H Hx)).
      apply H. right. exists s. exact Hs.
  - unfold with_entry.
    rewrite (list_filter_iff _
               (fun n => (n = s1.1 \/ n = s2.1 \/ n = s3.1)
                         \/ is_Some (led_states c !! n)) _ Hc1).
    subst ws. cbn [map write_message fst snd].
    now rewrite <- app_assoc.
Qed.

Lemma sparkle_leaves_no_trail_witness :
  let c' :=
    fst (sparkle_frame (5, WHITE) (5, YELLOW) (60, WHITE)
           (fst (set_pad_color 9 RED 6 (LedController_init false)))) in
  led_states c' !! 5 = Some (LedState_of OFF)
  /\ led_states c' !! 9 = Some (LedState_of OFF)
  /\ led_states c' !! 6 = None.
Proof.
  cbv zeta.
  pose proof (sparkle_leaves_no_trail (5, WHITE) (5, YELLOW) (60, WHITE)
                (fst (set_pad_color 9 RED 6 (LedController_init false)))
                [pad_message 9 RED 6] eq_refl
                ltac:(simpl; lia) ltac:(simpl; lia) ltac:(simpl; lia)) as H.
  cbv zeta in H.
  destruct (sparkle_frame _ _ _ _) as [c' r]. cbn [fst].
  destruct H as (_ & _ & Hoff & Hkeep & _).
  split; [apply Hoff; [lia | left; now left] |].
  split; [apply Hoff; [lia | right; now eexists] |].
  rewrite Hkeep; [reflexivity |].
  intros [_ [[H | [H | H]] | [s Hs]]]; try discriminate H.
  discriminate Hs.
Defined.

(** ** Animation routines: the snake *)

Lemma in_grid_spec (p : Z * Z) :
  in_grid p = true <-> 0 <= p.1 < 8 /\ 0 <= p.2 < 8.
Proof.
  unfold in_grid.
  rewrite !andb_true_iff, !Z.leb_le, !Z.ltb_lt. lia.
Qed.

Lemma last_write_elem (n : Z) (ws : list (Z * PadColor * Z))
  (w : Z * PadColor * Z) :
  last_write n ws = Some w -> w ∈ ws /\ w.1.1 = n.
Proof.
  unfold last_write. intros H. apply last_Some_elem_of in H.
  now apply list_elem_of_filter in H as [? ?].
Qed.

Lemma last_write_Some (n : Z) (ws : list (Z * PadColor * Z)) :
  In n (map (fun w => w.1.1) ws) -> is_Some (last_write n ws).
Proof.
  induction ws as [| w ws IH] using rev_ind; [intros [] |].
  rewrite map_app, in_app_iff, last_write_snoc. cbn [map In].
  destruct (decide (w.1.1 = n)) as [E | E]; [now eexists |].
  intros [H | [H | []]]; [now apply IH | contradiction].
Qed.

Lemma lit_store_after (ws : list (Z * PadColor * Z)) (st : gmap Z LedState)
  (n : Z) :
  Forall (fun w => w.1.2 <> OFF) ws ->
  lit (store_after ws st) n <-> In n (map (fun w => w.1.1) ws) \/ lit st n.
Proof.
  intros Hcol. unfold lit. rewrite store_after_lookup.
  destruct (last_write n ws) as [w |] eqn:E.
  - apply last_write_elem in E as [Hin Hn]. split.
    + intros _. left. apply in_map_iff. exists w.
      split; [exact Hn | now apply list_elem_of_In].
    + intros _. exists (LedState_of w.1.2). split; [reflexivity |].
      rewrite Forall_forall in Hcol. exact (Hcol w Hin).
  - split; [intros H; now right |].
    intros [Hin | H]; [| exact H].
    apply last_write_Some in Hin as [w Hw]. congruence.
Qed.

Lemma imap_notes (g : nat -> Z * Z -> Z * PadColor * Z) (h : Z * Z -> Z)
  (l : list (Z * Z)) :
  (forall i p, (g i p).1.1 = h p) ->
  map (fun w : Z * PadColor * Z => w.1.1) (imap g l) = map h l.
Proof.
  revert g. induction l as [| p l IH]; intros g Hg; [reflexivity |].
  cbn [imap map]. rewrite Hg. f_equal. apply IH. intros i q. apply Hg.
Qed.

Lemma snake_writes_notes (sn : list (Z * Z)) :
  map (fun w : Z * PadColor * Z => w.1.1) (snake_writes sn)
  = map (fun p : Z * Z => p.1 * 8 + p.2) sn.
Proof. unfold snake_writes. now apply imap_notes. Qed.

Lemma snake_writes_colors (sn : list (Z * Z)) :
  Forall (fun w : Z * PadColor * Z => w.1.2 <> OFF) (snake_writes sn).
Proof.
  apply Forall_forall. intros w Hw. unfold snake_writes in Hw.
  apply elem_of_lookup_imap in Hw as (i & p & -> & _). cbn [fst snd].
  now destruct (decide _).
Qed.

Lemma snake_writes_valid (sn : list (Z * Z)) :
  Forall on_border sn -> Forall valid_write (snake_writes sn).
Proof.
  intros Hb. apply Forall_forall. intros w Hw. unfold snake_writes in Hw.
  apply elem_of_lookup_imap in Hw as (i & p & -> & Hp).
  rewrite Forall_forall in Hb.
  destruct (Hb p (list_elem_of_lookup_2 _ _ _ Hp)) as [Hg _].
  apply in_grid_spec in Hg. unfold valid_write, default_channel.
  cbn [fst snd]. lia.
Qed.

Lemma snake_writes_head (body : list (Z * Z)) (head : Z * Z) :
  last_write (head.1 * 8 + head.2) (snake_writes (body ++ [head]))
  = Some (head.1 * 8 + head.2, RED, default_channel).
Proof.
  unfold snake_writes. rewrite imap_app. cbn [imap].
  rewrite last_write_snoc. cbn [fst snd].
  rewrite decide_True by reflexivity.
  rewrite decide_True; [reflexivity |].
  rewrite length_app. cbn [length]. lia.
Qed.

Lemma moved_last (sn : list (Z * Z)) (new_head : Z * Z) :
  last (moved sn new_head) = Some new_head.
Proof.
  unfold moved. destruct (5 <? length (sn ++ [new_head]))%nat eqn:E.
  - destruct sn as [| p sn]; [discriminate E |].
    cbn [app tail]. apply last_snoc.
  - apply last_snoc.
Qed.

Lemma moved_length (sn : list (Z * Z)) (new_head : Z * Z) :
  (length sn <= 5 -> 1 <= length (moved sn new_head) <= 5)%nat.
Proof.
  unfold moved. intros H.
  destruct (5 <? length (sn ++ [new_head]))%nat eqn:E.
  - destruct sn as [| p sn]; [discriminate E |].
    cbn [app tail]. rewrite length_app in *. cbn [length] in *. lia.
  - apply Nat.ltb_ge in E. rewrite length_app in *. cbn [length] in *. lia.
Qed.

Lemma moved_Forall (P : Z * Z -> Prop) (sn : list (Z * Z))
  (new_head : Z * Z) :
  Forall P sn -> P new_head -> Forall P (moved sn new_head).
Proof.
  intros Hsn Hnew. unfold moved.
  assert (H : Forall P (sn ++ [new_head])).
  { apply Forall_app. split; [exact Hsn | now constructor]. }
  destruct (5 <? length (sn ++ [new_head]))%nat; [| exact H].
  destruct (sn ++ [new_head]); [constructor |].
  now apply Forall_cons in H as [_ H].
Qed.

Lemma on_track_moved (s : Snake) (head : Z * Z) :
  on_track s -> last (snake s) = Some head ->
  in_grid (head.1 + (direction s).1, head.2 + (direction s).2) = true ->
  on_track {| snake := moved (snake s) (head.1 + (direction s).1,
                                         head.2 + (direction s).2);
              direction := direction s |}.
Proof.
  intros (head' & Hl & Hlen & Hb & Hh) Hhead Hg.
  assert (head' = head) as -> by congruence.
  exists (head.1 + (direction s).1, head.2 + (direction s).2).
  cbn [snake direction].
  split; [apply moved_last |].
  split; [now apply moved_length |].
  pose proof (proj1 (in_grid_spec _) Hg) as Hg'. cbn [fst snd] in Hg'.
  split.
  - apply moved_Forall; [exact Hb |]. split; [exact Hg |]. cbn [fst snd].
    destruct Hh as [[-> H] | [[-> H] | [[-> H] | [-> H]]]];
      cbn [fst snd] in *; lia.
  - destruct Hh as [[E H] | [[E H] | [[E H] | [E H]]]]; rewrite E in *;
      unfold heading; cbn [fst snd] in *;
      [left | right; left | right; right; left | right; right; right];
      (split; [reflexivity | lia]).
Qed.

Lemma on_track_turned (s : Snake) (head : Z * Z) :
  on_track s -> last (snake s) = Some head ->
  in_grid (head.1 + (direction s).1, head.2 + (direction s).2) = false ->
  on_track {| snake := snake s; direction := turned (direction s) |}
  /\ in_grid (head.1 + (turned (direction s)).1,
              head.2 + (turned (direction s)).2) = true.
Proof.
  intros (head' & Hl & Hlen & Hb & Hh) Hhead Hg.
  assert (head' = head) as -> by congruence.
  assert (Hin : in_grid head = true).
  { rewrite Forall_forall in Hb.
    exact (proj1 (Hb head (last_Some_elem_of _ _ Hl))). }
  apply in_grid_spec in Hin.
  assert (Hout : ~ (0 <= head.1 + (direction s).1 < 8
                    /\ 0 <= head.2 + (direction s).2 < 8)).
  { intros H. apply (proj2 (in_grid_spec (_, _))) in H. congruence. }
  split.
  - exists head. cbn [snake direction].
    split; [exact Hl |]. split; [exact Hlen |]. split; [exact Hb |].
    destruct Hh as [[E H] | [[E H] | [[E H] | [E H]]]]; rewrite E in *;
      unfold heading, turned; cbn [fst snd] in *;
      [right; left | right; right; left | right; right; right | left];
      (split; [reflexivity | lia]).
  - apply in_grid_spec.
    destruct Hh as [[E H] | [[E H] | [[E H] | [E H]]]]; rewrite E in *;
      rewrite ?(eq_refl : turned (0, 1) = (1, 0)),
        ?(eq_refl : turned (1, 0) = (0, -1)),
        ?(eq_refl : turned (0, -1) = (-1, 0)),
        ?(eq_refl : turned (-1, 0) = (0, 1));
      cbn [fst snd] in *; lia.
Qed.

Lemma snake_frame_turn (s : Snake) (head : Z * Z) (c : LedController) :
  last (snake s) = Some head ->
  in_grid (head.1 + (direction s).1, head.2 + (direction s).2) = false ->
  snake_frame s c
  = (c, Return (SnakeNext {| snake := snake s;
                             direction := turned (direction s) |})).
Proof.
  intros Hl Hg. unfold snake_frame. rewrite Hl. cbv zeta. now rewrite Hg.
Qed.

Lemma snake_frame_move (s : Snake) (head : Z * Z) (c : LedController)
  (sent : list Message) :
  on_track s -> last (snake s) = Some head ->
  in_grid (head.1 + (direction s).1, head.2 + (direction s).2) = true ->
  output_port c = Some sent ->
  let sn := moved (snake s) (head.1 + (direction s).1,
                             head.2 + (direction s).2) in
  snake_frame s c
  = (set_output_port
       (Some ((sent
               ++ map (fun n => pad_message n OFF 6) (range 64)
               ++ map (fun b => button_message b 0) ButtonType_members)
              ++ map write_message (snake_writes sn)))
       (set_led_states
          (fun st =>
             store_after (snake_writes sn)
               (foldl (fun m n => <[n := LedState_of OFF]> m) st
                  (range 64))) c),
     Return (SnakeNext {| snake := sn; direction := direction s |})).
Proof.
  intros Ht Hl Hg Hp sn.
  pose proof (on_track_moved s head Ht Hl Hg) as (_ & _ & _ & Hb & _).
  cbn [snake direction] in Hb. fold sn in Hb.
  unfold snake_frame. rewrite Hl. cbv zeta. rewrite Hg. cbn [negb].
  fold sn. unfold bind at 1. rewrite (clear_all_ok c sent Hp).
  unfold bind at 1.
  erewrite write_all_ok; [| now apply snake_writes_valid | reflexivity].
  unfold ret. f_equal.
Qed.

(** The pads the snake is drawn on. *)
Lemma snake_frame_display (s : Snake) (c : LedController) (n : Z) :
  0 <= n <= 63 ->
  lit (store_after (snake_writes (snake s))
         (foldl (fun m k => <[k := LedState_of OFF]> m) (led_states c)
            (range 64))) n
  <-> exists p, p ∈ snake s /\ n = p.1 * 8 + p.2.
Proof.
  intros Hn. rewrite lit_store_after by apply snake_writes_colors.
  rewrite snake_writes_notes, in_map_iff. split.
  - intros [(p & <- & Hp) | (st & Hst & Hcol)].
    + exists p. split; [now apply list_elem_of_In | reflexivity].
    + rewrite lookup_foldl_insert, decide_True in Hst
        by (apply elem_of_range; lia).
      injection Hst as <-. now elim Hcol.
  - intros (p & Hp & ->). left. exists p.
    split; [reflexivity | now apply list_elem_of_In].
Qed.

Lemma snake_frame_drawn (s : Snake) (c : LedController) :
  on_track s -> is_Some (output_port c) ->
  snake_drawn c s \/ (exists p, next_cell s = Some p /\ in_grid p = true) ->
  exists c' s', snake_frame s c = (c', Return (SnakeNext s'))
                /\ snake_drawn c' s'.
Proof.
  intros Ht [sent Hp] Hcase.
  destruct Ht as (head & Hl & Ht'). pose proof Ht' as (Hlen & Hb & Hh).
  assert (Ht : on_track s) by (exists head; tauto). clear Ht'.
  destruct (in_grid (head.1 + (direction s).1, head.2 + (direction s).2))
    eqn:Hg.
  - pose proof (snake_frame_move s head c sent Ht Hl Hg Hp) as E.
    cbv zeta in E.
    pose proof (on_track_moved s head Ht Hl Hg) as Ht1.
    set (sn := moved (snake s) (head.1 + (direction s).1,
                                head.2 + (direction s).2)) in *.
    eexists _, _. split; [exact E |].
    split; [exact Ht1 |]. split; [now eexists |].
    cbn [led_states set_output_port set_led_states snake].
    split.
    + intros n Hn.
      exact (snake_frame_display {| snake := sn; direction := direction s |}
               c n Hn).
    + exists (head.1 + (direction s).1, head.2 + (direction s).2).
      split; [apply moved_last |].
      pose proof (moved_last (snake s)
                    (head.1 + (direction s).1, head.2 + (direction s).2))
        as Hlast.
      fold sn in Hlast. apply last_Some in Hlast as [body Hbody].
      rewrite Hbody, store_after_lookup, snake_writes_head. reflexivity.
  - destruct Hcase as [Hd | (p & Hnext & Hp')].
    + rewrite (snake_frame_turn s head c Hl Hg).
      eexists _, _. split; [reflexivity |].
      destruct Hd as (_ & Hop & Hlit & Hred).
      split; [exact (proj1 (on_track_turned s head Ht Hl Hg)) |].
      split; [exact Hop |]. split; [exact Hlit | exact Hred].
    + unfold next_cell in Hnext. rewrite Hl in Hnext.
      cbn in Hnext. injection Hnext as <-. congruence.
Qed.

Lemma snake_frames_drawn (k : nat) :
  forall (s : Snake) (c : LedController),
    snake_drawn c s ->
    exists c' s', snake_frames k s c = (c', Return (SnakeNext s'))
                  /\ snake_drawn c' s'.
Proof.
  induction k as [| k IH]; intros s c Hd.
  - exists c, s. split; [reflexivity | exact Hd].
  - destruct (snake_frame_drawn s c (proj1 Hd) (proj1 (proj2 Hd))
                (or_introl Hd)) as (c1 & s1 & E1 & Hd1).
    destruct (IH s1 c1 Hd1) as (c2 & s2 & E2 & Hd2).
    exists c2, s2. split; [| exact Hd2].
    cbn [snake_frames]. unfold bind. now rewrite E1.
Qed.

(** X20.  The snake never leaves the outer ring of the grid.  After any
    positive number of passes of the loop of [_snake_animation], on an
    open port, no exception was raised ([snake[-1]] included), the snake
    has one to five cells, all of them on the outer ring, and runs along
    the side its head is on; the pads 0..63 that are lit in the state
    store are exactly the cells of the snake, and the head's pad is
    [RED]. *)
Theorem snake_walks_the_border (k : nat) (c : LedController)
  (sent : list Message) :
  output_port c = Some sent ->
  let '(c', r) := _snake_animation (S k) c in
  exists s head,
    r = Return (SnakeNext s)
    /\ on_track s
    /\ (1 <= length (snake s) <= 5)%nat
    /\ Forall on_border (snake s)
    /\ (forall n, 0 <= n <= 63 ->
                  lit (led_states c') n
                  <-> exists p, p ∈ snake s /\ n = p.1 * 8 + p.2)
    /\ last (snake s) = Some head
    /\ led_states c' !! (head.1 * 8 + head.2) = Some (LedState_of RED).
Proof.
  intros Hp. unfold _snake_animation.
  set (s0 := {| snake := [(0, 0)]; direction := (0, 1) |}).
  assert (Ht0 : on_track s0).
  { exists (0, 0). split; [reflexivity |]. split; [simpl; lia |].
    split; [| left; now split].
    constructor; [| constructor]. split; [reflexivity | now left]. }
  destruct (snake_frame_drawn s0 c Ht0 (ex_intro _ sent Hp))
    as (c1 & s1 & E1 & Hd1).
  { right. exists (0, 1). now split. }
  destruct (snake_frames_drawn k s1 c1 Hd1) as (c2 & s2 & E2 & Hd2).
  cbn [snake_frames]. unfold bind. rewrite E1, E2.
  destruct Hd2 as (Ht & _ & Hlit & head & Hl & Hred).
  exists s2, head. split; [reflexivity |]. split; [exact Ht |].
  destruct Ht as (head' & Hl' & Hlen & Hb & _).
  split.
  { split; [| exact Hlen]. destruct (snake s2); [discriminate Hl' |].
    simpl. lia. }
  split; [exact Hb |]. split; [exact Hlit |]. split; [exact Hl | exact Hred].
Qed.

Lemma snake_walks_the_border_witness :
  exists s head,
    snd (_snake_animation 9 (LedController_init false))
    = Return (SnakeNext s)
    /\ Forall on_border (snake s)
    /\ last (snake s) = Some head
    /\ led_states (fst (_snake_animation 9 (LedController_init false)))
         !! (head.1 * 8 + head.2) = Some (LedState_of RED).
Proof.
  pose proof (snake_walks_the_border 8 (LedController_init false) []
                eq_refl) as H.
  destruct (_snake_animation 9 (LedController_init false)) as [c' r].
  destruct H as (s & head & Hr & _ & _ & Hb & _ & Hl & Hred).
  exists s, head. cbn [fst snd]. tauto.
Defined.

(** X21.  A pass of the loop of [_snake_animation] either moves the head
    by one cell and redraws everything, which sends the 80 messages of
    [clear_all] and one message for each cell of the snake, or finds the
    head at a wall: then only the direction changes, nothing is written,
    and the cell the next pass tries is in the grid, so that no two passes
    in a row leave the display as it is. *)
Theorem snake_turns_once (s : Snake) (c : LedController)
  (sent : list Message) :
  on_track s -> output_port c = Some sent ->
  let '(c', r) := snake_frame s c in
  exists s',
    r = Return (SnakeNext s') /\ on_track s'
    /\ ((direction s' = direction s
         /\ next_cell s = last (snake s')
         /\ exists new, output_port c' = Some (sent ++ new)
                        /\ length new = (80 + length (snake s'))%nat)
        \/ (c' = c /\ snake s' = snake s
            /\ direction s' = turned (direction s)
            /\ exists p, next_cell s' = Some p /\ in_grid p = true)).
Proof.
  intros Ht Hp. pose proof Ht as (head & Hl & _).
  destruct (in_grid (head.1 + (direction s).1, head.2 + (direction s).2))
    eqn:Hg.
  - pose proof (snake_frame_move s head c sent Ht Hl Hg Hp) as E.
    cbv zeta in E. rewrite E. eexists. split; [reflexivity |].
    split; [exact (on_track_moved s head Ht Hl Hg) |].
    left. cbn [snake direction]. split; [reflexivity |].
    split.
    { unfold next_cell. rewrite Hl, moved_last. reflexivity. }
    eexists. cbn [output_port set_output_port]. split.
    + rewrite <- !app_assoc. reflexivity.
    + rewrite !length_app, !length_map. unfold snake_writes.
      rewrite length_imap. reflexivity.
  - rewrite (snake_frame_turn s head c Hl Hg).
    destruct (on_track_turned s head Ht Hl Hg) as [Ht1 Hg1].
    eexists. split; [reflexivity |]. split; [exact Ht1 |].
    right. cbn [snake direction]. do 3 (split; [reflexivity |]).
    eexists. split; [| exact Hg1].
    unfold next_cell. cbn [snake direction]. rewrite Hl. reflexivity.
Qed.

Lemma snake_turns_once_witness :
  let s := {| snake := [(0, 6); (0, 7)]; direction := (0, 1) |} in
  exists s',
    snd (snake_frame s (LedController_init false)) = Return (SnakeNext s')
    /\ on_track s'.
Proof.
  cbv zeta.
  pose proof (snake_turns_once
                {| snake := [(0, 6); (0, 7)]; direction := (0, 1) |}
                (LedController_init false) []) as H.
  destruct (snake_frame _ _) as [c' r].
  destruct H as (s' & Hr & Ht & _).
  - exists (0, 7). split; [reflexivity |]. split; [simpl; lia |].
    split; [| left; now split].
    repeat constructor.
  - reflexivity.
  - exists s'. now split.
Defined.

(** ** Animation routines: the rain *)

Lemma writes_for_each {A} (body : A -> M LedController unit)
  (F : A -> gmap Z LedState -> gmap Z LedState) (xs : list A) :
  (forall x, x ∈ xs -> writes (body x) (F x)) ->
  writes (for_each xs body) (fun st => foldl (fun m x => F x m) st xs).
Proof.
  induction xs as [| x xs IH]; intros Hbody c sent Hp.
  - exists []. cbn [for_each foldl]. unfold ret.
    destruct c; cbn [output_port] in Hp; subst.
    unfold set_output_port, set_led_states.
    cbn [input_port output_port loopback_port led_states running channel
         animation_running].
    now rewrite app_nil_r.
  - destruct (Hbody x ltac:(now left) c sent Hp) as [new1 E1].
    destruct (IH (fun y Hy => Hbody y ltac:(now right))
                (set_output_port (Some (sent ++ new1))
                   (set_led_states (F x) c))
                (sent ++ new1) eq_refl) as [new2 E2].
    exists (new1 ++ new2). cbn [for_each foldl]. unfold bind.
    rewrite E1, E2, <- app_assoc. reflexivity.
Qed.

Lemma writes_bind (m1 m2 : M LedController unit)
  (F1 F2 : gmap Z LedState -> gmap Z LedState) :
  writes m1 F1 -> writes m2 F2 ->
  writes (m1 ;;; m2) (fun st => F2 (F1 st)).
Proof.
  intros H1 H2 c sent Hp.
  destruct (H1 c sent Hp) as [new1 E1].
  destruct (H2 (set_output_port (Some (sent ++ new1)) (set_led_states F1 c))
              (sent ++ new1) eq_refl) as [new2 E2].
  exists (new1 ++ new2). unfold bind. rewrite E1, E2, <- app_assoc.
  reflexivity.
Qed.

Lemma writes_rain_cell (row col : Z) :
  1 <= row <= 7 -> 0 <= col <= 7 ->
  writes (rain_cell row col) (rain_cell_store row col).
Proof.
  intros Hrow Hcol c sent Hp. unfold rain_cell, rain_cell_store. cbv zeta.
  destruct c as [ip op lp st rn ch ar]. cbn [output_port] in Hp. subst op.
  unfold set_output_port, set_led_states.
  cbn [input_port output_port loopback_port led_states running channel
       animation_running].
  destruct (st !! _get_note row col) as [s |] eqn:E;
    [destruct (decide (color s <> OFF)) as [Hs | Hs] |].
  - eexists. unfold bind at 1.
    erewrite set_pad_color_ok;
      [| lia | unfold _get_note; lia | reflexivity].
    unfold bind at 1.
    erewrite set_pad_color_ok;
      [| unfold default_channel; lia | unfold _get_note; lia | reflexivity].
    unfold ret, set_output_port, set_led_states.
    cbn [input_port output_port loopback_port led_states running channel
         animation_running].
    rewrite <- app_assoc. reflexivity.
  - exists []. now rewrite app_nil_r.
  - exists []. now rewrite app_nil_r.
Qed.

Lemma lit_insert (st : gmap Z LedState) (n k : Z) (col : PadColor) :
  lit (<[n := LedState_of col]> st) k
  <-> (k = n /\ col <> OFF) \/ (k <> n /\ lit st k).
Proof.
  unfold lit. destruct (decide (k = n)) as [-> | Hne].
  - rewrite lookup_insert_eq. split.
    + intros (s & [= <-] & H). now left.
    + intros [[_ H] | [H _]]; [| contradiction].
      exists (LedState_of col). now split.
  - rewrite lookup_insert_ne by congruence. split.
    + intros H. now right.
    + intros [[H _] | [_ H]]; [contradiction | exact H].
Qed.

Lemma rain_cell_lit (row col : Z) (st : gmap Z LedState) (k : Z) :
  lit (rain_cell_store row col st) k
  <-> (lit st (row * 8 + col)
       /\ (k = (row - 1) * 8 + col
           \/ (k <> row * 8 + col /\ lit st k)))
      \/ (~ lit st (row * 8 + col) /\ lit st k).
Proof.
  unfold rain_cell_store, _get_note.
  destruct (st !! (row * 8 + col)) as [s |] eqn:E;
    [destruct (decide (color s <> OFF)) as [Hs | Hs] |].
  - assert (Hcur : lit st (row * 8 + col)) by (exists s; now split).
    rewrite !lit_insert. split.
    + intros [[_ H] | [H1 [[H2 _] | [H2 H3]]]];
        [now elim H | left; split; [exact Hcur | now left] |].
      left. split; [exact Hcur |]. right. now split.
    + intros [[_ [H | [H1 H2]]] | [H _]]; [| | contradiction].
      * right. split; [lia |]. left. now split.
      * right. split; [exact H1 |].
        destruct (decide (k = (row - 1) * 8 + col)) as [H | H];
          [left; now split | right; now split].
  - assert (Hcur : ~ lit st (row * 8 + col)).
    { intros (s' & Hs' & Hc). rewrite E in Hs'. injection Hs' as <-.
      contradiction. }
    tauto.
  - assert (Hcur : ~ lit st (row * 8 + col)).
    { intros (s' & Hs' & _). congruence. }
    tauto.
Qed.

(** The store while a row is processed, after its first [j] columns. *)
Lemma rain_cols_lit (row : Z) (st : gmap Z LedState) (j : nat) (k : Z) :
  (j <= 8)%nat ->
  lit (foldl (fun m col => rain_cell_store row col m) st (range j)) k
  <-> ~ (row * 8 <= k < row * 8 + Z.of_nat j)
      /\ (lit st k
          \/ ((row - 1) * 8 <= k < (row - 1) * 8 + Z.of_nat j
              /\ lit st (k + 8))).
Proof.
  revert k. induction j as [| j IH]; intros k Hj.
  - cbn [range seq map foldl]. split.
    + intros H. split; [lia | now left].
    + intros [_ [H | [H _]]]; [exact H | lia].
  - unfold range. rewrite seq_S, map_app, foldl_app. cbn [map foldl plus].
    fold (range j).
    assert (IH' := fun k => IH k ltac:(lia)). clear IH.
    assert (Hcur : lit (foldl (fun m col => rain_cell_store row col m) st
                          (range j)) (row * 8 + Z.of_nat j)
                   <-> lit st (row * 8 + Z.of_nat j)).
    { rewrite IH'. split.
      - intros [_ [H | [H _]]]; [exact H | lia].
      - intros H. split; [lia | now left]. }
    rewrite rain_cell_lit, Hcur, IH'. clear Hcur IH'.
    destruct (decide (k = (row - 1) * 8 + Z.of_nat j)) as [-> | Hk].
    + replace ((row - 1) * 8 + Z.of_nat j + 8) with (row * 8 + Z.of_nat j)
        by lia.
      destruct (decide (lit st (row * 8 + Z.of_nat j))) as [Hc | Hc];
        intuition lia.
    + destruct (decide (lit st (row * 8 + Z.of_nat j))) as [Hc | Hc].
      * intuition lia.
      * destruct (decide (k = row * 8 + Z.of_nat j)) as [-> | Hk'];
          intuition lia.
Qed.

Lemma rain_row_lit (row : Z) (st : gmap Z LedState) (k : Z) :
  lit (rain_row_store row st) k
  <-> ~ (row * 8 <= k < row * 8 + 8)
      /\ (lit st k
          \/ ((row - 1) * 8 <= k < (row - 1) * 8 + 8 /\ lit st (k + 8))).
Proof. unfold rain_row_store. now rewrite rain_cols_lit by lia. Qed.

(** The store after the first [m] rows: the rows processed are dark, and
    what was lit in them is lit in the row below the last one. *)
Lemma rain_rows_lit (m : nat) (st : gmap Z LedState) (k : Z) :
  (m <= 7)%nat ->
  lit (rain_rows_store m st) k
  <-> (k < (8 - Z.of_nat m) * 8 \/ 64 <= k)
      /\ (lit st k
          \/ ((7 - Z.of_nat m) * 8 <= k < (8 - Z.of_nat m) * 8
              /\ exists i, 1 <= i <= Z.of_nat m /\ lit st (k + 8 * i))).
Proof.
  revert k. induction m as [| m IH]; intros k Hm.
  - unfold rain_rows_store. cbn [range seq map foldl]. split.
    + intros H. split; [lia | now left].
    + intros [_ [H | [_ (i & Hi & _)]]]; [exact H | lia].
  - unfold rain_rows_store, range.
    rewrite seq_S, !map_app, foldl_app. cbn [map foldl plus].
    fold (range m). fold (rain_rows_store m st).
    rewrite rain_row_lit, !IH by lia. split.
    + intros [Hrow [[Hk Hl] | [Hbelow [_ Hl]]]].
      * split; [lia |].
        destruct Hl as [Hl | [Hl _]]; [now left | lia].
      * split; [lia |]. right. split; [lia |].
        destruct Hl as [Hl | [_ (i & Hi & Hl)]].
        -- exists 1. split; [lia |].
           now replace (k + 8 * 1) with (k + 8) by lia.
        -- exists (i + 1). split; [lia |].
           now replace (k + 8 * (i + 1)) with (k + 8 + 8 * i) by lia.
    + intros [Hk [Hl | [Hrow (i & Hi & Hl)]]].
      * split; [lia |]. left. split; [lia | now left].
      * split; [lia |]. right. split; [lia |]. split; [lia |].
        destruct (decide (i = 1)) as [-> | Hi1].
        -- left. now replace (k + 8) with (k + 8 * 1) by lia.
        -- right. split; [lia |]. exists (i - 1). split; [lia |].
           now replace (k + 8 + 8 * (i - 1)) with (k + 8 * i) by lia.
Qed.

Lemma writes_rain_frame (col1 col2 col3 : Z) :
  0 <= col1 <= 7 -> 0 <= col2 <= 7 -> 0 <= col3 <= 7 ->
  writes (rain_frame col1 col2 col3)
    (fun st =>
       rain_rows_store 7
         (store_after [(_get_note 7 col1, LIGHT_BLUE, default_channel);
                       (_get_note 7 col2, LIGHT_BLUE, default_channel);
                       (_get_note 7 col3, LIGHT_BLUE, default_channel)]
            st)).
Proof.
  intros H1 H2 H3. unfold rain_frame. apply writes_bind.
  - intros c sent Hp. eexists.
    exact (write_all_ok
             [(_get_note 7 col1, LIGHT_BLUE, default_channel);
              (_get_note 7 col2, LIGHT_BLUE, default_channel);
              (_get_note 7 col3, LIGHT_BLUE, default_channel)]
             ltac:(repeat constructor; unfold _get_note, default_channel;
                   cbn [fst snd]; lia)
             c sent Hp).
  - apply (writes_for_each
             (fun row => for_each (range 8) (fun col => rain_cell row col))
             rain_row_store).
    intros row Hrow.
    apply (writes_for_each (fun col => rain_cell row col)
             (rain_cell_store row)).
    intros col Hcol. apply elem_of_range in Hcol.
    apply writes_rain_cell; [| lia].
    rewrite ?elem_of_cons, ?elem_of_nil in Hrow. lia.
Qed.

(** X22.  In one frame of the rain every drop falls to the bottom row.
    The second loop of [_rain_animation] goes through the rows from the
    top, so a drop it moves from a row to the row below is moved again
    when that row is processed.  After a frame, on an open port and with
    the new drops in columns 0..7: no exception was raised; no pad of the
    rows 1..7 is lit in the state store; a pad of row 0 is lit exactly if
    it was lit before, or a pad of its column was lit before, or the frame
    drew a drop for its column; and what the store holds for notes
    outside 0..63 is lit as before. *)
Theorem rain_falls_in_one_frame (col1 col2 col3 : Z) (c : LedController)
  (sent : list Message) :
  output_port c = Some sent ->
  0 <= col1 <= 7 -> 0 <= col2 <= 7 -> 0 <= col3 <= 7 ->
  let '(c', r) := rain_frame col1 col2 col3 c in
  r = Return tt
  /\ (exists new, output_port c' = Some (sent ++ new))
  /\ (forall row col, 1 <= row <= 7 -> 0 <= col <= 7 ->
                      ~ lit (led_states c') (_get_note row col))
  /\ (forall col, 0 <= col <= 7 ->
                  lit (led_states c') (_get_note 0 col)
                  <-> col = col1 \/ col = col2 \/ col = col3
                      \/ exists row, 0 <= row <= 7
                                     /\ lit (led_states c)
                                          (_get_note row col))
  /\ (forall n, n < 0 \/ 64 <= n ->
                lit (led_states c') n <-> lit (led_states c) n).
Proof.
  intros Hp H1 H2 H3.
  destruct (writes_rain_frame col1 col2 col3 H1 H2 H3 c sent Hp)
    as [new E].
  rewrite E. split; [reflexivity |].
  split; [now exists new |].
  cbn [led_states set_output_port set_led_states].
  set (drops := [(_get_note 7 col1, LIGHT_BLUE, default_channel);
                 (_get_note 7 col2, LIGHT_BLUE, default_channel);
                 (_get_note 7 col3, LIGHT_BLUE, default_channel)]).
  assert (Hdrops : forall n,
             lit (store_after drops (led_states c)) n
             <-> (n = 56 + col1 \/ n = 56 + col2 \/ n = 56 + col3)
                 \/ lit (led_states c) n).
  { intros n. rewrite lit_store_after
      by (subst drops; repeat constructor; discriminate).
    subst drops. unfold _get_note. cbn [map In fst snd].
    split; (intros [H | H]; [left; lia | now right]). }
  unfold _get_note. split; [| split].
  - intros row col Hrow Hcol. rewrite rain_rows_lit by lia. lia.
  - intros col Hcol. rewrite rain_rows_lit by lia.
    rewrite Hdrops. split.
    + intros [_ [[H | H] | [_ (i & Hi & H)]]]; [lia | |].
      * do 3 right. exists 0. split; [lia | exact H].
      * apply Hdrops in H as [H | H]; [lia |].
        do 3 right. exists i. split; [lia |].
        now replace (i * 8 + col) with (0 * 8 + col + 8 * i) by lia.
    + intros H. split; [lia |].
      assert (Hcase : (exists row, 1 <= row <= 7
                          /\ lit (store_after drops (led_states c))
                               (0 * 8 + col + 8 * row))
                      \/ lit (led_states c) (0 * 8 + col)).
      { assert (Htop : col = col1 \/ col = col2 \/ col = col3 ->
                       lit (store_after drops (led_states c))
                         (0 * 8 + col + 8 * 7)).
        { intros Hc. apply Hdrops. left. lia. }
        destruct H as [H | [H | [H | (row & Hrow & H)]]];
          [left; exists 7; split; [lia | apply Htop; tauto] .. |].
        destruct (decide (row = 0)) as [-> | Hr0]; [now right |].
        left. exists row. split; [lia |]. apply Hdrops. right.
        now replace (0 * 8 + col + 8 * row) with (row * 8 + col) by lia. }
      destruct Hcase as [(row & Hrow & Hl) | Hl].
      * right. split; [lia |]. now exists row.
      * left. now right.
  - intros n Hn. rewrite rain_rows_lit by lia. rewrite Hdrops. split.
    + intros [_ [[H | H] | [H _]]]; [lia | exact H | lia].
    + intros H. split; [lia |]. left. now right.
Qed.

Lemma rain_falls_in_one_frame_witness :
  let c' := fst (rain_frame 2 2 5 (LedController_init false)) in
  lit (led_states c') (_get_note 0 2)
  /\ ~ lit (led_states c') (_get_note 7 2)
  /\ ~ lit (led_states c') (_get_note 0 3).
Proof.
  cbv zeta.
  pose proof (rain_falls_in_one_frame 2 2 5 (LedController_init false) []
                eq_refl ltac:(lia) ltac:(lia) ltac:(lia)) as H.
  destruct (rain_frame 2 2 5 (LedController_init false)) as [c' r].
  cbn [fst]. destruct H as (_ & _ & Hdark & Hrow0 & _).
  split; [apply Hrow0; [lia | now left] |].
  split; [apply Hdark; lia |].
  intros H. apply Hrow0 in H; [| lia].
  destruct H as [H | [H | [H | (row & _ & s & Hs & _)]]]; try lia.
  discriminate Hs.
Defined.

(** ** Animation routines: the falling blocks *)


Lemma for_each_map {S A B} (f : A -> B) (body : B -> M S unit)
  (xs : list A) :
  for_each (map f xs) body = for_each xs (fun x => body (f x)).
Proof.
  induction xs as [| x xs IH]; [reflexivity |].
  cbn [map for_each]. now rewrite IH.
Qed.









(** ** Animation routines: the equalizer *)

Lemma draw_targets_ok (draws : nat -> option Z) (cols : list nat) :
  NoDup cols ->
  forall target_levels : list Z,
    (forall i, i ∈ cols -> (i < length target_levels)%nat) ->
    exists ts,
      draw_targets draws cols target_levels = Some ts
      /\ length ts = length target_levels
      /\ (forall i, i ∈ cols -> ts !! i = drawn_target draws target_levels i)
      /\ (forall i, i ∉ cols -> ts !! i = target_levels !! i).
Proof.
  induction 1 as [| i cols Hi Hnd IH]; intros ts0 Hlen.
  - exists ts0. split; [reflexivity |]. split; [reflexivity |].
    split; [intros i Hi; now apply elem_of_nil in Hi | reflexivity].
  - cbn [draw_targets]. unfold drawn_target in *.
    pose proof (Hlen i ltac:(now left)) as Hlt.
    destruct (draws i) as [t |] eqn:Ed.
    + rewrite decide_True by exact Hlt.
      destruct (IH (<[i := t]> ts0)) as (ts & E & Hl & Hin & Hout).
      { intros j Hj. rewrite length_insert. apply Hlen. now right. }
      exists ts. split; [exact E |].
      split; [now rewrite Hl, length_insert |]. split.
      * intros j [-> | Hj]%elem_of_cons.
        -- rewrite Ed, (Hout i Hi). now apply list_lookup_insert_eq.
        -- rewrite (Hin j Hj). destruct (draws j); [reflexivity |].
           apply list_lookup_insert_ne. intros ->. contradiction.
      * intros j Hj. rewrite not_elem_of_cons in Hj. destruct Hj as [Hne Hj].
        rewrite (Hout j Hj). apply list_lookup_insert_ne. congruence.
    + destruct (IH ts0) as (ts & E & Hl & Hin & Hout).
      { intros j Hj. apply Hlen. now right. }
      exists ts. split; [exact E |]. split; [exact Hl |]. split.
      * intros j [-> | Hj]%elem_of_cons.
        -- now rewrite Ed, (Hout i Hi).
        -- exact (Hin j Hj).
      * intros j Hj. rewrite not_elem_of_cons in Hj. destruct Hj as [_ Hj].
        exact (Hout j Hj).
Qed.

Lemma for_each_ext {S A} (f g : A -> M S unit) (xs : list A) :
  (forall x, f x = g x) -> for_each xs f = for_each xs g.
Proof.
  intros H. induction xs as [| x xs IH]; [reflexivity |].
  cbn [for_each]. now rewrite H, IH.
Qed.

Lemma equalizer_column_writes (col level : Z) :
  for_each (range 8) (equalizer_cell col level)
  = write_all (equalizer_writes col level).
Proof.
  unfold write_all, equalizer_writes. rewrite for_each_map.
  apply for_each_ext. intros row. unfold equalizer_cell. cbv zeta.
  now destruct (row <=? level).
Qed.

Lemma equalizer_writes_valid (col level : Z) :
  0 <= col <= 7 -> Forall valid_write (equalizer_writes col level).
Proof.
  intros Hcol. apply Forall_forall. intros w Hw.
  apply list_elem_of_In, in_map_iff in Hw as (row & <- & Hrow).
  apply list_elem_of_In, elem_of_range in Hrow.
  unfold valid_write, _get_note. cbn [fst snd]. lia.
Qed.

Lemma equalizer_writes_lookup (col level : Z) (st : gmap Z LedState)
  (k : Z) :
  (forall row, 0 <= row <= 7 -> k = _get_note row col ->
     store_after (equalizer_writes col level) st !! k
     = Some (LedState_of
               (if row <=? level then equalizer_color row else OFF)))
  /\ ((forall row, 0 <= row <= 7 -> k <> _get_note row col) ->
      store_after (equalizer_writes col level) st !! k = st !! k).
Proof.
  assert (Hnotes : map (fun w : Z * PadColor * Z => w.1.1)
                     (equalizer_writes col level)
                   = map (fun row => _get_note row col) (range 8)).
  { unfold equalizer_writes. rewrite map_map. reflexivity. }
  rewrite store_after_lookup. split.
  - intros row Hrow ->.
    pose proof (last_write_NoDup (equalizer_writes col level)
                  (_get_note row col,
                   if row <=? level then equalizer_color row else OFF, 6))
      as Hl.
    cbn [fst snd] in Hl. rewrite Hl; [reflexivity | |].
    + rewrite Hnotes. apply NoDup_fmap_2; [| apply NoDup_range].
      intros x y. unfold _get_note. lia.
    + apply in_map_iff. exists row. split; [reflexivity |].
      apply list_elem_of_In, elem_of_range. lia.
  - intros Hk. rewrite last_write_None; [reflexivity |].
    rewrite Hnotes, in_map_iff. intros (row & <- & Hrow).
    apply list_elem_of_In, elem_of_range in Hrow. apply (Hk row); [lia |].
    reflexivity.
Qed.

Lemma equalizer_columns_ok (target_levels : list Z) (cols : list nat) :
  NoDup cols ->
  forall (levels : list Z) (c : LedController) (sent : list Message),
    (forall col, col ∈ cols ->
       (col < 8 /\ col < length levels /\ col < length target_levels)%nat) ->
    output_port c = Some sent ->
    exists levels' new st',
      equalizer_columns cols levels target_levels c
      = (set_output_port (Some (sent ++ new))
           (set_led_states (fun _ => st') c),
         Return (Some levels'))
      /\ length levels' = length levels
      /\ (forall col, col ∈ cols ->
            exists l t,
              levels !! col = Some l /\ target_levels !! col = Some t
              /\ levels' !! col = Some (equalizer_level l t)
              /\ forall row, 0 <= row <= 7 ->
                   st' !! _get_note row (Z.of_nat col)
                   = Some (LedState_of
                             (if row <=? equalizer_level l t
                              then equalizer_color row else OFF)))
      /\ (forall col, col ∉ cols -> levels' !! col = levels !! col)
      /\ (forall k,
            (forall col row, col ∈ cols -> 0 <= row <= 7 ->
                             k <> _get_note row (Z.of_nat col)) ->
            st' !! k = led_states c !! k).
Proof.
  induction 1 as [| col cols Hcol Hnd IH]; intros levels c sent Hb Hp.
  - exists levels, [], (led_states c). split.
    + cbn [equalizer_columns]. unfold ret.
      destruct c; cbn [output_port] in Hp; subst.
      unfold set_output_port, set_led_states.
      cbn [input_port output_port loopback_port led_states running channel
           animation_running].
      now rewrite app_nil_r.
    + split; [reflexivity |].
      split; [intros col Hc; now apply elem_of_nil in Hc |].
      split; reflexivity.
  - destruct (Hb col ltac:(now left)) as (Hc8 & Hcl & Hct).
    destruct (lookup_lt_is_Some_2 levels col Hcl) as [l El].
    destruct (lookup_lt_is_Some_2 target_levels col Hct) as [t Et].
    cbn [equalizer_columns]. rewrite El, Et. cbv zeta.
    unfold bind at 1. rewrite equalizer_column_writes.
    rewrite (write_all_ok _ (equalizer_writes_valid (Z.of_nat col)
                               (equalizer_level l t) ltac:(lia)) c sent Hp).
    set (ws := equalizer_writes (Z.of_nat col) (equalizer_level l t)).
    destruct (IH (<[col := equalizer_level l t]> levels)
                (set_output_port (Some (sent ++ map write_message ws))
                   (set_led_states (store_after ws) c))
                (sent ++ map write_message ws))
      as (levels' & new & st' & E & Hlen & Hin & Hout & Hst).
    { intros j Hj. rewrite length_insert. apply Hb. now right. }
    { reflexivity. }
    exists levels', (map write_message ws ++ new), st'. split.
    { rewrite E, app_assoc. reflexivity. }
    split; [now rewrite Hlen, length_insert |].
    cbn [led_states set_output_port set_led_states] in Hst.
    pose proof (fun k => equalizer_writes_lookup (Z.of_nat col)
                           (equalizer_level l t) (led_states c) k)
      as Hws.
    fold ws in Hws. split; [| split].
    + intros j [-> | Hj]%elem_of_cons.
      * exists l, t. split; [exact El |]. split; [exact Et |]. split.
        -- rewrite (Hout col Hcol). now apply list_lookup_insert_eq.
        -- intros row Hrow. rewrite Hst.
           ++ exact (proj1 (Hws _) row Hrow eq_refl).
           ++ intros j row' Hj Hrow'. unfold _get_note.
              assert (j <> col) by (intros ->; contradiction).
              pose proof (Hb j ltac:(now right)) as (Hj8 & _). lia.
      * destruct (Hin j Hj) as (l' & t' & El' & Et' & Elev & Hrows).
        rewrite list_lookup_insert_ne in El'
          by (intros ->; contradiction).
        exists l', t'. now repeat split.
    + intros j Hj. rewrite not_elem_of_cons in Hj. destruct Hj as [Hne Hj].
      rewrite (Hout j Hj). apply list_lookup_insert_ne. congruence.
    + intros k Hk. rewrite Hst.
      * apply (proj2 (Hws k)). intros row Hrow.
        apply (Hk col row); [now left | exact Hrow].
      * intros j row Hj Hrow. apply Hk; [now right | exact Hrow].
Qed.

Lemma equalizer_level_range (l t : Z) :
  0 <= l <= 7 -> 0 <= t <= 7 ->
  0 <= equalizer_level l t <= 7
  /\ Z.abs (equalizer_level l t - t) = Z.max 0 (Z.abs (l - t) - 1).
Proof.
  intros Hl Ht. unfold equalizer_level.
  destruct (Z.ltb_spec l t); [lia |].
  destruct (Z.gtb_spec l t); lia.
Qed.

(** X24.  A frame of the equalizer, on an open port, with lists of eight
    levels and eight targets between 0 and 7 and new targets drawn between
    0 and 7: no exception is raised, an [IndexError] included; the lists
    keep their length and their values stay between 0 and 7; the target of
    a column is the one drawn for it, or the old one; the level of every
    column comes one step closer to its target, or stays on it; and in the
    state store the pad at [(row, col)] has the colour of its row if
    [row <= levels[col]], and is [OFF] otherwise.  The pad of row 0 is so
    lit in every column, also at level 0. *)
Theorem equalizer_frame_effect (draws : nat -> option Z)
  (levels target_levels : list Z) (c : LedController)
  (sent : list Message) :
  output_port c = Some sent ->
  length levels = 8%nat -> length target_levels = 8%nat ->
  Forall (fun l => 0 <= l <= 7) levels ->
  Forall (fun t => 0 <= t <= 7) target_levels ->
  (forall i t, draws i = Some t -> 0 <= t <= 7) ->
  let '(c', r) := equalizer_frame draws levels target_levels c in
  exists levels' target_levels',
    r = Return (EqualizerNext levels' target_levels')
    /\ length levels' = 8%nat /\ length target_levels' = 8%nat
    /\ forall col, (col < 8)%nat ->
         exists l t l',
           levels !! col = Some l
           /\ target_levels' !! col = Some t
           /\ drawn_target draws target_levels col = Some t
           /\ levels' !! col = Some l'
           /\ 0 <= t <= 7 /\ 0 <= l' <= 7
           /\ Z.abs (l' - t) = Z.max 0 (Z.abs (l - t) - 1)
           /\ (forall row, 0 <= row <= 7 ->
                 led_states c' !! _get_note row (Z.of_nat col)
                 = Some (LedState_of
                           (if row <=? l' then equalizer_color row
                            else OFF)))
           /\ lit (led_states c') (_get_note 0 (Z.of_nat col)).
Proof.
  intros Hp Hll Hlt Hlr Htr Hdr. unfold equalizer_frame.
  assert (Hseq : forall col, col ∈ seq 0 8 <-> (col < 8)%nat).
  { intros col. rewrite list_elem_of_In, in_seq. lia. }
  destruct (draw_targets_ok draws (seq 0 8)
              ltac:(apply NoDup_seq) target_levels)
    as (ts & Ets & Hlts & Hts & _).
  { intros i Hi. apply Hseq in Hi. lia. }
  rewrite Ets.
  destruct (equalizer_columns_ok ts (seq 0 8)
              ltac:(apply NoDup_seq) levels c sent)
    as (levels' & new & st' & E & Hlen & Hin & _ & _).
  { intros col Hcol. apply Hseq in Hcol. lia. }
  { exact Hp. }
  unfold bind. rewrite E. unfold ret.
  exists levels', ts. split; [reflexivity |].
  split; [lia |]. split; [lia |].
  intros col Hcol. apply Hseq in Hcol.
  destruct (Hin col Hcol) as (l & t & El & Et & El' & Hrows).
  exists l, t, (equalizer_level l t).
  assert (Hl : 0 <= l <= 7).
  { rewrite Forall_forall in Hlr. apply Hlr.
    exact (list_elem_of_lookup_2 _ _ _ El). }
  assert (Ht : 0 <= t <= 7).
  { pose proof (Hts col Hcol) as Hd. rewrite Et in Hd.
    unfold drawn_target in Hd. destruct (draws col) as [t' |] eqn:Ed.
    - injection Hd as ->. exact (Hdr col t' Ed).
    - rewrite Forall_forall in Htr. apply Htr.
      exact (list_elem_of_lookup_2 _ _ _ (eq_sym Hd)). }
  destruct (equalizer_level_range l t Hl Ht) as [Hr Habs].
  cbn [led_states set_output_port set_led_states].
  split; [exact El |]. split; [exact Et |].
  split; [now rewrite <- (Hts col Hcol) |].
  split; [exact El' |]. split; [exact Ht |]. split; [exact Hr |].
  split; [exact Habs |]. split; [exact Hrows |].
  eexists. split; [apply (Hrows 0); lia |].
  destruct (0 <=? equalizer_level l t) eqn:E0.
  - discriminate.
  - apply Z.leb_gt in E0. lia.
Qed.

Lemma equalizer_frame_effect_witness :
  exists levels' target_levels',
    snd (equalizer_frame (fun i => if decide (i = 2)%nat then Some 5 else None)
           (replicate 8 0) (replicate 8 0) (LedController_init false))
    = Return (EqualizerNext levels' target_levels')
    /\ levels' !! 2%nat = Some 1
    /\ target_levels' !! 2%nat = Some 5.
Proof.
  pose proof (equalizer_frame_effect
                (fun i => if decide (i = 2)%nat then Some 5 else None)
                (replicate 8 0) (replicate 8 0) (LedController_init false)
                [] eq_refl eq_refl eq_refl
                ltac:(repeat constructor; lia)
                ltac:(repeat constructor; lia)) as H.
  destruct (equalizer_frame _ _ _ _) as [c' r].
  destruct H as (levels' & ts & Hr & _ & _ & Hcols).
  - intros i t. destruct (decide (i = 2)%nat); [| discriminate].
    intros [= <-]. lia.
  - exists levels', ts. cbn [snd]. split; [exact Hr |].
    destruct (Hcols 2%nat ltac:(lia))
      as (l & t & l' & El & Et & Ed & El' & _ & Hl' & Habs & _).
    cbn in El, Ed. injection El as <-. injection Ed as <-.
    split; [| exact Et]. rewrite El'. f_equal. lia.
Defined.

(** ** Starting and stopping an animation *)

(** A pass of the firework sleeps longer than [join] waits. *)
Lemma firework_pass_outlasts_join :
  foldr Z.add 0 firework_sleeps = 1150
  /\ join_timeout < foldr Z.add 0 firework_sleeps.
Proof. split; reflexivity. Qed.

Lemma keeps_flag_ret {A} (a : A) : keeps_flag (ret a).
Proof. intros c. reflexivity. Qed.

Lemma keeps_flag_bind {A B} (m : M LedController A)
  (k : A -> M LedController B) :
  keeps_flag m -> (forall a, keeps_flag (k a)) -> keeps_flag (bind m k).
Proof.
  intros Hm Hk c. unfold bind. specialize (Hm c).
  destruct (m c) as [c1 [a | e]]; cbn [fst] in *.
  - now rewrite (Hk a c1).
  - exact Hm.
Qed.

Lemma keeps_flag_for_each {A} (xs : list A)
  (body : A -> M LedController unit) :
  (forall x, keeps_flag (body x)) -> keeps_flag (for_each xs body).
Proof.
  intros Hb. induction xs as [| x xs IH]; cbn [for_each].
  - apply keeps_flag_ret.
  - apply keeps_flag_bind; [apply Hb | intros _; exact IH].
Qed.

Lemma keeps_flag_set_pad_color (note : Z) (color : PadColor) (channel : Z) :
  keeps_flag (set_pad_color note color channel).
Proof.
  intros c. unfold set_pad_color, bind, modify, raise, ret,
    output_port_send.
  destruct (negb (in_range 0 channel 15)); [reflexivity |].
  cbn [output_port set_led_states].
  destruct (output_port c); [| reflexivity].
  destruct (mido_Message _ _ _ _); reflexivity.
Qed.

Lemma keeps_flag_chase_pass (a : AnimationType.t) (head_pos : Z) :
  keeps_flag (chase_pass a head_pos).
Proof.
  destruct a; try apply keeps_flag_ret.
  unfold chase_pass, chase_frame. cbv zeta.
  apply keeps_flag_bind; [| intros _; apply keeps_flag_bind].
  - apply keeps_flag_for_each. intros i.
    destruct (0 <=? _); [| apply keeps_flag_ret].
    apply keeps_flag_bind; [apply keeps_flag_set_pad_color |].
    intros _. apply keeps_flag_ret.
  - destruct (0 <=? _); [| apply keeps_flag_ret].
    apply keeps_flag_bind; [apply keeps_flag_set_pad_color |].
    intros _. apply keeps_flag_ret.
  - intros _. apply keeps_flag_ret.
Qed.

Section AnimationProperties.
Context {L : Type}.
Variable setup : AnimationType.t -> L.
Variable pass : AnimationType.t -> L -> M LedController L.
Hypothesis pass_keeps_flag : forall a l, keeps_flag (pass a l).
Implicit Types (w : @Animator L) (th : @Thread L).

Lemma thread_step_InPass (t : nat) w th :
  threads w !! t = Some th -> at_position th = InPass ->
  thread_step pass t w
  = {| self := fst (pass (routine th) (locals th) (self w));
       animation_thread := animation_thread w;
       threads :=
         <[t := match snd (pass (routine th) (locals th) (self w)) with
                | Return l' => mkThread (routine th) l' AtHead
                | Raise _ => mkThread (routine th) (locals th) Ended
                end]> (threads w);
       passes := passes w ++ [(t, routine th)] |}.
Proof.
  intros E P. unfold thread_step. rewrite E, P.
  now destruct (pass (routine th) (locals th) (self w)).
Qed.

Lemma thread_step_AtHead (t : nat) w th :
  threads w !! t = Some th -> at_position th = AtHead ->
  thread_step pass t w
  = {| self := self w; animation_thread := animation_thread w;
       threads :=
         <[t := mkThread (routine th) (locals th)
                  (if animation_running (self w) then InPass else Ended)]>
           (threads w);
       passes := passes w |}.
Proof. intros E P. unfold thread_step. now rewrite E, P. Qed.

Lemma thread_step_Ended (t : nat) w th :
  threads w !! t = Some th -> at_position th = Ended ->
  thread_step pass t w = w.
Proof. intros E P. unfold thread_step. now rewrite E, P. Qed.

Lemma thread_step_animation_thread (t : nat) w :
  animation_thread (thread_step pass t w) = animation_thread w.
Proof.
  unfold thread_step. destruct (threads w !! t) as [th |]; [| reflexivity].
  destruct (at_position th); [reflexivity | | reflexivity].
  now destruct (pass (routine th) (locals th) (self w)).
Qed.

(** The thread that is inside a pass when the flag is cleared completes
    the pass, reads the flag and leaves. *)
Lemma pass_then_leave (t : nat) w th :
  threads w !! t = Some th -> at_position th = InPass ->
  animation_running (self w) = false ->
  let w2 := thread_step pass t (thread_step pass t w) in
  animation_running (self w2) = false
  /\ length (threads w2) = length (threads w)
  /\ (at_position <$> threads w2 !! t) = Some Ended
  /\ (forall u, u <> t -> threads w2 !! u = threads w !! u).
Proof.
  intros E P Hflag. cbv zeta.
  pose proof (lookup_lt_Some _ _ _ E) as Hlt.
  rewrite (thread_step_InPass t w th E P).
  pose proof (pass_keeps_flag (routine th) (locals th) (self w)) as Hk.
  rewrite Hflag in Hk.
  destruct (pass (routine th) (locals th) (self w)) as [c1 [l' | e]];
    cbn [fst snd] in *.
  - erewrite thread_step_AtHead;
      [| cbn [threads]; now apply list_lookup_insert_eq | reflexivity].
    cbn [self threads routine locals]. rewrite Hk.
    split; [reflexivity |]. split; [now rewrite !length_insert |].
    split.
    + rewrite list_lookup_insert_eq by now rewrite length_insert.
      reflexivity.
    + intros u Hu. now rewrite !list_lookup_insert_ne by congruence.
  - erewrite thread_step_Ended;
      [| cbn [threads]; now apply list_lookup_insert_eq | reflexivity].
    cbn [self threads]. split; [exact Hk |].
    split; [now rewrite length_insert |]. split.
    + now rewrite list_lookup_insert_eq.
    + intros u Hu. now rewrite list_lookup_insert_ne by congruence.
Qed.

Lemma is_alive_lookup (u : nat) w w' :
  threads w' !! u = threads w !! u -> is_alive u w' = is_alive u w.
Proof. unfold is_alive. now intros ->. Qed.

(** What [stop_animation] leaves when thread [t], the only one alive, is
    inside a pass. *)
Lemma stop_animation_in_pass (remaining : Z) (t : nat) w th :
  animation_thread w = Some t ->
  threads w !! t = Some th -> at_position th = InPass ->
  let w'' := stop_animation pass remaining w in
  animation_running (self w'') = false
  /\ animation_thread w'' = Some t
  /\ length (threads w'') = length (threads w)
  /\ passes w''
     = passes w ++ (if remaining <=? join_timeout then [(t, routine th)]
                    else [])
  /\ (forall u, u <> t -> threads w'' !! u = threads w !! u)
  /\ (if remaining <=? join_timeout
      then (at_position <$> threads w'' !! t) = Some Ended
      else threads w'' !! t = Some th).
Proof.
  intros Ht E P. cbv zeta. unfold stop_animation. cbv zeta.
  set (w1 := {| self := set_animation_running false (self w);
                animation_thread := animation_thread w;
                threads := threads w; passes := passes w |}).
  change (animation_thread w1) with (animation_thread w). rewrite Ht.
  destruct (remaining <=? join_timeout).
  - destruct (pass_then_leave t w1 th E P eq_refl) as (H1 & H2 & H3 & H4).
    split; [exact H1 |]. split.
    { rewrite !thread_step_animation_thread. exact Ht. }
    split; [exact H2 |]. split; [| split; [exact H4 | exact H3]].
    rewrite (thread_step_InPass t w1 th E P).
    set (w2 := mkAnimator _ _ _ _).
    assert (E2 : exists th2, threads w2 !! t = Some th2
                             /\ at_position th2 <> InPass).
    { subst w2. cbn [threads].
      rewrite list_lookup_insert_eq by exact (lookup_lt_Some _ _ _ E).
      eexists. split; [reflexivity |].
      now destruct (snd (pass _ _ _)). }
    destruct E2 as (th2 & E2 & P2).
    unfold thread_step. rewrite E2.
    destruct (at_position th2); [reflexivity | contradiction | reflexivity].
  - cbn [self threads passes animation_thread set_animation_running
         animation_running].
    split; [reflexivity |]. split; [exact Ht |]. split; [reflexivity |].
    split; [now rewrite app_nil_r |]. split; [reflexivity | exact E].
Qed.

(** C1, as the code has it.  Thread [t] is the thread of the attribute
    [animation_thread], the only one alive, and it is inside a pass of its
    routine.

    [stop_animation] clears the flag and joins the thread, as claimed;
    but [join] comes back after its timeout whether or not the thread has
    ended, and nothing looks at that.  When the pass of the thread lasts
    longer than the timeout, the thread is still alive when
    [stop_animation] returns, and the pass it then completes is written
    after the return.

    [start_animation] calls [stop_animation], sets the flag again and
    starts a second thread.  When the join ended in time the new thread is
    the only one alive.  When it timed out two threads are alive: the old
    one completes its pass, finds the flag set at the head of its loop and
    enters another pass, while the new one enters its first; the old
    routine is no longer the one [animation_thread] stands for. *)
Theorem start_animation_two_routines w (t : nat) th
  (b : AnimationType.t) (remaining : Z) :
  animation_thread w = Some t ->
  threads w !! t = Some th ->
  at_position th = InPass ->
  (forall u, is_alive u w = true <-> u = t) ->
  let t' := length (threads w) in
  let w' := start_animation setup pass b remaining w in
  let w'' := stop_animation pass remaining w in
  (animation_running (self w'') = false
   /\ (forall u, is_alive u w'' = true
                 <-> u = t /\ join_timeout < remaining)
   /\ (join_timeout < remaining ->
       passes w'' = passes w
       /\ passes (thread_step pass t w'') = passes w'' ++ [(t, routine th)]))
  /\ animation_running (self w') = true
  /\ animation_thread w' = Some t'
  /\ (routine <$> threads w' !! t') = Some b
  /\ (forall u, is_alive u w' = true
                <-> (u = t /\ join_timeout < remaining) \/ u = t')
  /\ (join_timeout < remaining ->
      t <> t'
      /\ passes (thread_step pass t w') = passes w' ++ [(t, routine th)]
      /\ forall l',
           snd (pass (routine th) (locals th) (self w')) = Return l' ->
           let w3 :=
             thread_step pass t' (thread_step pass t
                                    (thread_step pass t w')) in
           (at_position <$> threads w3 !! t) = Some InPass
           /\ (at_position <$> threads w3 !! t') = Some InPass
           /\ (routine <$> threads w3 !! t) = Some (routine th)
           /\ (routine <$> threads w3 !! t') = Some b).
Proof.
  intros Ht E P Halive. cbv zeta.
  pose proof (lookup_lt_Some _ _ _ E) as Hlt.
  pose proof (stop_animation_in_pass remaining t w th Ht E P) as Hstop.
  cbv zeta in Hstop.
  assert (Ha : is_alive t w = true) by now apply Halive.
  assert (Hw' : start_animation setup pass b remaining w
                = {| self := set_animation_running true
                               (self (stop_animation pass remaining w));
                     animation_thread :=
                       Some (length
                               (threads (stop_animation pass remaining w)));
                     threads :=
                       threads (stop_animation pass remaining w)
                       ++ [mkThread b (setup b) AtHead];
                     passes := passes (stop_animation pass remaining w) |}).
  { unfold start_animation. cbv zeta. now rewrite Ht, Ha. }
  rewrite Hw'. clear Hw'.
  set (w'' := stop_animation pass remaining w) in *.
  destruct Hstop as (Hflag & Hthread & Hlen & Hpasses & Hother & Hthis).
  assert (Halive'' : forall u, is_alive u w'' = true
                               <-> u = t /\ join_timeout < remaining).
  { intros u. destruct (decide (u = t)) as [-> | Hu].
    - unfold is_alive. destruct (Z.leb_spec remaining join_timeout).
      + destruct (threads w'' !! t) as [th2 |]; [| discriminate Hthis].
        injection Hthis as ->. split; [discriminate | lia].
      + rewrite Hthis, P. split; [now split | reflexivity].
    - rewrite (is_alive_lookup u w w'' (Hother u Hu)), Halive.
      split; [contradiction | intros [? _]; contradiction]. }
  split.
  { split; [exact Hflag |]. split; [exact Halive'' |].
    intros Hr. apply Z.leb_gt in Hr. rewrite Hr in Hpasses, Hthis.
    split; [now rewrite Hpasses, app_nil_r |].
    now rewrite (thread_step_InPass t w'' th Hthis P). }
  cbn [self animation_thread threads passes set_animation_running
       animation_running].
  split; [reflexivity |]. split; [now rewrite Hlen |].
  split.
  { rewrite lookup_app_r by lia. now rewrite Hlen, Nat.sub_diag. }
  split.
  { intros u. unfold is_alive at 1. cbn [threads].
    destruct (decide (u < length (threads w''))%nat) as [Hu | Hu].
    - rewrite lookup_app_l by exact Hu.
      fold (is_alive u w''). rewrite Halive''.
      split; [now left | intros [H | ->]; [exact H | lia]].
    - destruct (decide (u = length (threads w''))) as [-> | Hne].
      + rewrite lookup_app_r by lia. rewrite Nat.sub_diag. cbn.
        split; [right; now rewrite Hlen | reflexivity].
      + rewrite lookup_ge_None_2
          by (rewrite length_app; cbn [length]; lia).
        split; [discriminate | intros [[-> _] | ->]; lia]. }
  intros Hr. apply Z.leb_gt in Hr. rewrite Hr in Hpasses, Hthis.
  split; [lia |].
  set (new := mkThread b (setup b) AtHead).
  set (w1 := {| self := set_animation_running true (self w'');
                animation_thread := Some (length (threads w''));
                threads := threads w'' ++ [new];
                passes := passes w'' |}).
  assert (E1 : threads w1 !! t = Some th).
  { subst w1. cbn [threads]. rewrite lookup_app_l by lia. exact Hthis. }
  rewrite (thread_step_InPass t w1 th E1 P).
  split; [reflexivity |].
  intros l' Hret. cbv zeta.
  change (set_animation_running true (self w'')) with (self w1) in Hret.
  rewrite Hret.
  pose proof (pass_keeps_flag (routine th) (locals th) (self w1)) as Hk.
  set (c1 := fst (pass (routine th) (locals th) (self w1))) in *.
  assert (Hc1 : animation_running c1 = true) by (rewrite Hk; reflexivity).
  assert (Hlen1 : length (threads w1) = S (length (threads w))).
  { subst w1. cbn [threads]. rewrite length_app. cbn [length]. lia. }
  set (w2 := {| self := c1; animation_thread := animation_thread w1;
                threads := <[t := mkThread (routine th) l' AtHead]>
                             (threads w1);
                passes := passes w1 ++ [(t, routine th)] |}).
  set (w3 := {| self := c1; animation_thread := animation_thread w1;
                threads := <[t := mkThread (routine th) l' InPass]>
                             (threads w2);
                passes := passes w2 |}).
  set (w4 := {| self := c1; animation_thread := animation_thread w1;
                threads := <[length (threads w) := mkThread b (setup b)
                                                     InPass]>
                             (threads w3);
                passes := passes w3 |}).
  assert (S2 : thread_step pass t w2 = w3).
  { assert (E2 : threads w2 !! t
                 = Some (mkThread (routine th) l' AtHead)).
    { subst w2. cbn [threads]. apply list_lookup_insert_eq. lia. }
    rewrite (thread_step_AtHead t w2 _ E2 eq_refl).
    subst w3 w2. cbn [self routine locals animation_thread passes threads].
    now rewrite Hc1. }
  assert (S3 : thread_step pass (length (threads w)) w3 = w4).
  { assert (E3 : threads w3 !! length (threads w) = Some new).
    { subst w3 w2 w1. cbn [threads].
      rewrite !list_lookup_insert_ne by lia.
      rewrite lookup_app_r by lia. now rewrite Hlen, Nat.sub_diag. }
    rewrite (thread_step_AtHead (length (threads w)) w3 new E3 eq_refl).
    subst w4 w3 new.
    cbn [self routine locals animation_thread passes threads].
    now rewrite Hc1. }
  rewrite S2, S3. subst w4 w3 w2. cbn [threads].
  rewrite list_lookup_insert_ne by lia.
  rewrite list_lookup_insert_eq by (rewrite length_insert; lia).
  rewrite list_lookup_insert_eq by (rewrite !length_insert; lia).
  now repeat split.
Qed.
End AnimationProperties.

Lemma start_animation_two_routines_witness :
  let w' :=
    start_animation (fun _ => 0) chase_pass AnimationType.SPARKLE 1150
      chase_in_pass in
  animation_thread chase_in_pass = Some 0%nat
  /\ join_timeout < 1150
  /\ is_alive 0 w' = true /\ is_alive 1 w' = true
  /\ animation_running (self w') = true.
Proof.
  cbv zeta.
  destruct (start_animation_two_routines (fun _ => 0) chase_pass
              keeps_flag_chase_pass chase_in_pass 0
              (mkThread AnimationType.CHASE 0 InPass)
              AnimationType.SPARKLE 1150 eq_refl eq_refl eq_refl)
    as (_ & Hflag & _ & _ & Halive & _).
  - intros u. destruct u as [| u]; [split; reflexivity |].
    split; [discriminate | discriminate].
  - split; [reflexivity |]. split; [reflexivity |].
    split; [apply Halive; left; split; reflexivity |].
    split; [apply Halive; now right | exact Hflag].
Defined.
